(** * Block-Flow execution engine

    A shallow embedding of the flow execution core of the repository:
    - [internal/models]: messages, flow definitions, the execution context;
    - [internal/blocks]: the block interface and the registry;
    - [internal/engine]: the flow executor (validate, prepare, start, stop,
      node workers, fan-out) and the engine facade over storage.

    Go values that are references (message pointers, maps, channels) live in
    typed stores indexed by address, so that aliasing is visible.  Effects are
    explicit: every operation takes the state it reads and returns the state it
    leaves.  Go's [int] is modelled as [Z]; no operation of the engine does
    arithmetic on it, only comparisons. *)

From stdpp Require Import gmap strings list fin_maps pretty.
From Stdlib Require Import Strings.Ascii Strings.Byte.

Set Default Proof Using "Type".

(** Go's [(T, error)] results.  Errors are the strings [fmt.Errorf] builds. *)
Inductive result (A : Type) : Type :=
| Ok (a : A)
| Err (e : string).
Arguments Ok {A} a.
Arguments Err {A} e.

Definition is_Ok {A} (r : result A) : bool :=
  match r with Ok _ => true | Err _ => false end.

(** [interface{}] payloads and property values, as a tagged union. *)
Inductive Value : Type :=
| VNil
| VBool (b : bool)
| VInt (z : Z)
| VStr (s : string).

(** Addresses into a typed store.  A Go pointer or map that may be [nil] is
    an [option ptr]. *)
Abbreviation ptr := nat (only parsing).

(* ================================================================== *)
(** ** encoding/hex *)

Module hex.

Definition hextable : list ascii :=
  ["0"; "1"; "2"; "3"; "4"; "5"; "6"; "7"; "8"; "9"; "a"; "b"; "c"; "d"; "e"; "f"]%char.

Definition digit (n : N) : ascii := nth (N.to_nat n) hextable "0"%char.

(** dst[j] = hextable[v>>4]; dst[j+1] = hextable[v&0x0f] *)
Fixpoint EncodeToString (src : list byte) : string :=
  match src with
  | [] => EmptyString
  | v :: rest =>
      String (digit (N.shiftr (Byte.to_N v) 4))
        (String (digit (N.land (Byte.to_N v) 15)) (EncodeToString rest))
  end.

Definition undigit (c : ascii) : option N :=
  let n := N_of_ascii c in
  if (48 <=? n)%N && (n <=? 57)%N then Some (n - 48)%N
  else if (97 <=? n)%N && (n <=? 102)%N then Some (n - 87)%N
  else None.

Fixpoint DecodeString (s : string) : option (list byte) :=
  match s with
  | EmptyString => Some []
  | String hi (String lo rest) =>
      match undigit hi, undigit lo, DecodeString rest with
      | Some h, Some l, Some bs =>
          match Byte.of_N (h * 16 + l) with
          | Some b => Some (b :: bs)
          | None => None
          end
      | _, _, _ => None
      end
  | String _ EmptyString => None
  end.

End hex.

(* ================================================================== *)
(** ** internal/models: messages and the world they live in *)

Module Message.
Record t : Type := mk {
  ID : string;
  Payload : Value;
  Topic : string;
  Headers : option ptr;      (* map[string]string, nil when None *)
  Timestamp : Z;             (* time.Time as nanoseconds *)
  Source : string;
  Target : string; Context : option ptr   (* map[string]interface{} *)
}.
End Message.

Inductive Level : Type := DEBUG | INFO | WARN | ERROR.

Record LogEntry : Type := {
  level : Level;
  text : string;
  fields : list (string * Value)
}.

(** What [crypto/rand.Read] hands back for a 16-byte buffer. *)
Inductive RandResult : Type :=
| RandBytes (bs : list byte)
| RandErr.

(** The environment: the random source and the clock, each indexed by the
    number of calls made so far. *)
Record Env : Type := {
  rand_Read : nat -> RandResult;
  time_Now : nat -> Z
}.

(** Everything a block's [Execute] and the message operations can touch:
    the environment, the stores of [*Message], [map[string]string] and
    [map[string]interface{}] objects (address = position, allocation appends)
    and the logger's output. *)
Record World : Type := {
  env : Env;
  draws : nat;
  ticks : nat;
  messages : list Message.t;
  header_maps : list (gmap string string);
  context_maps : list (gmap string Value);
  log : list LogEntry
}.

Definition set_messages (ms : list Message.t) (w : World) : World :=
  {| env := env w; draws := draws w; ticks := ticks w; messages := ms;
     header_maps := header_maps w; context_maps := context_maps w;
     log := log w |}.

Definition set_header_maps (hs : list (gmap string string)) (w : World) : World :=
  {| env := env w; draws := draws w; ticks := ticks w; messages := messages w;
     header_maps := hs; context_maps := context_maps w; log := log w |}.

Definition set_context_maps (cs : list (gmap string Value)) (w : World) : World :=
  {| env := env w; draws := draws w; ticks := ticks w; messages := messages w;
     header_maps := header_maps w; context_maps := cs; log := log w |}.

Definition set_log (l : list LogEntry) (w : World) : World :=
  {| env := env w; draws := draws w; ticks := ticks w; messages := messages w;
     header_maps := header_maps w; context_maps := context_maps w; log := l |}.

Definition logf (lv : Level) (msg : string) (fs : list (string * Value))
    (w : World) : World :=
  set_log (log w ++ [ {| level := lv; text := msg; fields := fs |} ]) w.

(** [time.Now()] *)
Definition Now (w : World) : Z * World :=
  (time_Now (env w) (ticks w),
   {| env := env w; draws := draws w; ticks := S (ticks w);
      messages := messages w; header_maps := header_maps w;
      context_maps := context_maps w; log := log w |}).

(** [rand.Read(bytes)] on a fresh 16-byte buffer *)
Definition Read (w : World) : RandResult * World :=
  (rand_Read (env w) (draws w),
   {| env := env w; draws := S (draws w); ticks := ticks w;
      messages := messages w; header_maps := header_maps w;
      context_maps := context_maps w; log := log w |}).

(** errors.go: generateID *)
Definition generateID (w : World) : string * World :=
  let '(r, w1) := Read w in
  match r with
  | RandBytes bs => (hex.EncodeToString bs, w1)
  | RandErr =>
      let '(now, w2) := Now w1 in
      ("id_" +:+ pretty now, w2)
  end.

(** [make(map[string]string)] filled with [h] *)
Definition new_header_map (h : gmap string string) (w : World) : ptr * World :=
  (length (header_maps w), set_header_maps (header_maps w ++ [h]) w).

Definition new_context_map (c : gmap string Value) (w : World) : ptr * World :=
  (length (context_maps w), set_context_maps (context_maps w ++ [c]) w).

(** [&Message{...}] *)
Definition new_message (m : Message.t) (w : World) : ptr * World :=
  (length (messages w), set_messages (messages w ++ [m]) w).

(** message.go: NewMessage *)
Definition NewMessage (payload : Value) (w : World) : ptr * World :=
  let '(id, w1) := generateID w in
  let '(h, w2) := new_header_map ∅ w1 in
  let '(now, w3) := Now w2 in
  let '(c, w4) := new_context_map ∅ w3 in
  new_message
    {| Message.ID := id; Message.Payload := payload; Message.Topic := "";
       Message.Headers := Some h; Message.Timestamp := now;
       Message.Source := ""; Message.Target := "";
       Message.Context := Some c |} w4.

(** Copy of an existing map into a freshly made one; [nil] stays [nil]. *)
Definition copy_header_map (src : option ptr) (w : World) : option ptr * World :=
  match src with
  | None => (None, w)
  | Some l =>
      let '(l', w') := new_header_map (default ∅ (header_maps w !! l)) w in
      (Some l', w')
  end.

Definition copy_context_map (src : option ptr) (w : World) : option ptr * World :=
  match src with
  | None => (None, w)
  | Some l =>
      let '(l', w') := new_context_map (default ∅ (context_maps w !! l)) w in
      (Some l', w')
  end.

(** message.go: (m *Message) Clone.  [None] is the nil-pointer panic. *)
Definition Clone (p : ptr) (w : World) : option (ptr * World) :=
  match messages w !! p with
  | None => None
  | Some m =>
      let '(id, w1) := generateID w in
      let '(now, w2) := Now w1 in
      let '(h, w3) := copy_header_map (Message.Headers m) w2 in
      let '(c, w4) := copy_context_map (Message.Context m) w3 in
      Some (new_message
        {| Message.ID := id; Message.Payload := Message.Payload m;
           Message.Topic := Message.Topic m; Message.Headers := h;
           Message.Timestamp := now; Message.Source := Message.Source m;
           Message.Target := Message.Target m; Message.Context := c |} w4)
  end.

Definition with_Headers (h : option ptr) (m : Message.t) : Message.t :=
  {| Message.ID := Message.ID m; Message.Payload := Message.Payload m;
     Message.Topic := Message.Topic m; Message.Headers := h;
     Message.Timestamp := Message.Timestamp m;
     Message.Source := Message.Source m; Message.Target := Message.Target m;
     Message.Context := Message.Context m |}.

Definition with_Context (c : option ptr) (m : Message.t) : Message.t :=
  {| Message.ID := Message.ID m; Message.Payload := Message.Payload m;
     Message.Topic := Message.Topic m; Message.Headers := Message.Headers m;
     Message.Timestamp := Message.Timestamp m;
     Message.Source := Message.Source m; Message.Target := Message.Target m;
     Message.Context := c |}.

(** message.go: SetHeader *)
Definition SetHeader (p : ptr) (key value : string) (w : World) : option World :=
  match messages w !! p with
  | None => None
  | Some m =>
      match Message.Headers m with
      | None =>
          let '(l, w1) := new_header_map ∅ w in
          let w2 := set_messages (<[p := with_Headers (Some l) m]> (messages w1)) w1 in
          Some (set_header_maps (alter (insert key value) l (header_maps w2)) w2)
      | Some l =>
          Some (set_header_maps (alter (insert key value) l (header_maps w)) w)
      end
  end.

(** message.go: GetHeader, returning (value, exists) *)
Definition GetHeader (p : ptr) (key : string) (w : World) : option (string * bool) :=
  match messages w !! p with
  | None => None
  | Some m =>
      match Message.Headers m with
      | None => Some ("", false)
      | Some l =>
          match default ∅ (header_maps w !! l) !! key with
          | Some v => Some (v, true)
          | None => Some ("", false)
          end
      end
  end.

(** message.go: SetContext *)
Definition SetContext (p : ptr) (key : string) (value : Value) (w : World)
    : option World :=
  match messages w !! p with
  | None => None
  | Some m =>
      match Message.Context m with
      | None =>
          let '(l, w1) := new_context_map ∅ w in
          let w2 := set_messages (<[p := with_Context (Some l) m]> (messages w1)) w1 in
          Some (set_context_maps (alter (insert key value) l (context_maps w2)) w2)
      | Some l =>
          Some (set_context_maps (alter (insert key value) l (context_maps w)) w)
      end
  end.

(** message.go: GetContext, returning (value, exists) *)
Definition GetContext (p : ptr) (key : string) (w : World) : option (Value * bool) :=
  match messages w !! p with
  | None => None
  | Some m =>
      match Message.Context m with
      | None => Some (VNil, false)
      | Some l =>
          match default ∅ (context_maps w !! l) !! key with
          | Some v => Some (v, true)
          | None => Some (VNil, false)
          end
      end
  end.

(** Two worlds show the same headers and context for the message at [p]. *)
Definition same_maps (p : ptr) (w1 w2 : World) : Prop :=
  (forall k, GetHeader p k w1 = GetHeader p k w2) /\
  (forall k, GetContext p k w1 = GetContext p k w2).

(** The maps a message points to are allocated. *)
Definition maps_live (w : World) (m : Message.t) : Prop :=
  (forall l, Message.Headers m = Some l -> is_Some (header_maps w !! l)) /\
  (forall l, Message.Context m = Some l -> is_Some (context_maps w !! l)).

(** [id] was produced by an earlier successful draw of [generateID]. *)
Definition issued (w : World) (id : string) : Prop :=
  exists i bs, (i < draws w)%nat /\ rand_Read (env w) i = RandBytes bs /\
    id = hex.EncodeToString bs.

(** The random source does not repeat, at the coming draw, what it returned
    at an earlier one. *)
Definition fresh_draw (w : World) : Prop :=
  forall i, (i < draws w)%nat -> rand_Read (env w) i <> rand_Read (env w) (draws w).

(* ------------------------------------------------------------------ *)
(** *** Flow definitions (the static graph) *)

(** The presentational coordinates [X], [Y] (float64) are left out: no
    operation of the engine reads them. *)
Module Node.
Record t : Type := mk {
  ID : string;
  Type_ : string;                       (* block type, the field [Type] *)
  Name : string;
  Properties : gmap string Value;
  Inputs : Z;
  Outputs : Z;
  Wires : list (list string)
}.
End Node.

Module Connection.
Record t : Type := mk {
  ID : string;
  Source : string;
  SourcePort : Z;
  Target : string;
  TargetPort : Z;
  Label : string
}.
End Connection.

Module Flow.
Record t : Type := mk {
  ID : string;
  Name : string;
  Description : string;
  Nodes : list Node.t;
  Connections : list Connection.t;
  Properties : gmap string string;
  CreatedAt : Z;
  UpdatedAt : Z;
  Version : string;
  Active : bool
}.

(** The first loop of [Validate]: [nodeIDs] records the ids seen so far. *)
Fixpoint check_duplicates (nodeIDs : gmap string bool) (nodes : list Node.t)
    : result (gmap string bool) :=
  match nodes with
  | [] => Ok nodeIDs
  | node :: rest =>
      if default false (nodeIDs !! Node.ID node)
      then Err ("duplicate node ID: " +:+ Node.ID node)
      else check_duplicates (<[Node.ID node := true]> nodeIDs) rest
  end.

(** The second loop of [Validate]. *)
Fixpoint check_connections (nodeIDs : gmap string bool)
    (conns : list Connection.t) : option string :=
  match conns with
  | [] => None
  | conn :: rest =>
      if negb (default false (nodeIDs !! Connection.Source conn))
      then Some ("connection references non-existent source node: "
                 +:+ Connection.Source conn)
      else if negb (default false (nodeIDs !! Connection.Target conn))
      then Some ("connection references non-existent target node: "
                 +:+ Connection.Target conn)
      else check_connections nodeIDs rest
  end.

(** flow.go: (f *Flow) Validate.  [None] is the nil error. *)
Definition Validate (f : t) : option string :=
  match check_duplicates ∅ (Nodes f) with
  | Err e => Some e
  | Ok nodeIDs => check_connections nodeIDs (Connections f)
  end.

(** Field assignments through the [*Flow] receiver. *)
Definition set_Nodes (nodes : list Node.t) (f : t) : t :=
  mk (ID f) (Name f) (Description f) nodes (Connections f) (Properties f)
     (CreatedAt f) (UpdatedAt f) (Version f) (Active f).

Definition set_Connections (conns : list Connection.t) (f : t) : t :=
  mk (ID f) (Name f) (Description f) (Nodes f) conns (Properties f)
     (CreatedAt f) (UpdatedAt f) (Version f) (Active f).

Definition set_UpdatedAt (now : Z) (f : t) : t :=
  mk (ID f) (Name f) (Description f) (Nodes f) (Connections f) (Properties f)
     (CreatedAt f) now (Version f) (Active f).

(** flow.go: (f *Flow) AddNode *)
Definition AddNode (node : Node.t) (f : t) (w : World) : t * World :=
  let f1 := set_Nodes (Nodes f ++ [node]) f in
  let '(now, w1) := Now w in
  (set_UpdatedAt now f1, w1).

(** flow.go: (f *Flow) AddConnection *)
Definition AddConnection (conn : Connection.t) (f : t) (w : World) : t * World :=
  let f1 := set_Connections (Connections f ++ [conn]) f in
  let '(now, w1) := Now w in
  (set_UpdatedAt now f1, w1).

(** The loop of [GetNode], from index [i] on. *)
Fixpoint GetNode_from (i : nat) (nodes : list Node.t) (nodeID : string)
    : option nat :=
  match nodes with
  | [] => None
  | node :: rest =>
      if String.eqb (Node.ID node) nodeID then Some i
      else GetNode_from (S i) rest nodeID
  end.

(** flow.go: (f *Flow) GetNode.  [Some i] is [(&f.Nodes[i], true)], [None]
    is [(nil, false)]. *)
Definition GetNode (f : t) (nodeID : string) : option nat :=
  GetNode_from 0 (Nodes f) nodeID.

(** The first loop of [RemoveNode]: the slice without the first node that
    has the id. *)
Fixpoint remove_first (nodeID : string) (nodes : list Node.t) : list Node.t :=
  match nodes with
  | [] => []
  | node :: rest =>
      if String.eqb (Node.ID node) nodeID then rest
      else node :: remove_first nodeID rest
  end.

(** The loop of [filterConnections]: [filtered] is the slice built so far. *)
Fixpoint filter_loop (predicate : Connection.t -> bool)
    (conns filtered : list Connection.t) : list Connection.t :=
  match conns with
  | [] => filtered
  | conn :: rest =>
      filter_loop predicate rest
        (if predicate conn then filtered ++ [conn] else filtered)
  end.

(** flow.go: (f *Flow) filterConnections *)
Definition filterConnections (f : t) (predicate : Connection.t -> bool)
    : list Connection.t :=
  filter_loop predicate (Connections f) [].

(** flow.go: (f *Flow) RemoveNode *)
Definition RemoveNode (nodeID : string) (f : t) (w : World) : bool * t * World :=
  let f1 := set_Nodes (remove_first nodeID (Nodes f)) f in
  let f2 :=
    set_Connections
      (filterConnections f1
         (fun conn => negb (String.eqb (Connection.Source conn) nodeID) &&
                      negb (String.eqb (Connection.Target conn) nodeID))) f1 in
  let '(now, w1) := Now w in
  (true, set_UpdatedAt now f2, w1).
End Flow.

(** flow.go: NewFlow *)
Definition NewFlow (name : string) (w : World) : Flow.t * World :=
  let '(now, w1) := Now w in
  let '(id, w2) := generateID w1 in
  (Flow.mk id name "" [] [] ∅ now now "1.0.0" false, w2).

(** flow.go: NewNode.  [make([][]string, 1)] is one nil slice. *)
Definition NewNode (nodeType name : string) (w : World) : Node.t * World :=
  let '(id, w1) := generateID w in
  (Node.mk id nodeType name ∅ 1 1 [[]], w1).

(* ------------------------------------------------------------------ *)
(** *** The execution context handed to a block *)

(** The only [BlockLogger] the engine builds: the adapter around its own
    logger, whose output is the [log] of the world. *)
Inductive BlockLogger : Type := LoggerAdapter.

Module BlockExecutionContext.
Record t : Type := mk {
  Context : option nat;      (* context.Context: its Done channel, [None] for
                                the nil interface *)
  NodeID : string;
  FlowID : string;
  Message : option ptr;      (* *Message, nil when None *)
  Logger : option BlockLogger;
  State : option ptr;        (* map[string]interface{}, nil when None *)
  Debug : bool;
  Timestamp : Z
}.
End BlockExecutionContext.

(** message.go: NewBlockExecutionContext *)
Definition NewBlockExecutionContext (ctx : option nat) (nodeID flowID : string)
    (msg : option ptr) (logger : option BlockLogger) (w : World)
    : BlockExecutionContext.t * World :=
  let '(st, w1) := new_context_map ∅ w in
  let '(now, w2) := Now w1 in
  ({| BlockExecutionContext.Context := ctx;
      BlockExecutionContext.NodeID := nodeID;
      BlockExecutionContext.FlowID := flowID;
      BlockExecutionContext.Message := msg;
      BlockExecutionContext.Logger := logger;
      BlockExecutionContext.State := Some st;
      BlockExecutionContext.Debug := true;
      BlockExecutionContext.Timestamp := now |}, w2).

(** message.go: SetState.  Writing to a nil map panics: [None]. *)
Definition SetState (ctx : BlockExecutionContext.t) (key : string) (value : Value)
    (w : World) : option World :=
  match BlockExecutionContext.State ctx with
  | None => None
  | Some l => Some (set_context_maps (alter (insert key value) l (context_maps w)) w)
  end.

(** message.go: GetState.  Reading a nil map finds nothing. *)
Definition GetState (ctx : BlockExecutionContext.t) (key : string) (w : World)
    : Value * bool :=
  match BlockExecutionContext.State ctx with
  | None => (VNil, false)
  | Some l =>
      match default ∅ (context_maps w !! l) !! key with
      | Some v => (v, true)
      | None => (VNil, false)
      end
  end.

(* ================================================================== *)
(** ** internal/blocks: the block interface and the registry *)

(** [type BlockGroup string] *)
Definition BlockGroup := string.
Definition InputGroup : BlockGroup := "input".
Definition PropagationGroup : BlockGroup := "propagation".
Definition ActionGroup : BlockGroup := "action".

Record Option : Type := {
  opt_Label : string;
  opt_Value : Value
}.

(** [Min], [Max] (pointers to float64) are kept as integers where the source writes
    integer literals. *)
Record Validation : Type := {
  Min : option Z;
  Max : option Z;
  Regex : string;
  Length : option Z
}.

Definition no_validation : Validation :=
  {| Min := None; Max := None; Regex := ""; Length := None |}.

Module PropertyDefinition.
Record t : Type := mk {
  Name : string;
  Type_ : string;
  DisplayName : string;
  Description : string;
  Required : bool;
  DefaultValue : Value;
  Options : list Option;
  Validation_ : Validation
}.
End PropertyDefinition.

(** The [Block] interface: one record of methods per implementation.
    [Execute] is the side-effecting one: it reads and leaves a world, and
    returns the messages (pointers, possibly nil) or an error; [None] stands
    for a panic inside the block. *)
Record Block : Type := {
  GetType : string;
  GetName : string;
  GetDescription : string;
  GetCategory : string;
  GetBlockGroup : BlockGroup;
  GetInputs : Z;
  GetOutputs : Z;
  GetProperties : list PropertyDefinition.t;
  Validate : gmap string Value -> option string;
  Execute : BlockExecutionContext.t -> gmap string Value -> World ->
            option (result (list (option ptr)) * World)
}.

Module BlockInfo.
Record t : Type := mk {
  Type_ : string;
  Name : string;
  Description : string;
  Category : string;
  BlockGroup_ : BlockGroup;
  Inputs : Z;
  Outputs : Z;
  Version : string;
  Author : string;
  Icon : string;
  Color : string
}.

(** The zero value [BlockInfo{}] *)
Definition zero : t :=
  mk "" "" "" "" "" 0 0 "" "" "" "".
End BlockInfo.

(** The [BlockFactory] interface *)
Module BlockFactory.
Record t : Type := mk {
  CreateBlock : Block;
  GetBlockInfo : BlockInfo.t
}.
End BlockFactory.

Module Registry.
Record t : Type := mk {
  blocks : gmap string BlockFactory.t
}.

Definition NewRegistry : t := mk ∅.

Definition Register (factory : BlockFactory.t) (r : t) : t :=
  mk (<[BlockInfo.Type_ (BlockFactory.GetBlockInfo factory) := factory]> (blocks r)).

(** [NewBlockError(message, blockType, nil).Error()] *)
Definition BlockError (message blockType : string) : string :=
  "block error [" +:+ blockType +:+ "]: " +:+ message.

Definition CreateBlock (r : t) (blockType : string) : result Block :=
  match blocks r !! blockType with
  | None => Err (BlockError "unknown block type" blockType)
  | Some factory => Ok (BlockFactory.CreateBlock factory)
  end.

(** The metadata of every registered factory, in the order the map is
    walked. *)
Definition GetBlockInfo (r : t) : list BlockInfo.t :=
  (fun kv => BlockFactory.GetBlockInfo kv.2) <$> map_to_list (blocks r).

Definition GetBlockInfoByType (r : t) (blockType : string) : result BlockInfo.t :=
  match blocks r !! blockType with
  | None => Err (BlockError "unknown block type" blockType)
  | Some factory => Ok (BlockFactory.GetBlockInfo factory)
  end.

(** The registered types, in the order the map is walked. *)
Definition GetBlockTypes (r : t) : list string :=
  (map_to_list (blocks r)).*1.
End Registry.

(* ------------------------------------------------------------------ *)
(** *** builtin: the inject block *)

(** The double quote, for the messages that quote their input. *)
Definition dquote : string := String (ascii_of_nat 34) EmptyString.

Module strconv.
(** strconv.ParseBool *)
Definition ParseBool (str : string) : result bool :=
  if bool_decide (str ∈ ["1"; "t"; "T"; "TRUE"; "true"; "True"]) then Ok true
  else if bool_decide (str ∈ ["0"; "f"; "F"; "FALSE"; "false"; "False"]) then Ok false
  else Err ("strconv.ParseBool: parsing " +:+ dquote +:+ str +:+ dquote
            +:+ ": invalid syntax").
End strconv.

(** [properties[key].(string)] with the comma-ok result dropped *)
Definition as_string (v : option Value) : string :=
  match v with Some (VStr s) => s | _ => "" end.

(** A field assignment through a message pointer. *)
Definition update_message (p : ptr) (f : Message.t -> Message.t) (w : World) : World :=
  set_messages (alter f p (messages w)) w.

Definition with_Topic_Source (topic source : string) (m : Message.t) : Message.t :=
  {| Message.ID := Message.ID m; Message.Payload := Message.Payload m;
     Message.Topic := topic; Message.Headers := Message.Headers m;
     Message.Timestamp := Message.Timestamp m;
     Message.Source := source; Message.Target := Message.Target m;
     Message.Context := Message.Context m |}.

Section Builtin.

(** [strconv.ParseFloat(s, 64)]: float64 values are outside the model, so the
    parser and the value it yields are taken as given. *)
Variable ParseFloat : string -> result Value.

Definition InjectBlock_GetProperties : list PropertyDefinition.t :=
  [ PropertyDefinition.mk "name" "string" "Name"
      "Block name for identification" false (VStr "Inject") [] no_validation;
    PropertyDefinition.mk "payload" "string" "Output Value"
      "The value to inject (will be converted to number if possible)"
      true (VStr "0") [] no_validation;
    PropertyDefinition.mk "interval" "number" "Interval (ms)"
      "Message publishing interval in milliseconds (0 = manual trigger only)"
      false (VInt 1000) []
      {| Min := Some 0%Z; Max := None; Regex := ""; Length := None |};
    PropertyDefinition.mk "topic" "string" "Topic"
      "Optional topic for the message" false (VStr "") [] no_validation;
    PropertyDefinition.mk "payloadType" "select" "Payload Type"
      "The type of the payload" false (VStr "number")
      [ {| opt_Label := "Number"; opt_Value := VStr "number" |};
        {| opt_Label := "String"; opt_Value := VStr "string" |};
        {| opt_Label := "Boolean"; opt_Value := VStr "boolean" |} ]
      no_validation ].

Definition InjectBlock_Validate (properties : gmap string Value) : option string :=
  match properties !! "payload" with
  | None => Some "payload property is required"
  | Some _ => None
  end.

(** The payload conversion of [InjectBlock.Execute] *)
Definition InjectBlock_payload (payloadType payloadStr : string) : result Value :=
  if String.eqb payloadType "number" then
    match ParseFloat payloadStr with
    | Ok v => Ok v
    | Err e => Err ("failed to parse payload as number: " +:+ e)
    end
  else if String.eqb payloadType "boolean" then
    match strconv.ParseBool payloadStr with
    | Ok b => Ok (VBool b)
    | Err e => Err ("failed to parse payload as boolean: " +:+ e)
    end
  else Ok (VStr payloadStr).

(** [InjectBlock.Execute].  [None] is a panic: the call of [Debug] on a nil
    logger. *)
Definition InjectBlock_Execute (ctx : BlockExecutionContext.t)
    (properties : gmap string Value) (w : World)
    : option (result (list (option ptr)) * World) :=
  let payloadStr := as_string (properties !! "payload") in
  let topic := as_string (properties !! "topic") in
  let payloadType := as_string (properties !! "payloadType") in
  let payloadType := if String.eqb payloadType "" then "number" else payloadType in
  match InjectBlock_payload payloadType payloadStr with
  | Err e => Some (Err e, w)
  | Ok payload =>
      let '(outputMsg, w1) := NewMessage payload w in
      let w2 := update_message outputMsg
                  (with_Topic_Source topic (BlockExecutionContext.NodeID ctx)) w1 in
      match BlockExecutionContext.Logger ctx with
      | None => None
      | Some LoggerAdapter =>
          Some (Ok [Some outputMsg],
                logf DEBUG "Inject block executed"
                  [("payload", payload); ("payload_type", VStr payloadType);
                   ("topic", VStr topic)] w2)
      end
  end.

Definition InjectBlock : Block :=
  {| GetType := "inject";
     GetName := "Inject";
     GetDescription := "Manually trigger the flow with a configurable payload";
     GetCategory := "input";
     GetBlockGroup := InputGroup;
     GetInputs := 0;
     GetOutputs := 1;
     GetProperties := InjectBlock_GetProperties;
     Validate := InjectBlock_Validate;
     Execute := InjectBlock_Execute |}.

Definition InjectBlockFactory : BlockFactory.t :=
  BlockFactory.mk InjectBlock
    (BlockInfo.mk "inject" "Inject"
       "Manually trigger the flow with configurable payload" "input"
       InputGroup (GetInputs InjectBlock) (GetOutputs InjectBlock)
       "1.0.0" "Block-Flow" "play-circle" "#4CAF50").

End Builtin.

(* ================================================================== *)
(** ** internal/engine: the flow executor *)

Module time.
Definition Nanosecond : Z := 1.
Definition Millisecond : Z := 1000000.
Definition Second : Z := 1000 * Millisecond.
End time.

(** A channel: its buffer (oldest first), its capacity, and whether it was
    closed.  A [chan struct{}] only ever uses [closed]. *)
Record Chan : Type := {
  buf : list (option ptr);
  cap : nat;
  closed : bool
}.

Module RuntimeNode.
Record t : Type := mk {
  ID : string;
  Type_ : string;
  Name : string;
  Block_ : Block;                  (* the field [Block] *)
  Properties : gmap string Value;
  InputChan : ptr;
  OutputChan : ptr;
  OutputConnections : list string;
  StopChan : ptr;
  WaitGroup : ptr                  (* &runtimeFlow.WaitGroup: the owning flow *)
}.
End RuntimeNode.

Module RuntimeFlow.
Record t : Type := mk {
  ID : string;
  Name : string;
  Nodes : gmap string RuntimeNode.t;
  Connections : list Connection.t;
  StopChan : ptr;
  WaitGroup : Z;                   (* the counter of the sync.WaitGroup *)
  Running : bool
}.

Definition set_Running (b : bool) (rf : t) : t :=
  mk (ID rf) (Name rf) (Nodes rf) (Connections rf) (StopChan rf) (WaitGroup rf) b.

Definition add_WaitGroup (delta : Z) (rf : t) : t :=
  mk (ID rf) (Name rf) (Nodes rf) (Connections rf) (StopChan rf)
     (WaitGroup rf + delta) (Running rf).
End RuntimeFlow.

(** Where a goroutine running [runNode] stands: just spawned, or inside one
    of the three loops.  The input loop carries the period its ticker was
    made with. *)
Inductive Phase : Type :=
| Spawned
| InputLoop (ticker : Z)
| PropagationLoop
| ActionLoop.

(** A goroutine [go fe.runNode(node, runtimeFlow)]. *)
Record Worker : Type := {
  wk_node : RuntimeNode.t;
  wk_flow : ptr;
  wk_phase : Phase
}.

(** The state of the process: the world of messages, the channels, the
    [RuntimeFlow] objects, the live goroutines, and the executor's map
    [fe.flows] from flow id to [*RuntimeFlow]. *)
Record State : Type := {
  world : World;
  chans : list Chan;
  rflows : list RuntimeFlow.t;
  goroutines : list Worker;
  flows : gmap string ptr
}.

Definition set_world (w : World) (s : State) : State :=
  {| world := w; chans := chans s; rflows := rflows s;
     goroutines := goroutines s; flows := flows s |}.

Definition set_chans (cs : list Chan) (s : State) : State :=
  {| world := world s; chans := cs; rflows := rflows s;
     goroutines := goroutines s; flows := flows s |}.

Definition set_rflows (rs : list RuntimeFlow.t) (s : State) : State :=
  {| world := world s; chans := chans s; rflows := rs;
     goroutines := goroutines s; flows := flows s |}.

Definition set_goroutines (gs : list Worker) (s : State) : State :=
  {| world := world s; chans := chans s; rflows := rflows s;
     goroutines := gs; flows := flows s |}.

Definition set_flows (fs : gmap string ptr) (s : State) : State :=
  {| world := world s; chans := chans s; rflows := rflows s;
     goroutines := goroutines s; flows := fs |}.

Definition slog (lv : Level) (msg : string) (fs : list (string * Value))
    (s : State) : State :=
  set_world (logf lv msg fs (world s)) s.

(** [make(chan T, capacity)] *)
Definition make_chan (capacity : nat) (s : State) : ptr * State :=
  (length (chans s),
   set_chans (chans s ++ [ {| buf := []; cap := capacity; closed := false |} ]) s).

(** What an operation that returns only [error] does: return nil, return
    an error, or panic. *)
Inductive outcome : Type :=
| Nil
| Error (e : string)
| Panic (e : string).

Module FlowExecutor.

(** executor.go: NewFlowExecutor, in a process with the world [w] that has
    made no channel yet: the executor's map is empty, and there is no runtime
    flow and no goroutine. *)
Definition NewFlowExecutor (w : World) : State :=
  {| world := w; chans := []; rflows := []; goroutines := []; flows := ∅ |}.

(** The first loop of [ValidateFlow]: every node's block type is registered. *)
Fixpoint check_block_types (registry : Registry.t) (nodes : list Node.t)
    : option string :=
  match nodes with
  | [] => None
  | node :: rest =>
      match Registry.GetBlockInfoByType registry (Node.Type_ node) with
      | Err _ =>
          Some ("unknown block type '" +:+ Node.Type_ node +:+ "' in node '"
                +:+ Node.ID node +:+ "'")
      | Ok _ => check_block_types registry rest
      end
  end.

(** [nodeMap[node.ID] = &node] for each node in turn (each iteration has its
    own [node] variable, as from Go 1.22 on): a later node with the same id
    replaces an earlier one. *)
Definition build_nodeMap (nodes : list Node.t) : gmap string Node.t :=
  foldl (fun nodeMap node => <[Node.ID node := node]> nodeMap) ∅ nodes.

(** The loop of [ValidateFlow] over the connections. *)
Fixpoint check_wiring (nodeMap : gmap string Node.t) (conns : list Connection.t)
    : option string :=
  match conns with
  | [] => None
  | conn :: rest =>
      match nodeMap !! Connection.Source conn with
      | None =>
          Some ("connection references non-existent source node '"
                +:+ Connection.Source conn +:+ "'")
      | Some sourceNode =>
          match nodeMap !! Connection.Target conn with
          | None =>
              Some ("connection references non-existent target node '"
                    +:+ Connection.Target conn +:+ "'")
          | Some targetNode =>
              if (Connection.SourcePort conn >=? Node.Outputs sourceNode)%Z then
                Some ("connection references invalid source port "
                      +:+ pretty (Connection.SourcePort conn) +:+ " (node '"
                      +:+ Connection.Source conn +:+ "' has "
                      +:+ pretty (Node.Outputs sourceNode) +:+ " outputs)")
              else if (Connection.TargetPort conn >=? Node.Inputs targetNode)%Z then
                Some ("connection references invalid target port "
                      +:+ pretty (Connection.TargetPort conn) +:+ " (node '"
                      +:+ Connection.Target conn +:+ "' has "
                      +:+ pretty (Node.Inputs targetNode) +:+ " inputs)")
              else check_wiring nodeMap rest
          end
      end
  end.

(** executor.go: ValidateFlow.  [None] is the nil error; the argument is
    [None] for a nil [*models.Flow]. *)
Definition ValidateFlow (registry : Registry.t) (flow : option Flow.t)
    : option string :=
  match flow with
  | None => Some "flow is nil"
  | Some flow =>
      if bool_decide (length (Flow.Nodes flow) = 0%nat) then
        Some "flow must contain at least one block"
      else
        match check_block_types registry (Flow.Nodes flow) with
        | Some e => Some e
        | None =>
            check_wiring (build_nodeMap (Flow.Nodes flow)) (Flow.Connections flow)
        end
  end.

(** The inner loop of [PrepareFlow]: the targets of the connections that
    leave [nodeID], in declaration order. *)
Fixpoint output_connections (nodeID : string) (conns : list Connection.t)
    : list string :=
  match conns with
  | [] => []
  | conn :: rest =>
      if String.eqb (Connection.Source conn) nodeID
      then Connection.Target conn :: output_connections nodeID rest
      else output_connections nodeID rest
  end.

(** The loop of [PrepareFlow] over the nodes: [nodes] is [runtimeFlow.Nodes]
    as built so far, [self] the address of the runtime flow. *)
Fixpoint create_runtime_nodes (registry : Registry.t) (self : ptr)
    (conns : list Connection.t) (todo : list Node.t)
    (nodes : gmap string RuntimeNode.t) (s : State)
    : result (gmap string RuntimeNode.t) * State :=
  match todo with
  | [] => (Ok nodes, s)
  | node :: rest =>
      match Registry.CreateBlock registry (Node.Type_ node) with
      | Err e =>
          (Err ("failed to create block for node '" +:+ Node.ID node +:+ "': " +:+ e), s)
      | Ok block =>
          match Registry.GetBlockInfoByType registry (Node.Type_ node) with
          | Err e =>
              (Err ("failed to get block info for node '" +:+ Node.ID node
                    +:+ "': " +:+ e), s)
          | Ok blockInfo =>
              let '(input, s1) := make_chan 100 s in
              let '(output, s2) := make_chan 100 s1 in
              let '(stop, s3) := make_chan 0 s2 in
              let runtimeNode :=
                RuntimeNode.mk (Node.ID node) (Node.Type_ node) (Node.Name node)
                  block (Node.Properties node) input output
                  (output_connections (Node.ID node) conns) stop self in
              let s4 :=
                slog DEBUG "Created runtime node"
                  [("node_id", VStr (Node.ID node));
                   ("node_type", VStr (Node.Type_ node));
                   ("block_group", VStr (BlockInfo.BlockGroup_ blockInfo));
                   ("connections",
                    VInt (Z.of_nat (length (RuntimeNode.OutputConnections runtimeNode))))]
                  s3 in
              create_runtime_nodes registry self conns rest
                (<[Node.ID node := runtimeNode]> nodes) s4
          end
      end
  end.

(** executor.go: PrepareFlow.  Returns the address of the new
    [RuntimeFlow]. *)
Definition PrepareFlow (registry : Registry.t) (flow : option Flow.t) (s : State)
    : result ptr * State :=
  match ValidateFlow registry flow with
  | Some e => (Err ("flow validation failed: " +:+ e), s)
  | None =>
      match flow with
      | None => (Err "flow validation failed: flow is nil", s)
      | Some flow =>
          let self := length (rflows s) in
          let '(stop, s1) := make_chan 0 s in
          match create_runtime_nodes registry self (Flow.Connections flow)
                  (Flow.Nodes flow) ∅ s1 with
          | (Err e, s2) => (Err e, s2)
          | (Ok nodes, s2) =>
              let runtimeFlow :=
                RuntimeFlow.mk (Flow.ID flow) (Flow.Name flow) nodes
                  (Flow.Connections flow) stop 0 false in
              (Ok self, set_rflows (rflows s2 ++ [runtimeFlow]) s2)
          end
      end
  end.

(** The goroutines [StartFlow] spawns, one per runtime node. *)
Definition spawn (self : ptr) (node : RuntimeNode.t) : Worker :=
  {| wk_node := node; wk_flow := self; wk_phase := Spawned |}.

(** executor.go: StartFlow *)
Definition StartFlow (flowID : string) (s : State) : outcome * State :=
  match flows s !! flowID with
  | None => (Error ("flow '" +:+ flowID +:+ "' is not prepared for execution"), s)
  | Some self =>
      match rflows s !! self with
      | None => (Panic "invalid memory address or nil pointer dereference", s)
      | Some runtimeFlow =>
          if RuntimeFlow.Running runtimeFlow then
            (Error ("flow '" +:+ flowID +:+ "' is already running"), s)
          else
            let nodes := (map_to_list (RuntimeFlow.Nodes runtimeFlow)).*2 in
            let started :=
              RuntimeFlow.add_WaitGroup (Z.of_nat (length nodes))
                (RuntimeFlow.set_Running true runtimeFlow) in
            let s1 := set_rflows (<[self := started]> (rflows s)) s in
            let s2 := set_goroutines (goroutines s1 ++ (spawn self <$> nodes)) s1 in
            (Nil,
             slog INFO "Flow started"
               [("flow_id", VStr flowID);
                ("flow_name", VStr (RuntimeFlow.Name runtimeFlow));
                ("nodes", VInt (Z.of_nat (length nodes)))] s2)
      end
  end.

(** [close(c)]: [None] is the panic on a channel that is already closed. *)
Definition close_chan (c : ptr) (s : State) : option State :=
  match chans s !! c with
  | None => None
  | Some ch =>
      if closed ch then None
      else Some (set_chans
                   (<[c := {| buf := buf ch; cap := cap ch; closed := true |}]> (chans s)) s)
  end.

Definition is_closed (c : ptr) (s : State) : bool :=
  match chans s !! c with
  | Some ch => closed ch
  | None => false
  end.

(** The block info [runNode] picks for its node: the first entry of the
    registry's list, replaced by the entry of the node's type when there is
    one.  [None] is the index-out-of-range panic on an empty registry. *)
Definition runNode_blockInfo (registry : Registry.t) (node : RuntimeNode.t)
    : option BlockInfo.t :=
  match Registry.GetBlockInfo registry with
  | [] => None
  | first :: _ as infos =>
      Some (default first
              (List.find (fun info => String.eqb (BlockInfo.Type_ info)
                                        (RuntimeNode.Type_ node)) infos))
  end.

(** The [switch blockInfo.BlockGroup] of [runNode]; the input loop starts
    with [time.NewTicker(1 * time.Second)]. *)
Definition loop_of (group : BlockGroup) : option Phase :=
  if String.eqb group InputGroup then Some (InputLoop (1 * time.Second))
  else if String.eqb group PropagationGroup then Some PropagationLoop
  else if String.eqb group ActionGroup then Some ActionLoop
  else None.

(** The end of [runNode]: the "Node finished" entry, then the deferred
    [node.WaitGroup.Done()]. *)
Definition finish (node : RuntimeNode.t) (s : State) : State :=
  let s1 := slog DEBUG "Node finished" [("node_id", VStr (RuntimeNode.ID node))] s in
  set_rflows (alter (RuntimeFlow.add_WaitGroup (-1)) (RuntimeNode.WaitGroup node)
                (rflows s1)) s1.

(** The head of [runNode], up to the switch. *)
Definition runNode_enter (registry : Registry.t) (node : RuntimeNode.t) (s : State)
    : option (option Phase * State) :=
  match runNode_blockInfo registry node with
  | None => None
  | Some blockInfo =>
      Some (loop_of (BlockInfo.BlockGroup_ blockInfo),
            slog DEBUG "Starting node"
              [("node_id", VStr (RuntimeNode.ID node));
               ("node_type", VStr (RuntimeNode.Type_ node));
               ("block_group", VStr (BlockInfo.BlockGroup_ blockInfo))] s)
  end.

(** A goroutine runs until it returns, taking the stop case of its select as
    soon as it reaches it. *)
Definition run_to_exit (registry : Registry.t) (wk : Worker) (s : State)
    : option State :=
  match wk_phase wk with
  | Spawned =>
      match runNode_enter registry (wk_node wk) s with
      | None => None
      | Some (_, s1) => Some (finish (wk_node wk) s1)
      end
  | _ => Some (finish (wk_node wk) s)
  end.

Fixpoint run_all_to_exit (registry : Registry.t) (wks : list Worker) (s : State)
    : option State :=
  match wks with
  | [] => Some s
  | wk :: rest =>
      match run_to_exit registry wk s with
      | None => None
      | Some s1 => run_all_to_exit registry rest s1
      end
  end.

(** [runtimeFlow.WaitGroup.Wait()] after the stop channel was closed: the
    goroutines of the flow at [self] each reach their select, take the stop
    case and return; the wait ends when the last one is gone. *)
Definition wait_for_workers (registry : Registry.t) (self : ptr) (s : State)
    : option State :=
  let mine := filter (fun wk => wk_flow wk = self) (goroutines s) in
  let others := filter (fun wk => wk_flow wk <> self) (goroutines s) in
  match run_all_to_exit registry mine s with
  | None => None
  | Some s1 => Some (set_goroutines others s1)
  end.

(** executor.go: StopFlow *)
Definition StopFlow (registry : Registry.t) (flowID : string) (s : State)
    : outcome * State :=
  match flows s !! flowID with
  | None => (Error ("flow '" +:+ flowID +:+ "' is not running"), s)
  | Some self =>
      match rflows s !! self with
      | None => (Panic "invalid memory address or nil pointer dereference", s)
      | Some runtimeFlow =>
          if negb (RuntimeFlow.Running runtimeFlow) then
            (Error ("flow '" +:+ flowID +:+ "' is not running"), s)
          else
            match close_chan (RuntimeFlow.StopChan runtimeFlow) s with
            | None => (Panic "close of closed channel", s)
            | Some s1 =>
                match wait_for_workers registry self s1 with
                | None => (Panic "index out of range", s1)
                | Some s2 =>
                    let s3 := set_rflows
                                (alter (RuntimeFlow.set_Running false) self (rflows s2)) s2 in
                    (Nil, slog INFO "Flow stopped" [("flow_id", VStr flowID)] s3)
                end
            end
      end
  end.

(** executor.go: GetFlowStatus *)
Definition GetFlowStatus (flowID : string) (s : State) : result bool :=
  match flows s !! flowID with
  | None => Err ("flow '" +:+ flowID +:+ "' not found")
  | Some self =>
      match rflows s !! self with
      | None => Err "invalid memory address or nil pointer dereference"
      | Some runtimeFlow => Ok (RuntimeFlow.Running runtimeFlow)
      end
  end.

(** The body of the loop of [distributeMessage] for one target id.  [None]
    is a panic: [Clone] on a nil message, a send on a closed channel. *)
Definition deliver (sourceNode : RuntimeNode.t) (msg : option ptr)
    (flow : RuntimeFlow.t) (targetNodeID : string) (s : State) : option State :=
  match RuntimeFlow.Nodes flow !! targetNodeID with
  | None =>
      Some (slog ERROR "Target node not found"
              [("source_node", VStr (RuntimeNode.ID sourceNode));
               ("target_node", VStr targetNodeID)] s)
  | Some targetNode =>
      match msg with
      | None => None
      | Some m =>
          match Clone m (world s) with
          | None => None
          | Some (clonedMsg, w1) =>
              let s1 := set_world w1 s in
              match chans s1 !! RuntimeNode.InputChan targetNode with
              | None => None
              | Some ch =>
                  if closed ch then None
                  else if (length (buf ch) <? cap ch)%nat then
                    let sent := {| buf := buf ch ++ [Some clonedMsg];
                                   cap := cap ch; closed := false |} in
                    let s2 := set_chans
                                (<[RuntimeNode.InputChan targetNode := sent]> (chans s1)) s1 in
                    Some (slog DEBUG "Message sent"
                            [("from", VStr (RuntimeNode.ID sourceNode));
                             ("to", VStr targetNodeID);
                             ("payload",
                              default VNil
                                (Message.Payload <$> messages w1 !! clonedMsg))] s2)
                  else
                    Some (slog WARN "Target node input channel full, dropping message"
                            [("source_node", VStr (RuntimeNode.ID sourceNode));
                             ("target_node", VStr targetNodeID)] s1)
              end
          end
      end
  end.

Fixpoint deliver_each (sourceNode : RuntimeNode.t) (msg : option ptr)
    (flow : RuntimeFlow.t) (targets : list string) (s : State) : option State :=
  match targets with
  | [] => Some s
  | targetNodeID :: rest =>
      match deliver sourceNode msg flow targetNodeID s with
      | None => None
      | Some s1 => deliver_each sourceNode msg flow rest s1
      end
  end.

(** executor.go: distributeMessage *)
Definition distributeMessage (sourceNode : RuntimeNode.t) (msg : option ptr)
    (flow : RuntimeFlow.t) (s : State) : option State :=
  deliver_each sourceNode msg flow (RuntimeNode.OutputConnections sourceNode) s.

(** [for _, msg := range messages { fe.distributeMessage(node, msg, flow) }] *)
Fixpoint distribute_all (node : RuntimeNode.t) (messages : list (option ptr))
    (flow : RuntimeFlow.t) (s : State) : option State :=
  match messages with
  | [] => Some s
  | msg :: rest =>
      match distributeMessage node msg flow s with
      | None => None
      | Some s1 => distribute_all node rest flow s1
      end
  end.

(** The context the three loops build: only [NodeID], [Logger] and
    [Message] are set, the other fields keep their zero values. *)
Definition worker_context (node : RuntimeNode.t) (msg : option ptr)
    : BlockExecutionContext.t :=
  {| BlockExecutionContext.Context := None;
     BlockExecutionContext.NodeID := RuntimeNode.ID node;
     BlockExecutionContext.FlowID := "";
     BlockExecutionContext.Message := msg;
     BlockExecutionContext.Logger := Some LoggerAdapter;
     BlockExecutionContext.State := None;
     BlockExecutionContext.Debug := false;
     BlockExecutionContext.Timestamp := 0 |}.

(** runInputNode: the [case <-ticker.C] of the select *)
Definition runInputNode_tick (node : RuntimeNode.t) (flow : RuntimeFlow.t)
    (s : State) : option State :=
  let ctx := worker_context node None in
  match Execute (RuntimeNode.Block_ node) ctx (RuntimeNode.Properties node) (world s) with
  | None => None
  | Some (Err err, w1) =>
      Some (slog ERROR "Error executing input node"
              [("node_id", VStr (RuntimeNode.ID node)); ("error", VStr err)]
              (set_world w1 s))
  | Some (Ok messages, w1) => distribute_all node messages flow (set_world w1 s)
  end.

(** runPropagationNode: the [case msg := <-node.InputChan] of the select *)
Definition runPropagationNode_recv (node : RuntimeNode.t) (flow : RuntimeFlow.t)
    (msg : option ptr) (s : State) : option State :=
  let ctx := worker_context node msg in
  match Execute (RuntimeNode.Block_ node) ctx (RuntimeNode.Properties node) (world s) with
  | None => None
  | Some (Err err, w1) =>
      Some (slog ERROR "Error executing propagation node"
              [("node_id", VStr (RuntimeNode.ID node)); ("error", VStr err)]
              (set_world w1 s))
  | Some (Ok messages, w1) => distribute_all node messages flow (set_world w1 s)
  end.

(** runActionNode: the [case msg := <-node.InputChan] of the select *)
Definition runActionNode_recv (node : RuntimeNode.t) (flow : RuntimeFlow.t)
    (msg : option ptr) (s : State) : option State :=
  let ctx := worker_context node msg in
  match Execute (RuntimeNode.Block_ node) ctx (RuntimeNode.Properties node) (world s) with
  | None => None
  | Some (Err err, w1) =>
      Some (slog ERROR "Error executing action node"
              [("node_id", VStr (RuntimeNode.ID node)); ("error", VStr err)]
              (set_world w1 s))
  | Some (Ok _, w1) => Some (set_world w1 s)
  end.

(** [<-c] on a buffered channel that holds a value *)
Definition recv (c : ptr) (s : State) : option (option ptr * State) :=
  match chans s !! c with
  | Some ch =>
      match buf ch with
      | msg :: rest =>
          Some (msg, set_chans (<[c := {| buf := rest; cap := cap ch;
                                          closed := closed ch |}]> (chans s)) s)
      | [] => None
      end
  | None => None
  end.

Definition set_phase (ph : Phase) (wk : Worker) : Worker :=
  {| wk_node := wk_node wk; wk_flow := wk_flow wk; wk_phase := ph |}.

Definition in_loop (ph : Phase) : bool :=
  match ph with Spawned => false | _ => true end.

(** One step of one goroutine: entering [runNode], or one case of the
    select of its loop.  A select with several ready cases may take any. *)
Inductive step (registry : Registry.t) : State -> State -> Prop :=
| step_enter i wk ph s1 s :
    goroutines s !! i = Some wk ->
    wk_phase wk = Spawned ->
    runNode_enter registry (wk_node wk) s = Some (Some ph, s1) ->
    step registry s (set_goroutines (<[i := set_phase ph wk]> (goroutines s1)) s1)
| step_no_loop i wk s1 s :
    goroutines s !! i = Some wk ->
    wk_phase wk = Spawned ->
    runNode_enter registry (wk_node wk) s = Some (None, s1) ->
    step registry s
      (set_goroutines (delete i (goroutines s)) (finish (wk_node wk) s1))
| step_flow_stop i wk flow s :
    goroutines s !! i = Some wk ->
    in_loop (wk_phase wk) = true ->
    rflows s !! wk_flow wk = Some flow ->
    is_closed (RuntimeFlow.StopChan flow) s = true ->
    step registry s
      (set_goroutines (delete i (goroutines s)) (finish (wk_node wk) s))
| step_node_stop i wk s :
    goroutines s !! i = Some wk ->
    in_loop (wk_phase wk) = true ->
    is_closed (RuntimeNode.StopChan (wk_node wk)) s = true ->
    step registry s
      (set_goroutines (delete i (goroutines s)) (finish (wk_node wk) s))
| step_tick i wk period flow s s1 :
    goroutines s !! i = Some wk ->
    wk_phase wk = InputLoop period ->
    rflows s !! wk_flow wk = Some flow ->
    runInputNode_tick (wk_node wk) flow s = Some s1 ->
    step registry s s1
| step_propagate i wk flow msg s s1 s2 :
    goroutines s !! i = Some wk ->
    wk_phase wk = PropagationLoop ->
    rflows s !! wk_flow wk = Some flow ->
    recv (RuntimeNode.InputChan (wk_node wk)) s = Some (msg, s1) ->
    runPropagationNode_recv (wk_node wk) flow msg s1 = Some s2 ->
    step registry s s2
| step_act i wk flow msg s s1 s2 :
    goroutines s !! i = Some wk ->
    wk_phase wk = ActionLoop ->
    rflows s !! wk_flow wk = Some flow ->
    recv (RuntimeNode.InputChan (wk_node wk)) s = Some (msg, s1) ->
    runActionNode_recv (wk_node wk) flow msg s1 = Some s2 ->
    step registry s s2.

(** executor.go: PrepareAndStartFlow *)
Definition PrepareAndStartFlow (registry : Registry.t) (flow : option Flow.t)
    (s : State) : outcome * State :=
  match PrepareFlow registry flow s with
  | (Err err, s1) => (Error ("failed to prepare flow: " +:+ err), s1)
  | (Ok runtimeFlow, s1) =>
      match flow with
      | None => (Panic "invalid memory address or nil pointer dereference", s1)
      | Some f =>
          StartFlow (Flow.ID f)
            (set_flows (<[Flow.ID f := runtimeFlow]> (flows s1)) s1)
      end
  end.

End FlowExecutor.

(* ================================================================== *)
(** ** internal/engine: the engine over storage *)

Module Engine.

(** The one method of [storage.Storage] the operations below call. *)
Record Storage : Type := {
  LoadFlow : string -> result Flow.t
}.

(** The engine: its storage and the registry it shares with its executor
    ([New] fills the registry with the built-in blocks; the operations below
    work with any registry).  The executor's own state is part of [State]. *)
Record t : Type := mk {
  storage : Storage;
  registry : Registry.t
}.

(** engine.go: (e *Engine) StartFlow *)
Definition StartFlow (e : t) (flowID : string) (s : State) : outcome * State :=
  match LoadFlow (storage e) flowID with
  | Err err => (Error ("failed to load flow: " +:+ err), s)
  | Ok flow =>
      match Flow.Validate flow with
      | Some err => (Error ("flow validation failed: " +:+ err), s)
      | None => FlowExecutor.PrepareAndStartFlow (registry e) (Some flow) s
      end
  end.

(** engine.go: (e *Engine) StopFlow *)
Definition StopFlow (e : t) (flowID : string) (s : State) : outcome * State :=
  FlowExecutor.StopFlow (registry e) flowID s.

(** engine.go: (e *Engine) TriggerFlow *)
Definition TriggerFlow (e : t) (flowID : string) (input : option ptr) (s : State)
    : outcome * State :=
  StartFlow e flowID s.

(** engine.go: (e *Engine) GetFlowStatus, the map with the keys "running"
    and "flow_id" as a pair *)
Definition GetFlowStatus (e : t) (flowID : string) (s : State)
    : result (bool * string) :=
  match FlowExecutor.GetFlowStatus flowID s with
  | Err err => Err err
  | Ok running => Ok (running, flowID)
  end.

(** The loop of [LoadAndStartFlows] over the loaded flows. *)
Fixpoint start_active (e : t) (loaded : list Flow.t) (s : State) : outcome * State :=
  match loaded with
  | [] => (Nil, s)
  | flow :: rest =>
      if Flow.Active flow then
        match StartFlow e (Flow.ID flow) s with
        | (Nil, s1) => start_active e rest s1
        | (Error err, s1) =>
            start_active e rest
              (slog ERROR "Failed to start flow"
                 [("flow_id", VStr (Flow.ID flow)); ("error", VStr err)] s1)
        | (Panic p, s1) => (Panic p, s1)
        end
      else start_active e rest s
  end.

(** engine.go: (e *Engine) LoadAndStartFlows.  [all] is what
    [e.storage.LoadAllFlows(ctx)] returned; the file storage appends only
    flows it could read, so the list holds no nil pointer. *)
Definition LoadAndStartFlows (e : t) (all : result (list Flow.t)) (s : State)
    : outcome * State :=
  match all with
  | Err err => (Error ("failed to load flows: " +:+ err), s)
  | Ok loaded => start_active e loaded s
  end.

(** engine.go: (e *Engine) Shutdown *)
Definition Shutdown (e : t) (s : State) : State :=
  slog INFO "Engine shutting down" [] s.

End Engine.

(* ================================================================== *)
(** ** Notions the statements below use *)

(** The node a connection end names: the node declared with that id (the
    last one, should an id be declared more than once). *)
Definition declared_node (flow : Flow.t) (id : string) : option Node.t :=
  last (filter (fun node => Node.ID node = id) (Flow.Nodes flow)).

(** What makes [check_wiring] reject one connection. *)
Definition miswired (nodeMap : gmap string Node.t) (conn : Connection.t) : Prop :=
  nodeMap !! Connection.Source conn = None \/
  nodeMap !! Connection.Target conn = None \/
  (exists sourceNode, nodeMap !! Connection.Source conn = Some sourceNode /\
     (Connection.SourcePort conn >= Node.Outputs sourceNode)%Z) \/
  (exists targetNode, nodeMap !! Connection.Target conn = Some targetNode /\
     (Connection.TargetPort conn >= Node.Inputs targetNode)%Z).

(** The conditions under which a flow definition is to be rejected: no
    nodes, a node of an unregistered block type, or a connection with an end
    that names no node of the flow or a port index at or above the declared
    port count of the node it names. *)
Definition ill_formed (registry : Registry.t) (flow : Flow.t) : Prop :=
  Flow.Nodes flow = [] \/
  (exists node, node ∈ Flow.Nodes flow /\
     Registry.blocks registry !! Node.Type_ node = None) \/
  (exists conn, conn ∈ Flow.Connections flow /\
     ((forall node, node ∈ Flow.Nodes flow -> Node.ID node <> Connection.Source conn) \/
      (forall node, node ∈ Flow.Nodes flow -> Node.ID node <> Connection.Target conn) \/
      (exists sourceNode,
         declared_node flow (Connection.Source conn) = Some sourceNode /\
         (Connection.SourcePort conn >= Node.Outputs sourceNode)%Z) \/
      (exists targetNode,
         declared_node flow (Connection.Target conn) = Some targetNode /\
         (Connection.TargetPort conn >= Node.Inputs targetNode)%Z))).

(* ================================================================== *)
(** ** A small installation, for the statements about concrete runs *)

Module Sample.

(** A stand-in for [strconv.ParseFloat] that reads unsigned decimal
    integers. *)
Fixpoint digits_value (acc : Z) (s : string) : option Z :=
  match s with
  | EmptyString => Some acc
  | String c rest =>
      let n := N_of_ascii c in
      if (48 <=? n)%N && (n <=? 57)%N
      then digits_value (acc * 10 + Z.of_N (n - 48)) rest
      else None
  end.

Definition ParseFloat (s : string) : result Value :=
  match s, digits_value 0 s with
  | String _ _, Some z => Ok (VInt z)
  | _, _ => Err ("strconv.ParseFloat: parsing " +:+ dquote +:+ s +:+ dquote
                 +:+ ": invalid syntax")
  end.

(** A random source that returns sixteen copies of the draw's number, and a
    clock that advances by one nanosecond per reading. *)
Definition env0 : Env :=
  {| rand_Read := fun i => RandBytes (replicate 16 (default x00 (Byte.of_nat (i mod 256))));
     time_Now := fun i => (1700000000000000000 + Z.of_nat i)%Z |}.

Definition world0 : World :=
  {| env := env0; draws := 0; ticks := 0; messages := []; header_maps := [];
     context_maps := []; log := [] |}.

Definition state0 : State :=
  {| world := world0; chans := []; rflows := []; goroutines := []; flows := ∅ |}.

(** An Action block of a plugin that records the payloads it receives. *)
Definition RecorderBlock : Block :=
  {| GetType := "recorder";
     GetName := "Recorder";
     GetDescription := "Record received payloads";
     GetCategory := "output";
     GetBlockGroup := ActionGroup;
     GetInputs := 1;
     GetOutputs := 0;
     GetProperties := [];
     Validate := fun _ => None;
     Execute := fun ctx _ w =>
       match BlockExecutionContext.Message ctx with
       | None => Some (Err "no input message", w)
       | Some m =>
           Some (Ok [],
                 logf INFO "recorded"
                   [("payload", default VNil (Message.Payload <$> messages w !! m))] w)
       end |}.

Definition RecorderBlockFactory : BlockFactory.t :=
  BlockFactory.mk RecorderBlock
    (BlockInfo.mk "recorder" "Recorder" "Record received payloads" "output"
       ActionGroup 1 0 "1.0.0" "" "" "").

(** An Input block written after the plugin guide: it logs the node and flow
    identifiers of its context and whether a cancellation context and a
    state store came with it. *)
Definition ProbeBlock : Block :=
  {| GetType := "probe";
     GetName := "Probe";
     GetDescription := "Log the execution context";
     GetCategory := "input";
     GetBlockGroup := InputGroup;
     GetInputs := 0;
     GetOutputs := 1;
     GetProperties := [];
     Validate := fun _ => None;
     Execute := fun ctx _ w =>
       Some (Ok [],
             logf INFO "Starting block execution"
               [("node_id", VStr (BlockExecutionContext.NodeID ctx));
                ("flow_id", VStr (BlockExecutionContext.FlowID ctx));
                ("has_context", VBool (bool_decide (is_Some (BlockExecutionContext.Context ctx))));
                ("has_message", VBool (bool_decide (is_Some (BlockExecutionContext.Message ctx))));
                ("has_state", VBool (bool_decide (is_Some (BlockExecutionContext.State ctx))))]
               w) |}.

Definition ProbeBlockFactory : BlockFactory.t :=
  BlockFactory.mk ProbeBlock
    (BlockInfo.mk "probe" "Probe" "Log the execution context" "input"
       InputGroup 0 1 "1.0.0" "" "" "").

(** An Input block written after the state example of the plugin guide: it
    counts its invocations in the state store of its context. *)
Definition CounterBlock : Block :=
  {| GetType := "counter";
     GetName := "Counter";
     GetDescription := "Count invocations";
     GetCategory := "input";
     GetBlockGroup := InputGroup;
     GetInputs := 0;
     GetOutputs := 1;
     GetProperties := [];
     Validate := fun _ => None;
     Execute := fun ctx _ w =>
       let counter :=
         match GetState ctx "counter" w with
         | (VInt n, _) => n
         | _ => 0%Z
         end in
       match SetState ctx "counter" (VInt (counter + 1)) w with
       | None => None
       | Some w1 => Some (Ok [], w1)
       end |}.

Definition CounterBlockFactory : BlockFactory.t :=
  BlockFactory.mk CounterBlock
    (BlockInfo.mk "counter" "Counter" "Count invocations" "input"
       InputGroup 0 1 "1.0.0" "" "" "").

Definition registry : Registry.t :=
  Registry.Register CounterBlockFactory
    (Registry.Register ProbeBlockFactory
       (Registry.Register RecorderBlockFactory
          (Registry.Register (InjectBlockFactory ParseFloat) Registry.NewRegistry))).

Definition inject_node (id : string) (interval : Z) : Node.t :=
  Node.mk id "inject" "Inject"
    (<["payload" := VStr "5"]> (<["interval" := VInt interval]> ∅)) 0 1 [].

Definition recorder_node (id : string) : Node.t :=
  Node.mk id "recorder" "Recorder" ∅ 1 0 [].

Definition wire (id source : string) (sourcePort : Z) (target : string)
    (targetPort : Z) : Connection.t :=
  Connection.mk id source sourcePort target targetPort "".

Definition flow_of (id : string) (nodes : list Node.t) (conns : list Connection.t)
    : Flow.t :=
  Flow.mk id id "" nodes conns ∅ 0 0 "1.0.0" true.

(** An inject node with a five-second interval wired to a recorder. *)
Definition flow1 : Flow.t :=
  flow_of "f1" [inject_node "n1" 5000; recorder_node "n2"]
    [wire "c1" "n1" 0 "n2" 0].

(** The same nodes, wired through port -1 on both ends. *)
Definition flow_negative : Flow.t :=
  flow_of "f2" [inject_node "n1" 5000; recorder_node "n2"]
    [wire "c1" "n1" (-1) "n2" (-1)].

(** A probe and a counter, not wired. *)
Definition flow_probe : Flow.t :=
  flow_of "f3"
    [Node.mk "p1" "probe" "Probe" ∅ 0 1 []; Node.mk "k1" "counter" "Counter" ∅ 0 1 []]
    [].

Definition storage : Engine.Storage :=
  {| Engine.LoadFlow := fun flowID =>
       if String.eqb flowID "f1" then Ok flow1
       else if String.eqb flowID "f2" then Ok flow_negative
       else if String.eqb flowID "f3" then Ok flow_probe
       else Err ("storage error [" +:+ flowID +:+ "]: flow not found") |}.

Definition engine : Engine.t := Engine.mk storage registry.

End Sample.

(** [rn] is the Runtime Node of the definition node [node] in the runtime
    flow at [self]: same id, type, name and properties, a block made by the
    registry for the node's type, and as targets those of the connections
    that leave the node, in declaration order. *)
Definition runtime_node_of (registry : Registry.t) (self : ptr)
    (conns : list Connection.t) (node : Node.t) (rn : RuntimeNode.t) : Prop :=
  RuntimeNode.ID rn = Node.ID node /\
  RuntimeNode.Type_ rn = Node.Type_ node /\
  RuntimeNode.Name rn = Node.Name node /\
  RuntimeNode.Properties rn = Node.Properties node /\
  Registry.CreateBlock registry (Node.Type_ node) = Ok (RuntimeNode.Block_ rn) /\
  RuntimeNode.OutputConnections rn =
    FlowExecutor.output_connections (Node.ID node) conns /\
  RuntimeNode.WaitGroup rn = self.

(** A channel as [make] returns it. *)
Definition fresh_chan (capacity : nat) : Chan :=
  {| buf := []; cap := capacity; closed := false |}.

(** [c] is the input channel of a node that [sourceNode] forwards to. *)
Definition target_chan (sourceNode : RuntimeNode.t) (flow : RuntimeFlow.t)
    (c : ptr) : Prop :=
  exists t tn, t ∈ RuntimeNode.OutputConnections sourceNode /\
    RuntimeFlow.Nodes flow !! t = Some tn /\ RuntimeNode.InputChan tn = c.

(** [q] points, in [w'], to a message allocated after [w] that carries the
    payload of [m]. *)
Definition clone_of (w w' : World) (m : Message.t) (q : option ptr) : Prop :=
  exists p m', q = Some p /\ messages w !! p = None /\
    messages w' !! p = Some m' /\ Message.Payload m' = Message.Payload m.

(** The entry [distributeMessage] logs when it drops a message. *)
Definition drop_warning (sourceNode : RuntimeNode.t) (targetNodeID : string)
    : LogEntry :=
  {| level := WARN;
     text := "Target node input channel full, dropping message";
     fields := [("source_node", VStr (RuntimeNode.ID sourceNode));
                ("target_node", VStr targetNodeID)] |}.

(** How fan-out of (clones of) [m] may change a state: the flows, the
    goroutines and the executor's map stay, messages are only added, every
    channel keeps its capacity and what it held and gets only clones of [m]
    at its tail, none when it was full and never more than its capacity
    allows, and the log grows by entries that are errors only for a target
    that does not exist. *)
Definition fanned_out (m : Message.t) (s s' : State) : Prop :=
  rflows s' = rflows s /\ goroutines s' = goroutines s /\ flows s' = flows s /\
  messages (world s) `prefix_of` messages (world s') /\
  length (chans s') = length (chans s) /\
  (forall c ch, chans s !! c = Some ch ->
     exists added,
       chans s' !! c = Some {| buf := buf ch ++ added; cap := cap ch; closed := closed ch |} /\
       (cap ch <= length (buf ch) -> added = [])%nat /\
       (length (buf ch) <= cap ch -> length (buf ch ++ added) <= cap ch)%nat /\
       Forall (clone_of (world s) (world s') m) added) /\
  (exists new, log (world s') = log (world s) ++ new /\
     Forall (fun e => level e = ERROR -> text e = "Target node not found") new).

(** Some message with the payload [v] waits in some channel. *)
Definition payload_in_graph (v : Value) (s : State) : Prop :=
  exists c ch p m, chans s !! c = Some ch /\ Some p ∈ buf ch /\
    messages (world s) !! p = Some m /\ Message.Payload m = v.

(** [Trigger] hands the payload of its input message to the graph. *)
Definition trigger_delivers (e : Engine.t) (flowID : string) (input : ptr)
    (s : State) : Prop :=
  forall m, messages (world s) !! input = Some m ->
    payload_in_graph (Message.Payload m) (Engine.TriggerFlow e flowID (Some input) s).2.

Module Run.
Import Sample.

(** [flow1] started once through the engine. *)
Definition started : State := (Engine.StartFlow engine "f1" state0).2.

(** ... and started a second time while it runs. *)
Definition started_twice : State := (Engine.StartFlow engine "f1" started).2.

(** ... then stopped. *)
Definition started_twice_stopped : State :=
  (Engine.StopFlow engine "f1" started_twice).2.

(** [flow1] started, stopped, and started again by [FlowExecutor.StartFlow]. *)
Definition stopped : State := (FlowExecutor.StopFlow registry "f1" started).2.
Definition restarted : State := (FlowExecutor.StartFlow "f1" stopped).2.

(** A state that holds one message with payload "hello", made by
    [NewMessage] at address 0. *)
Definition with_hello : State :=
  set_world (NewMessage (VStr "hello") world0).2 state0.

Definition triggered : State :=
  (Engine.TriggerFlow engine "f1" (Some 0%nat) with_hello).2.

(** [flow1] started, stopped, and started again through the engine. *)
Definition restarted_by_engine : State := (Engine.StartFlow engine "f1" stopped).2.

(** [flow_probe] started through the engine. *)
Definition probing : State := (Engine.StartFlow engine "f3" state0).2.

(** The goroutine at position [i] takes the ticker case of its select. *)
Definition tick (i : nat) (s : State) : option State :=
  match goroutines s !! i with
  | Some wk =>
      match rflows s !! wk_flow wk with
      | Some flow => FlowExecutor.runInputNode_tick (wk_node wk) flow s
      | None => None
      end
  | None => None
  end.

(** The goroutine at position [i] enters [runNode]: the loop it takes. *)
Definition enter (i : nat) (s : State) : option (option Phase) :=
  match goroutines s !! i with
  | Some wk => fst <$> FlowExecutor.runNode_enter registry (wk_node wk) s
  | None => None
  end.

(** The worker of the inject node "n1" of the started [flow1] (goroutine 0)
    ticks [n] times while the recorder never runs. *)
Definition ticked (n : nat) : State :=
  Nat.iter n (fun s => default s (tick 0 s)) started.

(** A flow of one inject node with the given [interval] property, started. *)
Definition inject_started (interval : Z) : State :=
  (FlowExecutor.PrepareAndStartFlow registry
     (Some (flow_of "f1" [inject_node "n1" interval] [])) state0).2.
End Run.

Module Fanout.
Import Sample.

(** A source node wired to "a", "b" and to an id that names no node; the
    queue of "a" (channel 0) is full, the queue of "b" (channel 1) is empty,
    and channel 2 belongs to a node that is no target. *)
Definition target (id : string) (input : ptr) : RuntimeNode.t :=
  RuntimeNode.mk id "recorder" "Recorder" RecorderBlock ∅ input 9 [] 9 0.

Definition source : RuntimeNode.t :=
  RuntimeNode.mk "src" "inject" "Inject" (InjectBlock ParseFloat) ∅ 8 9
    ["a"; "b"; "gone"] 9 0.

Definition flow : RuntimeFlow.t :=
  RuntimeFlow.mk "f" "f"
    (<["a" := target "a" 0]> (<["b" := target "b" 1]> (<["c" := target "c" 2]> ∅)))
    [] 3 3 true.

Definition state : State :=
  {| world := (NewMessage (VInt 5) world0).2;
     chans := [ {| buf := replicate 100 (Some 0%nat); cap := 100; closed := false |};
                fresh_chan 100; fresh_chan 100; fresh_chan 0 ];
     rflows := [flow]; goroutines := []; flows := {["f" := 0%nat]} |}.
End Fanout.

(* ================================================================== *)
(** ** Notions for the properties of flow editing *)

(** [nodeIDs[k]] reads as true in the map [Validate] fills. *)
Definition marked (nodeIDs : gmap string bool) (k : string) : Prop :=
  default false (nodeIDs !! k) = true.

(** The ids of the nodes of a flow, in declaration order. *)
Definition node_ids (f : Flow.t) : list string := Node.ID <$> Flow.Nodes f.

(** Neither end of the connection names [nodeID]. *)
Definition avoids (nodeID : string) (conn : Connection.t) : Prop :=
  Connection.Source conn <> nodeID /\ Connection.Target conn <> nodeID.

(* ================================================================== *)
(** ** Notions for the properties of the registry *)

(** Every factory is filed under the type its own metadata names, as
    [Register] files it. *)
Definition well_keyed (r : Registry.t) : Prop :=
  forall k factory, Registry.blocks r !! k = Some factory ->
    BlockInfo.Type_ (BlockFactory.GetBlockInfo factory) = k.

(* ================================================================== *)
(** ** Notions for the properties of a running installation *)

(** The states an installation passes through: the executor as
    [NewFlowExecutor] leaves it, then any sequence of calls of the engine's
    operations ([TriggerFlow] is [StartFlow]) and of steps of the node
    workers. *)
Inductive reachable (e : Engine.t) : State -> Prop :=
| reach_new w : reachable e (FlowExecutor.NewFlowExecutor w)
| reach_StartFlow flowID s :
    reachable e s -> reachable e (Engine.StartFlow e flowID s).2
| reach_StopFlow flowID s :
    reachable e s -> reachable e (Engine.StopFlow e flowID s).2
| reach_LoadAndStartFlows all s :
    reachable e s -> reachable e (Engine.LoadAndStartFlows e all s).2
| reach_Shutdown s :
    reachable e s -> reachable e (Engine.Shutdown e s)
| reach_step s s' :
    reachable e s -> FlowExecutor.step (Engine.registry e) s s' -> reachable e s'.

(** The live workers of the runtime flow at address [a]. *)
Definition workers_of (a : ptr) (s : State) : list Worker :=
  filter (fun wk => wk_flow wk = a) (goroutines s).

(** What [PrepareFlow] establishes for the runtime node [rn] it files under
    [id] in the runtime flow [rf] at address [a]. *)
Definition node_ok (registry : Registry.t) (s : State) (a : ptr)
    (rf : RuntimeFlow.t) (id : string) (rn : RuntimeNode.t) : Prop :=
  RuntimeNode.ID rn = id /\
  RuntimeNode.WaitGroup rn = a /\
  is_Some (Registry.blocks registry !! RuntimeNode.Type_ rn) /\
  (RuntimeNode.InputChan rn < length (chans s))%nat /\
  (RuntimeNode.StopChan rn < length (chans s))%nat /\
  (forall a' rf', rflows s !! a' = Some rf' ->
     RuntimeFlow.StopChan rf' <> RuntimeNode.InputChan rn /\
     RuntimeFlow.StopChan rf' <> RuntimeNode.StopChan rn) /\
  (forall t, t ∈ RuntimeNode.OutputConnections rn ->
     is_Some (RuntimeFlow.Nodes rf !! t)).

(** How the objects of a state hang together: the executor's map points to
    runtime flows that exist; the stop channel of every runtime flow exists
    and belongs to that flow alone; every runtime node is as [PrepareFlow]
    made it; every worker runs a node of the runtime flow it was started for;
    and every channel holds at most its capacity, holds no nil message, and
    is closed only if it is the stop channel of a runtime flow. *)
Record wired (registry : Registry.t) (s : State) : Prop := {
  wired_flows : forall id a, flows s !! id = Some a -> is_Some (rflows s !! a);
  wired_stop : forall a rf, rflows s !! a = Some rf ->
    (RuntimeFlow.StopChan rf < length (chans s))%nat;
  wired_stop_inj : forall a a' rf rf',
    rflows s !! a = Some rf -> rflows s !! a' = Some rf' ->
    RuntimeFlow.StopChan rf = RuntimeFlow.StopChan rf' -> a = a';
  wired_nodes : forall a rf id rn,
    rflows s !! a = Some rf -> RuntimeFlow.Nodes rf !! id = Some rn ->
    node_ok registry s a rf id rn;
  wired_workers : forall wk, wk ∈ goroutines s ->
    exists rf, rflows s !! wk_flow wk = Some rf /\
      RuntimeFlow.Nodes rf !! RuntimeNode.ID (wk_node wk) = Some (wk_node wk);
  wired_chans : forall c ch, chans s !! c = Some ch ->
    (length (buf ch) <= cap ch)%nat /\
    Forall is_Some (buf ch) /\
    (closed ch = true ->
     exists a rf, rflows s !! a = Some rf /\ RuntimeFlow.StopChan rf = c)
}.

(** The bookkeeping of every runtime flow: its wait-group counter is the
    number of its live workers; while it is marked running its stop channel
    is open; and once it is not running it has no worker left. *)
Record accounted (s : State) : Prop := {
  acc_count : forall a rf, rflows s !! a = Some rf ->
    RuntimeFlow.WaitGroup rf = Z.of_nat (length (workers_of a s));
  acc_running : forall a rf, rflows s !! a = Some rf ->
    RuntimeFlow.Running rf = true ->
    FlowExecutor.is_closed (RuntimeFlow.StopChan rf) s = false;
  acc_idle : forall a rf, rflows s !! a = Some rf ->
    RuntimeFlow.Running rf = false -> RuntimeFlow.WaitGroup rf = 0%Z
}.

(** [s'] has the runtime flows of [s], up to their counters and running
    marks. *)
Definition shape_kept (s s' : State) : Prop :=
  length (rflows s') = length (rflows s) /\
  forall a rf', rflows s' !! a = Some rf' ->
    exists rf, rflows s !! a = Some rf /\
      RuntimeFlow.Nodes rf' = RuntimeFlow.Nodes rf /\
      RuntimeFlow.StopChan rf' = RuntimeFlow.StopChan rf.

(** [s'] has the channels of [s], whose buffers may have changed within
    their bounds; a channel that was closed on the way is the stop channel of
    a runtime flow. *)
Definition chans_kept (s s' : State) : Prop :=
  length (chans s') = length (chans s) /\
  forall c ch', chans s' !! c = Some ch' ->
    exists ch, chans s !! c = Some ch /\
      ((length (buf ch) <= cap ch)%nat -> (length (buf ch') <= cap ch')%nat) /\
      (Forall is_Some (buf ch) -> Forall is_Some (buf ch')) /\
      (closed ch' = true ->
       closed ch = true \/
       exists a rf, rflows s !! a = Some rf /\ RuntimeFlow.StopChan rf = c).

(** What the loop of [PrepareFlow] establishes for a runtime node it makes:
    its channels are among those made between channel counts [lo] and [hi]. *)
Definition made_by (registry : Registry.t) (self : ptr)
    (conns : list Connection.t) (lo hi : nat) (id : string)
    (rn : RuntimeNode.t) : Prop :=
  RuntimeNode.ID rn = id /\
  RuntimeNode.WaitGroup rn = self /\
  is_Some (Registry.blocks registry !! RuntimeNode.Type_ rn) /\
  RuntimeNode.OutputConnections rn = FlowExecutor.output_connections id conns /\
  (lo <= RuntimeNode.InputChan rn < hi)%nat /\
  (lo <= RuntimeNode.OutputChan rn < hi)%nat /\
  (lo <= RuntimeNode.StopChan rn < hi)%nat.

(** The message pointers a block returned are all non-nil and point to
    messages of the world [w]. *)
Definition all_live (w : World) (msgs : list (option ptr)) : Prop :=
  Forall (fun m => exists p, m = Some p /\ is_Some (messages w !! p)) msgs.

(** [s'] differs from [s] at most in the world and in what the channels
    hold: every channel keeps its capacity and its closed mark, stays within
    its capacity if it was, and holds no nil message if it held none. *)
Definition only_buffers_changed (s s' : State) : Prop :=
  rflows s' = rflows s /\ goroutines s' = goroutines s /\ flows s' = flows s /\
  length (chans s') = length (chans s) /\
  forall c ch, chans s !! c = Some ch ->
    exists ch', chans s' !! c = Some ch' /\
      cap ch' = cap ch /\ closed ch' = closed ch /\
      ((length (buf ch) <= cap ch)%nat -> (length (buf ch') <= cap ch')%nat) /\
      (Forall is_Some (buf ch) -> Forall is_Some (buf ch')).

(* ================================================================== *)
(** ** A state for one turn of an Action worker *)

Module Turn.
Import Sample.

(** The recorder "a" of the fan-out sample as the only worker, in its
    loop, with one message pointer waiting in its input channel. *)
Definition state : State :=
  {| world := (NewMessage (VInt 5) world0).2;
     chans := [ {| buf := [Some 0%nat]; cap := 100; closed := false |} ];
     rflows := [Fanout.flow];
     goroutines := [ {| wk_node := Fanout.target "a" 0; wk_flow := 0;
                        wk_phase := ActionLoop |} ];
     flows := {["f" := 0%nat]} |}.

(** The state after the worker took the message. *)
Definition received : State :=
  set_chans [ {| buf := []; cap := 100; closed := false |} ] state.
End Turn.

(* ================================================================== *)
(** ** A flow built with the constructors *)

(** A client of [internal/models]: a new flow, two new nodes added to it,
    and a wire from output 0 of the first to input 0 of the second. *)
Definition two_node_flow (name type1 name1 type2 name2 connID : string)
    (w : World) : Flow.t :=
  let '(flow, w0) := NewFlow name w in
  let '(node1, w1) := NewNode type1 name1 w0 in
  let '(node2, w2) := NewNode type2 name2 w1 in
  let '(flow1, w3) := Flow.AddNode node1 flow w2 in
  let '(flow2, w4) := Flow.AddNode node2 flow1 w3 in
  (Flow.AddConnection
     (Connection.mk connID (Node.ID node1) 0 (Node.ID node2) 0 "") flow2 w4).1.

(* ================================================================== *)
(** ** Proof steps used more than once *)

(** Splits a conjunction into its parts, and nothing else. *)
Ltac split_ands := repeat match goal with |- _ /\ _ => split end.

(** Settles a decidable closed proposition by running its decision
    procedure. *)
Ltac by_decision :=
  match goal with |- ?P => apply (bool_decide_unpack P); vm_compute; exact I end.
(* ================================================================== *)
(** * Properties *)

(** ** Messages *)

Lemma hex_decode_pair (v : byte) :
  hex.DecodeString (hex.EncodeToString [v]) = Some [v].
Proof. destruct v; reflexivity. Qed.

Lemma hex_DecodeString_cons (v : byte) (rest : list byte) :
  hex.DecodeString (hex.EncodeToString (v :: rest)) =
  match hex.DecodeString (hex.EncodeToString rest) with
  | Some bs => Some (v :: bs)
  | None => None
  end.
Proof.
  pose proof (hex_decode_pair v) as H. cbn [hex.EncodeToString hex.DecodeString] in *.
  destruct (hex.undigit _) as [h|]; [|discriminate H].
  destruct (hex.undigit _) as [l|]; [|discriminate H].
  destruct (hex.DecodeString (hex.EncodeToString rest)) as [bs|].
  - destruct (Byte.of_N (h * 16 + l)) as [b|]; [|discriminate H].
    by injection H as ->.
  - done.
Qed.

Lemma hex_DecodeString_EncodeToString (bs : list byte) :
  hex.DecodeString (hex.EncodeToString bs) = Some bs.
Proof.
  induction bs as [|v rest IH]; [done|].
  by rewrite hex_DecodeString_cons, IH.
Qed.

Lemma hex_EncodeToString_inj (bs1 bs2 : list byte) :
  hex.EncodeToString bs1 = hex.EncodeToString bs2 -> bs1 = bs2.
Proof.
  intros H. apply (f_equal hex.DecodeString) in H.
  rewrite !hex_DecodeString_EncodeToString in H. congruence.
Qed.

(** A timestamp-based fallback identifier is never a hex string. *)
Lemma hex_EncodeToString_not_fallback (bs : list byte) (s : string) :
  hex.EncodeToString bs <> "id_" +:+ s.
Proof.
  intros H. apply (f_equal hex.DecodeString) in H.
  rewrite hex_DecodeString_EncodeToString in H. discriminate H.
Qed.

Lemma generateID_frame (w : World) :
  env (generateID w).2 = env w /\
  messages (generateID w).2 = messages w /\
  header_maps (generateID w).2 = header_maps w /\
  context_maps (generateID w).2 = context_maps w /\
  log (generateID w).2 = log w.
Proof. unfold generateID, Read, Now. by destruct (rand_Read _ _). Qed.

Lemma generateID_id (w : World) :
  (generateID w).1 =
  match rand_Read (env w) (draws w) with
  | RandBytes bs => hex.EncodeToString bs
  | RandErr => "id_" +:+ pretty (time_Now (env w) (ticks w))
  end.
Proof. unfold generateID, Read, Now. by destruct (rand_Read _ _). Qed.

(** What [Clone] builds, field by field and store by store. *)
Lemma Clone_unfold (w : World) (p : ptr) (m : Message.t) :
  messages w !! p = Some m ->
  exists w' m',
    Clone p w = Some (length (messages w), w') /\
    messages w' = messages w ++ [m'] /\
    Message.ID m' = (generateID w).1 /\
    Message.Payload m' = Message.Payload m /\
    Message.Topic m' = Message.Topic m /\
    Message.Source m' = Message.Source m /\
    Message.Target m' = Message.Target m /\
    ((Message.Headers m = None /\ Message.Headers m' = None /\
      header_maps w' = header_maps w) \/
     (exists l, Message.Headers m = Some l /\
        Message.Headers m' = Some (length (header_maps w)) /\
        header_maps w' = header_maps w ++ [default ∅ (header_maps w !! l)])) /\
    ((Message.Context m = None /\ Message.Context m' = None /\
      context_maps w' = context_maps w) \/
     (exists l, Message.Context m = Some l /\
        Message.Context m' = Some (length (context_maps w)) /\
        context_maps w' = context_maps w ++ [default ∅ (context_maps w !! l)])).
Proof.
  intros Hp. unfold Clone. rewrite Hp.
  destruct (generateID_frame w) as (_ & Hm & Hh & Hc & _).
  destruct (generateID w) as [id w1]. cbn [fst snd] in *.
  unfold Now, copy_header_map, copy_context_map, new_message,
    new_header_map, new_context_map.
  destruct (Message.Headers m) as [lh|], (Message.Context m) as [lc|];
    cbn; rewrite ?Hm, ?Hh, ?Hc;
    eexists _, _; (split; [reflexivity|]); cbn;
    repeat (split; [reflexivity|]); split; eauto 10.
Qed.

Lemma same_maps_intro (w1 w2 : World) (q : ptr) (mq : Message.t) :
  messages w1 !! q = Some mq ->
  messages w2 !! q = Some mq ->
  (forall l, Message.Headers mq = Some l -> header_maps w1 !! l = header_maps w2 !! l) ->
  (forall l, Message.Context mq = Some l -> context_maps w1 !! l = context_maps w2 !! l) ->
  same_maps q w1 w2.
Proof.
  intros H1 H2 Hh Hc. split; intros k.
  - unfold GetHeader. rewrite H1, H2.
    destruct (Message.Headers mq) as [l|]; [|done]. by rewrite (Hh l).
  - unfold GetContext. rewrite H1, H2.
    destruct (Message.Context mq) as [l|]; [|done]. by rewrite (Hc l).
Qed.

(** Writing a header through [p] leaves every message [q] alone whose maps
    are allocated and whose header map is not [p]'s. *)
Lemma SetHeader_frame (w : World) (p q : ptr) (m mq : Message.t) (k v : string) :
  messages w !! p = Some m ->
  messages w !! q = Some mq ->
  p <> q ->
  (forall l, Message.Headers mq = Some l ->
     (l < length (header_maps w))%nat /\ Message.Headers m <> Some l) ->
  exists w2, SetHeader p k v w = Some w2 /\ same_maps q w2 w.
Proof.
  intros Hp Hq Hne Hl. unfold SetHeader. rewrite Hp.
  destruct (Message.Headers m) as [l|] eqn:Hm.
  - eexists; split; [reflexivity|].
    apply (same_maps_intro _ _ q mq); cbn; try done.
    intros l' Hl'. destruct (Hl l' Hl') as [_ Hd].
    apply list_lookup_alter_ne. congruence.
  - eexists; split; [reflexivity|].
    apply (same_maps_intro _ _ q mq); cbn; try done.
    + by rewrite list_lookup_insert_ne.
    + intros l' Hl'. destruct (Hl l' Hl') as [Hlt _].
      rewrite list_lookup_alter_ne by lia. by rewrite lookup_app_l.
Qed.

Lemma SetContext_frame (w : World) (p q : ptr) (m mq : Message.t)
    (k : string) (v : Value) :
  messages w !! p = Some m ->
  messages w !! q = Some mq ->
  p <> q ->
  (forall l, Message.Context mq = Some l ->
     (l < length (context_maps w))%nat /\ Message.Context m <> Some l) ->
  exists w2, SetContext p k v w = Some w2 /\ same_maps q w2 w.
Proof.
  intros Hp Hq Hne Hl. unfold SetContext. rewrite Hp.
  destruct (Message.Context m) as [l|] eqn:Hm.
  - eexists; split; [reflexivity|].
    apply (same_maps_intro _ _ q mq); cbn; try done.
    intros l' Hl'. destruct (Hl l' Hl') as [_ Hd].
    apply list_lookup_alter_ne. congruence.
  - eexists; split; [reflexivity|].
    apply (same_maps_intro _ _ q mq); cbn; try done.
    + by rewrite list_lookup_insert_ne.
    + intros l' Hl'. destruct (Hl l' Hl') as [Hlt _].
      rewrite list_lookup_alter_ne by lia. by rewrite lookup_app_l.
Qed.

Lemma Clone_new_ID (w : World) (m : Message.t) :
  issued w (Message.ID m) -> fresh_draw w ->
  (generateID w).1 <> Message.ID m.
Proof.
  intros (i & bs & Hi & Hr & ->) Hfresh. rewrite generateID_id.
  destruct (rand_Read (env w) (draws w)) as [bs'|] eqn:Hd.
  - intros Heq%hex_EncodeToString_inj. subst bs'.
    apply (Hfresh i Hi). congruence.
  - intros Heq. by eapply hex_EncodeToString_not_fallback.
Qed.

(** C4.  [Clone] of a live message allocates a new message with a newly
    generated identifier and the payload of the original; headers and context
    are copied into newly made maps, so the clone reads the same entries as
    the original, and a later [SetHeader] or [SetContext] on either message
    leaves the headers and context of the other as they were.  The new
    identifier is the next one [generateID] makes; it differs from the
    original's whenever the original's was drawn from the random source and
    the source does not repeat that draw. *)
Theorem Clone_fresh_independent (w : World) (p : ptr) (m : Message.t) :
  messages w !! p = Some m ->
  maps_live w m ->
  exists p' w' m',
    Clone p w = Some (p', w') /\
    (* a new message object, the original left in place *)
    messages w !! p' = None /\
    messages w' !! p' = Some m' /\
    messages w' !! p = Some m /\
    (* new identifier, same payload *)
    Message.ID m' = (generateID w).1 /\
    (issued w (Message.ID m) -> fresh_draw w -> Message.ID m' <> Message.ID m) /\
    Message.Payload m' = Message.Payload m /\
    (* the clone's maps did not exist before *)
    (forall l, Message.Headers m' = Some l -> header_maps w !! l = None) /\
    (forall l, Message.Context m' = Some l -> context_maps w !! l = None) /\
    (* with the entries of the original *)
    (forall k, GetHeader p' k w' = GetHeader p k w) /\
    (forall k, GetContext p' k w' = GetContext p k w) /\
    same_maps p w' w /\
    (* writes through the clone do not reach the original *)
    (forall k v, exists w2, SetHeader p' k v w' = Some w2 /\ same_maps p w2 w') /\
    (forall k v, exists w2, SetContext p' k v w' = Some w2 /\ same_maps p w2 w') /\
    (* and writes through the original do not reach the clone *)
    (forall k v, exists w2, SetHeader p k v w' = Some w2 /\ same_maps p' w2 w') /\
    (forall k v, exists w2, SetContext p k v w' = Some w2 /\ same_maps p' w2 w').
Proof.
  intros Hp [Hlh Hlc].
  destruct (Clone_unfold w p m Hp)
    as (w' & m' & HC & Hms & Hid & Hpay & _ & _ & _ & Hh & Hc).
  pose proof (lookup_lt_Some _ _ _ Hp) as Hlt.
  assert (Hp' : messages w' !! length (messages w) = Some m').
  { rewrite Hms. by apply list_lookup_middle. }
  assert (Hpw' : messages w' !! p = Some m).
  { rewrite Hms. by rewrite lookup_app_l. }
  assert (Hne : length (messages w) <> p) by lia.
  assert (Hhw : forall l, Message.Headers m = Some l ->
            (l < length (header_maps w))%nat /\
            header_maps w' !! l = header_maps w !! l /\
            Message.Headers m' = Some (length (header_maps w)) /\
            header_maps w' !! length (header_maps w) = Some (default ∅ (header_maps w !! l)) /\
            length (header_maps w') = S (length (header_maps w))).
  { intros l Hl. pose proof (lookup_lt_is_Some_1 _ _ (Hlh l Hl)) as Hl1.
    destruct Hh as [(Hn & _)|(l0 & Hl0 & Hm' & Hw')]; [congruence|].
    assert (l0 = l) by congruence; subst l0.
    rewrite Hw'. rewrite lookup_app_l by done.
    rewrite length_app. cbn. repeat split; try done; try lia.
    by apply list_lookup_middle. }
  assert (Hcw : forall l, Message.Context m = Some l ->
            (l < length (context_maps w))%nat /\
            context_maps w' !! l = context_maps w !! l /\
            Message.Context m' = Some (length (context_maps w)) /\
            context_maps w' !! length (context_maps w) = Some (default ∅ (context_maps w !! l)) /\
            length (context_maps w') = S (length (context_maps w))).
  { intros l Hl. pose proof (lookup_lt_is_Some_1 _ _ (Hlc l Hl)) as Hl1.
    destruct Hc as [(Hn & _)|(l0 & Hl0 & Hm' & Hw')]; [congruence|].
    assert (l0 = l) by congruence; subst l0.
    rewrite Hw'. rewrite lookup_app_l by done.
    rewrite length_app. cbn. repeat split; try done; try lia.
    by apply list_lookup_middle. }
  assert (Hhn : Message.Headers m = None -> Message.Headers m' = None).
  { intros Hn. destruct Hh as [(_ & ? & _)|(l0 & ? & _)]; [done|congruence]. }
  assert (Hcn : Message.Context m = None -> Message.Context m' = None).
  { intros Hn. destruct Hc as [(_ & ? & _)|(l0 & ? & _)]; [done|congruence]. }
  exists (length (messages w)), w', m'.
  split; [exact HC|]. split; [by apply lookup_ge_None_2|].
  split; [exact Hp'|]. split; [exact Hpw'|].
  split; [exact Hid|].
  split; [intros Hiss Hfresh; rewrite Hid; by apply Clone_new_ID|].
  split; [exact Hpay|].
  split.
  { intros l Hl. destruct (Message.Headers m) as [l0|] eqn:E.
    - destruct (Hhw l0 eq_refl) as (_ & _ & Hm' & _).
      assert (l = length (header_maps w)) by congruence. subst l.
      by apply lookup_ge_None_2.
    - rewrite (Hhn eq_refl) in Hl. discriminate. }
  split.
  { intros l Hl. destruct (Message.Context m) as [l0|] eqn:E.
    - destruct (Hcw l0 eq_refl) as (_ & _ & Hm' & _).
      assert (l = length (context_maps w)) by congruence. subst l.
      by apply lookup_ge_None_2.
    - rewrite (Hcn eq_refl) in Hl. discriminate. }
  split.
  { intros k. unfold GetHeader. rewrite Hp', Hp.
    destruct (Message.Headers m) as [l0|] eqn:E.
    - destruct (Hhw l0 eq_refl) as (_ & _ & -> & -> & _). done.
    - by rewrite (Hhn eq_refl). }
  split.
  { intros k. unfold GetContext. rewrite Hp', Hp.
    destruct (Message.Context m) as [l0|] eqn:E.
    - destruct (Hcw l0 eq_refl) as (_ & _ & -> & -> & _). done.
    - by rewrite (Hcn eq_refl). }
  split.
  { apply (same_maps_intro _ _ p m); try done.
    - intros l Hl. by destruct (Hhw l Hl) as (_ & -> & _).
    - intros l Hl. by destruct (Hcw l Hl) as (_ & -> & _). }
  split.
  { intros k v. apply (SetHeader_frame w' _ p m' m); try done.
    intros l Hl. destruct (Hhw l Hl) as (Hl1 & _ & -> & _ & Hlen).
    split; [lia|]. intros [= ?]. lia. }
  split.
  { intros k v. apply (SetContext_frame w' _ p m' m); try done.
    intros l Hl. destruct (Hcw l Hl) as (Hl1 & _ & -> & _ & Hlen).
    split; [lia|]. intros [= ?]. lia. }
  split.
  { intros k v. apply (SetHeader_frame w' _ _ m m'); try done.
    intros l Hl. destruct (Message.Headers m) as [l0|] eqn:E.
    - destruct (Hhw l0 eq_refl) as (Hl1 & _ & Hm' & _ & Hlen).
      assert (l = length (header_maps w)) by congruence. subst l.
      split; [lia|]. intros [= ?]. lia.
    - rewrite (Hhn eq_refl) in Hl. discriminate. }
  { intros k v. apply (SetContext_frame w' _ _ m m'); try done.
    intros l Hl. destruct (Message.Context m) as [l0|] eqn:E.
    - destruct (Hcw l0 eq_refl) as (Hl1 & _ & Hm' & _ & Hlen).
      assert (l = length (context_maps w)) by congruence. subst l.
      split; [lia|]. intros [= ?]. lia.
    - rewrite (Hcn eq_refl) in Hl. discriminate. }
Qed.

(** ** Validation *)

Lemma GetBlockInfoByType_Err (registry : Registry.t) (ty : string) :
  is_Ok (Registry.GetBlockInfoByType registry ty) = false <->
  Registry.blocks registry !! ty = None.
Proof.
  unfold Registry.GetBlockInfoByType.
  destruct (Registry.blocks registry !! ty); cbn; split; congruence.
Qed.

Lemma check_block_types_Some (registry : Registry.t) (nodes : list Node.t) :
  is_Some (FlowExecutor.check_block_types registry nodes) <->
  exists node, node ∈ nodes /\ Registry.blocks registry !! Node.Type_ node = None.
Proof.
  induction nodes as [|node rest IH]; cbn.
  - split; [intros [? [=]]|]. intros (n & Hn & _). by apply elem_of_nil in Hn.
  - unfold Registry.GetBlockInfoByType.
    destruct (Registry.blocks registry !! Node.Type_ node) as [factory|] eqn:E.
    + rewrite IH. split.
      * intros (n & Hn & Hb). exists n. split; [by apply elem_of_cons; right|done].
      * intros (n & Hn & Hb). apply elem_of_cons in Hn as [->|Hn]; [congruence|].
        by exists n.
    + split; [|by eauto]. intros _. exists node. split; [apply elem_of_cons; by left|done].
Qed.

Lemma foldl_nodeMap_lookup (nodes : list Node.t) (acc : gmap string Node.t) (id : string) :
  foldl (fun nodeMap node => <[Node.ID node := node]> nodeMap) acc nodes !! id =
  match last (filter (fun node => Node.ID node = id) nodes) with
  | Some node => Some node
  | None => acc !! id
  end.
Proof.
  revert acc. induction nodes as [|node rest IH]; intros acc; [done|].
  cbn [foldl]. rewrite IH. rewrite filter_cons. case_decide as Hid.
  - rewrite last_cons. destruct (last (filter _ rest)); [done|].
    subst id. by rewrite lookup_insert_eq.
  - destruct (last _); [done|]. by rewrite lookup_insert_ne.
Qed.

Lemma build_nodeMap_lookup (flow : Flow.t) (id : string) :
  FlowExecutor.build_nodeMap (Flow.Nodes flow) !! id = declared_node flow id.
Proof.
  unfold FlowExecutor.build_nodeMap, declared_node.
  rewrite foldl_nodeMap_lookup, lookup_empty. by destruct (last _).
Qed.

Lemma declared_node_None (flow : Flow.t) (id : string) :
  declared_node flow id = None <->
  forall node, node ∈ Flow.Nodes flow -> Node.ID node <> id.
Proof.
  unfold declared_node. rewrite last_None. split.
  - intros Hnil node Hin Hid.
    assert (node ∈ filter (fun node => Node.ID node = id) (Flow.Nodes flow)) as Hf
      by (apply list_elem_of_filter; done).
    rewrite Hnil in Hf. by apply elem_of_nil in Hf.
  - intros Hall. destruct (filter _ _) as [|n l] eqn:E; [done|].
    assert (n ∈ filter (fun node => Node.ID node = id) (Flow.Nodes flow)) as Hf
      by (rewrite E; apply elem_of_cons; by left).
    apply list_elem_of_filter in Hf as [Hid Hin]. by destruct (Hall n Hin).
Qed.

Lemma declared_node_Some (flow : Flow.t) (id : string) (node : Node.t) :
  declared_node flow id = Some node ->
  node ∈ Flow.Nodes flow /\ Node.ID node = id.
Proof.
  unfold declared_node. intros Hl.
  assert (node ∈ filter (fun node => Node.ID node = id) (Flow.Nodes flow)) as Hf.
  { apply last_Some in Hl as [l' ->]. apply elem_of_app. right.
    apply elem_of_cons. by left. }
  apply list_elem_of_filter in Hf as [Hid Hin]. done.
Qed.

Lemma check_wiring_Some (nodeMap : gmap string Node.t) (conns : list Connection.t) :
  is_Some (FlowExecutor.check_wiring nodeMap conns) <->
  exists conn, conn ∈ conns /\ miswired nodeMap conn.
Proof.
  induction conns as [|conn rest IH]; cbn.
  - split; [intros [? [=]]|]. intros (c & Hc & _). by apply elem_of_nil in Hc.
  - destruct (nodeMap !! Connection.Source conn) as [sourceNode|] eqn:Es.
    2:{ split; [|by eauto]. intros _. exists conn.
        split; [apply elem_of_cons; by left|]. by left. }
    destruct (nodeMap !! Connection.Target conn) as [targetNode|] eqn:Et.
    2:{ split; [|by eauto]. intros _. exists conn.
        split; [apply elem_of_cons; by left|]. right; by left. }
    destruct (Connection.SourcePort conn >=? Node.Outputs sourceNode)%Z eqn:Ep.
    { split; [|by eauto]. intros _. exists conn.
      split; [apply elem_of_cons; by left|]. right; right; left.
      exists sourceNode. split; [done|]. apply Z.geb_le in Ep. lia. }
    destruct (Connection.TargetPort conn >=? Node.Inputs targetNode)%Z eqn:Eq.
    { split; [|by eauto]. intros _. exists conn.
      split; [apply elem_of_cons; by left|]. right; right; right.
      exists targetNode. split; [done|]. apply Z.geb_le in Eq. lia. }
    rewrite IH. split.
    + intros (c & Hc & Hm). exists c. split; [apply elem_of_cons; by right|done].
    + intros (c & Hc & Hm). apply elem_of_cons in Hc as [->|Hc]; [|by exists c].
      exfalso. destruct Hm as [Hm|[Hm|[(sn & Hsn & Hge)|(tn & Htn & Hge)]]];
        try congruence.
      * assert (sn = sourceNode) by congruence. subst sn.
        rewrite Z.geb_leb in Ep. apply Z.leb_gt in Ep. lia.
      * assert (tn = targetNode) by congruence. subst tn.
        rewrite Z.geb_leb in Eq. apply Z.leb_gt in Eq. lia.
Qed.

Lemma miswired_nodeMap (flow : Flow.t) (conn : Connection.t) :
  miswired (FlowExecutor.build_nodeMap (Flow.Nodes flow)) conn <->
  (forall node, node ∈ Flow.Nodes flow -> Node.ID node <> Connection.Source conn) \/
  (forall node, node ∈ Flow.Nodes flow -> Node.ID node <> Connection.Target conn) \/
  (exists sourceNode,
     declared_node flow (Connection.Source conn) = Some sourceNode /\
     (Connection.SourcePort conn >= Node.Outputs sourceNode)%Z) \/
  (exists targetNode,
     declared_node flow (Connection.Target conn) = Some targetNode /\
     (Connection.TargetPort conn >= Node.Inputs targetNode)%Z).
Proof.
  unfold miswired. rewrite !build_nodeMap_lookup, !declared_node_None. tauto.
Qed.

(** C2.  [ValidateFlow] returns an error exactly when the flow has no nodes,
    or a node's block type is not in the registry, or a connection names a
    source or target id that no node of the flow has, or a connection's
    source port index is at least the output count declared by its source
    node, or its target port index is at least the input count declared by
    its target node.  In every other case it returns nil. *)
Theorem ValidateFlow_fails_iff (registry : Registry.t) (flow : Flow.t) :
  (is_Some (FlowExecutor.ValidateFlow registry (Some flow)) <->
   ill_formed registry flow) /\
  (FlowExecutor.ValidateFlow registry (Some flow) = None <->
   ~ ill_formed registry flow).
Proof.
  assert (H : is_Some (FlowExecutor.ValidateFlow registry (Some flow)) <->
              ill_formed registry flow).
  { unfold FlowExecutor.ValidateFlow, ill_formed.
    case_bool_decide as Hlen.
    { split; [|by eauto]. intros _. left. by apply nil_length_inv. }
    assert (Hne : Flow.Nodes flow <> []) by (intros E; by rewrite E in Hlen).
    pose proof (check_block_types_Some registry (Flow.Nodes flow)) as Ht.
    destruct (FlowExecutor.check_block_types registry (Flow.Nodes flow)) as [e|].
    { split; [|by eauto]. intros _. right; left. apply Ht. by eauto. }
    rewrite check_wiring_Some. split.
    - intros (conn & Hin & Hm). right; right. exists conn. split; [done|].
      by apply miswired_nodeMap.
    - intros [Hnil|[Hty|(conn & Hin & Hm)]].
      + done.
      + apply Ht in Hty. by destruct Hty as [? [=]].
      + exists conn. split; [done|]. by apply miswired_nodeMap. }
  split; [exact H|].
  rewrite <- H. rewrite <- eq_None_not_Some. done.
Qed.

(** A port index below zero passes both port checks of a node whose
    declared counts are not negative. *)
Lemma negative_port_not_miswired (nodeMap : gmap string Node.t)
    (conn : Connection.t) (sourceNode targetNode : Node.t) :
  nodeMap !! Connection.Source conn = Some sourceNode ->
  nodeMap !! Connection.Target conn = Some targetNode ->
  (Connection.SourcePort conn < 0 <= Node.Outputs sourceNode)%Z ->
  (Connection.TargetPort conn < 0 <= Node.Inputs targetNode)%Z ->
  ~ miswired nodeMap conn.
Proof.
  intros Hs Ht Hps Hpt [H|[H|[(sn & Hsn & Hge)|(tn & Htn & Hge)]]];
    try congruence.
  - assert (sn = sourceNode) by congruence. subst. lia.
  - assert (tn = targetNode) by congruence. subst. lia.
Qed.

(** C10.  There is a flow definition whose nodes all exist with registered
    block types and whose one connection uses port index -1 on both ends,
    and [ValidateFlow] accepts it. *)
Theorem ValidateFlow_accepts_negative_port :
  exists (registry : Registry.t) (flow : Flow.t) (conn : Connection.t),
    Flow.Nodes flow <> [] /\
    (forall node, node ∈ Flow.Nodes flow ->
       is_Some (Registry.blocks registry !! Node.Type_ node)) /\
    conn ∈ Flow.Connections flow /\
    is_Some (declared_node flow (Connection.Source conn)) /\
    is_Some (declared_node flow (Connection.Target conn)) /\
    Connection.SourcePort conn = (-1)%Z /\
    Connection.TargetPort conn = (-1)%Z /\
    FlowExecutor.ValidateFlow registry (Some flow) = None.
Proof.
  exists Sample.registry, Sample.flow_negative,
    (Sample.wire "c1" "n1" (-1) "n2" (-1)).
  split; [done|]. split.
  { apply Forall_forall. by_decision. }
  split; [apply elem_of_cons; by left|].
  split; [by_decision|]. split; [by_decision|].
  split; [done|]. split; [done|]. by vm_compute.
Qed.

(** ** Preparation *)

Lemma make_chan_spec (capacity : nat) (s : State) :
  make_chan capacity s =
  (length (chans s), set_chans (chans s ++ [fresh_chan capacity]) s).
Proof. reflexivity. Qed.

Lemma create_runtime_nodes_ok (registry : Registry.t) (self : ptr)
    (conns : list Connection.t) (todo : list Node.t) :
  forall (acc : gmap string RuntimeNode.t) (s : State),
  Forall (fun node => is_Some (Registry.blocks registry !! Node.Type_ node)) todo ->
  exists nodes s',
    FlowExecutor.create_runtime_nodes registry self conns todo acc s = (Ok nodes, s') /\
    rflows s' = rflows s /\ goroutines s' = goroutines s /\ flows s' = flows s /\
    (exists extra, chans s' = chans s ++ extra) /\
    (forall id, id ∉ (Node.ID <$> todo) -> nodes !! id = acc !! id) /\
    (forall node, node ∈ todo -> is_Some (nodes !! Node.ID node)) /\
    (NoDup (Node.ID <$> todo) ->
     forall node, node ∈ todo ->
       exists rn, nodes !! Node.ID node = Some rn /\
         runtime_node_of registry self conns node rn /\
         chans s !! RuntimeNode.InputChan rn = None /\
         chans s' !! RuntimeNode.InputChan rn = Some (fresh_chan 100)).
Proof.
  induction todo as [|node rest IH]; intros acc s Hreg.
  - exists acc, s. cbn. repeat split; try done.
    + by exists []; rewrite app_nil_r.
    + intros node Hin. by apply elem_of_nil in Hin.
    + intros _ node Hin. by apply elem_of_nil in Hin.
  - apply Forall_cons in Hreg as [[factory Hf] Hrest].
    cbn [FlowExecutor.create_runtime_nodes].
    unfold Registry.CreateBlock, Registry.GetBlockInfoByType. rewrite Hf.
    rewrite !make_chan_spec. cbn [fst snd chans set_chans].
    set (rn := RuntimeNode.mk _ _ _ _ _ _ _ _ _ _).
    set (s4 := slog _ _ _ _).
    destruct (IH (<[Node.ID node := rn]> acc) s4 Hrest)
      as (nodes & s' & Hrun & Hrf & Hg & Hfl & (extra & Hch) & Hout & Hin & Hnd).
    exists nodes, s'. split; [exact Hrun|].
    assert (Hch4 : chans s4 = chans s ++ [fresh_chan 100; fresh_chan 100; fresh_chan 0]).
    { subst s4. cbn. by rewrite <- !app_assoc. }
    split; [by rewrite Hrf|]. split; [by rewrite Hg|]. split; [by rewrite Hfl|].
    split.
    { eexists. rewrite Hch, Hch4, <- app_assoc. reflexivity. }
    split.
    { intros id Hid. rewrite fmap_cons in Hid. apply not_elem_of_cons in Hid as [Hne Hid].
      rewrite (Hout id Hid). by rewrite lookup_insert_ne. }
    split.
    { intros n Hn. apply elem_of_cons in Hn as [->|Hn]; [|by apply Hin].
      destruct (decide (Node.ID node ∈ (Node.ID <$> rest))) as [Hd|Hd].
      - apply list_elem_of_fmap in Hd as (n' & Hid & Hn'). rewrite Hid. by apply Hin.
      - rewrite (Hout _ Hd), lookup_insert_eq. by eauto. }
    intros Hnodup n Hn. rewrite fmap_cons in Hnodup.
    apply NoDup_cons in Hnodup as [Hfresh Hnodup].
    apply elem_of_cons in Hn as [->|Hn].
    + exists rn. rewrite (Hout _ Hfresh), lookup_insert_eq. split; [done|].
      split.
      { subst rn. unfold runtime_node_of, Registry.CreateBlock. rewrite Hf. done. }
      subst rn. cbn [RuntimeNode.InputChan]. split.
      * by apply lookup_ge_None_2.
      * rewrite Hch, Hch4. rewrite lookup_app_l.
        2:{ rewrite length_app. cbn. lia. }
        by rewrite list_lookup_middle.
    + destruct (Hnd Hnodup n Hn) as (rn' & Hl & Hof & Hnone & Hsome).
      exists rn'. split; [done|]. split; [done|]. split; [|done].
      rewrite Hch4 in Hnone. apply lookup_ge_None in Hnone.
      apply lookup_ge_None. rewrite length_app in Hnone. lia.
Qed.

Lemma ValidateFlow_None_registered (registry : Registry.t) (flow : Flow.t) :
  FlowExecutor.ValidateFlow registry (Some flow) = None ->
  Flow.Nodes flow <> [] /\
  Forall (fun node => is_Some (Registry.blocks registry !! Node.Type_ node))
    (Flow.Nodes flow).
Proof.
  unfold FlowExecutor.ValidateFlow. case_bool_decide as Hlen; [done|]. intros Hv.
  split; [intros E; by rewrite E in Hlen|].
  pose proof (check_block_types_Some registry (Flow.Nodes flow)) as Ht.
  destruct (FlowExecutor.check_block_types registry (Flow.Nodes flow)) as [e|];
    [done|].
  apply Forall_forall. intros node Hin.
  destruct (Registry.blocks registry !! Node.Type_ node) eqn:E; [by eauto|].
  exfalso. destruct (proj2 Ht) as [? [=]]. by exists node.
Qed.

(** [PrepareFlow] on a flow that passed validation: the loop over the nodes
    runs to its end, and the runtime flow it filled is stored as a new
    object that is not running. *)
Lemma PrepareFlow_unfold (registry : Registry.t) (flow : Flow.t) (s : State) :
  FlowExecutor.ValidateFlow registry (Some flow) = None ->
  exists nodes s2,
    FlowExecutor.create_runtime_nodes registry (length (rflows s))
      (Flow.Connections flow) (Flow.Nodes flow) ∅
      (set_chans (chans s ++ [fresh_chan 0]) s) = (Ok nodes, s2) /\
    rflows s2 = rflows s /\ goroutines s2 = goroutines s /\ flows s2 = flows s /\
    FlowExecutor.PrepareFlow registry (Some flow) s =
      (Ok (length (rflows s)),
       set_rflows
         (rflows s2 ++
            [RuntimeFlow.mk (Flow.ID flow) (Flow.Name flow) nodes
               (Flow.Connections flow) (length (chans s)) 0 false]) s2).
Proof.
  intros Hv. destruct (ValidateFlow_None_registered _ _ Hv) as [_ Hreg].
  unfold FlowExecutor.PrepareFlow. rewrite Hv, make_chan_spec.
  destruct (create_runtime_nodes_ok registry (length (rflows s))
              (Flow.Connections flow) (Flow.Nodes flow) ∅
              (set_chans (chans s ++ [fresh_chan 0]) s) Hreg)
    as (nodes & s2 & Hrun & Hrf & Hg & Hfl & _).
  exists nodes, s2. rewrite Hrun. done.
Qed.

(** C3.  For a flow definition that [ValidateFlow] accepts and whose node
    ids are pairwise different, [PrepareFlow] returns a runtime flow (the
    registry, which has every node's type, makes every block): a new object
    that is not running, is not yet known to the executor, has no worker, and
    whose node map has exactly the ids of the definition's nodes, each bound
    to the Runtime Node of the definition node with that id. *)
Theorem PrepareFlow_one_node_each (registry : Registry.t) (flow : Flow.t) (s : State) :
  FlowExecutor.ValidateFlow registry (Some flow) = None ->
  NoDup (Node.ID <$> Flow.Nodes flow) ->
  exists self s' rf,
    FlowExecutor.PrepareFlow registry (Some flow) s = (Ok self, s') /\
    rflows s !! self = None /\
    rflows s' !! self = Some rf /\
    RuntimeFlow.Running rf = false /\
    RuntimeFlow.ID rf = Flow.ID flow /\
    flows s' = flows s /\
    goroutines s' = goroutines s /\
    dom (RuntimeFlow.Nodes rf) = list_to_set (Node.ID <$> Flow.Nodes flow) /\
    size (RuntimeFlow.Nodes rf) = length (Flow.Nodes flow) /\
    (forall node, node ∈ Flow.Nodes flow ->
       exists rn, RuntimeFlow.Nodes rf !! Node.ID node = Some rn /\
         runtime_node_of registry self (Flow.Connections flow) node rn).
Proof.
  intros Hv Hnodup. destruct (ValidateFlow_None_registered _ _ Hv) as [_ Hreg].
  destruct (PrepareFlow_unfold registry flow s Hv)
    as (nodes & s2 & Hrun & Hrf & Hg & Hfl & Hprep).
  destruct (create_runtime_nodes_ok registry (length (rflows s))
              (Flow.Connections flow) (Flow.Nodes flow) ∅
              (set_chans (chans s ++ [fresh_chan 0]) s) Hreg)
    as (nodes' & s2' & Hrun' & _ & _ & _ & _ & Hout & Hin & Hnd).
  rewrite Hrun in Hrun'. inversion Hrun'; subst nodes' s2'. clear Hrun'.
  assert (Hdom : dom nodes = list_to_set (Node.ID <$> Flow.Nodes flow)).
  { apply set_eq. intros id. rewrite elem_of_dom, elem_of_list_to_set. split.
    - intros Hs. destruct (decide (id ∈ Node.ID <$> Flow.Nodes flow)); [done|].
      rewrite (Hout id) in Hs by done. rewrite lookup_empty in Hs.
      by destruct Hs.
    - intros (node & -> & Hn)%list_elem_of_fmap. by apply Hin. }
  eexists _, _, _. split; [exact Hprep|]. cbn. rewrite Hrf.
  split; [by apply lookup_ge_None_2|].
  split; [by apply list_lookup_middle|].
  split; [done|]. split; [done|]. split; [exact Hfl|]. split; [exact Hg|].
  split; [exact Hdom|]. split.
  { transitivity (size (dom nodes)); [symmetry; apply size_dom|].
    rewrite Hdom, size_list_to_set by done. by rewrite length_fmap. }
  intros node Hn. destruct (Hnd Hnodup node Hn) as (rn & Hl & Hof & _).
  by exists rn.
Qed.

(** ** Fan-out *)

Lemma Clone_log (w w' : World) (p p' : ptr) :
  Clone p w = Some (p', w') -> log w' = log w.
Proof.
  unfold Clone. destruct (messages w !! p) as [m|]; [|done].
  destruct (generateID_frame w) as (_ & _ & _ & _ & Hl).
  destruct (generateID w) as [id w1]. cbn [snd] in Hl.
  unfold Now, copy_header_map, copy_context_map, new_message,
    new_header_map, new_context_map.
  destruct (Message.Headers m), (Message.Context m); cbn; intros [= <- <-]; done.
Qed.

Lemma Chan_eta (ch : Chan) :
  ch = {| buf := buf ch ++ []; cap := cap ch; closed := closed ch |}.
Proof. destruct ch. cbn. by rewrite app_nil_r. Qed.

Lemma fanned_out_refl (m : Message.t) (s : State) : fanned_out m s s.
Proof.
  repeat split; try done.
  - intros c ch Hc. exists []. split; [by rewrite <- Chan_eta|].
    split; [done|]. split; [by rewrite app_nil_r|done].
  - exists []. by rewrite app_nil_r.
Qed.

(** A step that only adds to the log and leaves everything else. *)
Lemma fanned_out_slog (m : Message.t) (s : State) (lv : Level) (msg : string)
    (fs : list (string * Value)) :
  (lv = ERROR -> msg = "Target node not found") ->
  fanned_out m s (slog lv msg fs s).
Proof.
  intros Hlv. repeat split; try done.
  - intros c ch Hc. exists []. split; [by rewrite <- Chan_eta|].
    split; [done|]. split; [by rewrite app_nil_r|done].
  - eexists. split; [reflexivity|]. by apply Forall_singleton.
Qed.

Lemma clone_of_mono (w0 w1 w2 w3 : World) (m : Message.t) (q : option ptr) :
  messages w0 `prefix_of` messages w1 ->
  messages w2 `prefix_of` messages w3 ->
  clone_of w1 w2 m q -> clone_of w0 w3 m q.
Proof.
  intros [k1 H01] [k2 H23] (p & m' & -> & Hn & Hs & Hp).
  exists p, m'. split; [done|]. split.
  - apply lookup_ge_None. apply lookup_ge_None in Hn.
    rewrite H01, length_app in Hn. lia.
  - split; [|done]. rewrite H23. by apply lookup_app_l_Some.
Qed.

Lemma fanned_out_trans (m : Message.t) (s1 s2 s3 : State) :
  fanned_out m s1 s2 -> fanned_out m s2 s3 -> fanned_out m s1 s3.
Proof.
  intros (Hr1 & Hg1 & Hf1 & Hm1 & Hl1 & Hc1 & (n1 & Hlog1 & Hn1))
         (Hr2 & Hg2 & Hf2 & Hm2 & Hl2 & Hc2 & (n2 & Hlog2 & Hn2)).
  split; [congruence|]. split; [congruence|]. split; [congruence|].
  split; [by etrans|]. split; [congruence|]. split.
  - intros c ch Hc. destruct (Hc1 c ch Hc) as (a1 & Hch1 & Hfull1 & Hb1 & Hcl1).
    destruct (Hc2 c _ Hch1) as (a2 & Hch2 & Hfull2 & Hb2 & Hcl2). cbn in *.
    exists (a1 ++ a2). split; [by rewrite app_assoc|]. split; [|split].
    + intros Hfull. rewrite (Hfull1 Hfull) in *. rewrite app_nil_r in Hfull2.
      by rewrite (Hfull2 Hfull).
    + intros Hle. rewrite app_assoc. by apply Hb2, Hb1.
    + apply Forall_app. split.
      * eapply Forall_impl; [exact Hcl1|]. intros q Hq.
        by apply (clone_of_mono _ (world s1) (world s2) _).
      * eapply Forall_impl; [exact Hcl2|]. intros q Hq.
        by apply (clone_of_mono _ (world s2) (world s3) _).
  - exists (n1 ++ n2). split; [by rewrite Hlog2, Hlog1, app_assoc|].
    by apply Forall_app.
Qed.

(** One turn of the loop of [distributeMessage]. *)
Lemma deliver_spec (sourceNode : RuntimeNode.t) (msg : ptr) (m : Message.t)
    (flow : RuntimeFlow.t) (t : string) (s : State) :
  messages (world s) !! msg = Some m ->
  (forall tn, RuntimeFlow.Nodes flow !! t = Some tn ->
     exists ch, chans s !! RuntimeNode.InputChan tn = Some ch /\ closed ch = false) ->
  exists s',
    FlowExecutor.deliver sourceNode (Some msg) flow t s = Some s' /\
    fanned_out m s s' /\
    (forall c, (forall tn, RuntimeFlow.Nodes flow !! t = Some tn ->
                  RuntimeNode.InputChan tn <> c) ->
       chans s' !! c = chans s !! c) /\
    (forall tn ch, RuntimeFlow.Nodes flow !! t = Some tn ->
       chans s !! RuntimeNode.InputChan tn = Some ch ->
       ((cap ch <= length (buf ch))%nat ->
          chans s' = chans s /\
          log (world s') = log (world s) ++ [drop_warning sourceNode t]) /\
       ((length (buf ch) < cap ch)%nat ->
          exists q, chans s' !! RuntimeNode.InputChan tn =
            Some {| buf := buf ch ++ [q]; cap := cap ch; closed := false |})).
Proof.
  intros Hmsg Hopen. unfold FlowExecutor.deliver.
  destruct (RuntimeFlow.Nodes flow !! t) as [tn|] eqn:Ht.
  2:{ eexists. split; [reflexivity|]. split; [by apply fanned_out_slog|].
      split; [done|]. intros tn ch [=]. }
  destruct (Clone_unfold _ _ _ Hmsg) as (w1 & m' & HC & Hms & _ & Hpay & _).
  pose proof (Clone_log _ _ _ _ HC) as Hlog.
  rewrite HC. cbn [chans set_world].
  destruct (Hopen tn eq_refl) as (ch & Hch & Hcl). rewrite Hch, Hcl.
  assert (Hclone : clone_of (world s) w1 m (Some (length (messages (world s))))).
  { exists (length (messages (world s))), m'. split; [done|].
    split; [by apply lookup_ge_None_2|]. split; [|done].
    rewrite Hms. by apply list_lookup_middle. }
  assert (Hpre : messages (world s) `prefix_of` messages w1)
    by (rewrite Hms; by apply prefix_app_r).
  destruct (length (buf ch) <? cap ch)%nat eqn:Hroom.
  - apply Nat.ltb_lt in Hroom.
    eexists. split; [reflexivity|]. split; [|split].
    + split; [done|]. split; [done|]. split; [done|]. split; [done|].
      split; [cbn; by rewrite length_insert|]. split.
      * intros c ch0 Hc. cbn.
        destruct (decide (c = RuntimeNode.InputChan tn)) as [->|Hne].
        -- assert (ch0 = ch) by congruence. subst ch0.
           exists [Some (length (messages (world s)))].
           rewrite list_lookup_insert_eq by (by eapply lookup_lt_Some).
           rewrite Hcl. split; [done|]. split; [lia|].
           split; [rewrite length_app; cbn; lia|].
           by apply Forall_singleton.
        -- exists []. rewrite list_lookup_insert_ne by done.
           rewrite Hc. split; [by rewrite <- Chan_eta|].
           split; [done|]. split; [by rewrite app_nil_r|done].
      * cbn. rewrite Hlog. eexists. split; [reflexivity|].
        by apply Forall_singleton.
    + intros c Hc. cbn. rewrite list_lookup_insert_ne; [done|]. by apply Hc.
    + intros tn0 ch0 [= <-] Hch0. assert (ch0 = ch) by congruence. subst ch0.
      split; [lia|]. intros _. eexists. cbn.
      by rewrite list_lookup_insert_eq by (by eapply lookup_lt_Some).
  - apply Nat.ltb_ge in Hroom.
    eexists. split; [reflexivity|]. split; [|split].
    + split; [done|]. split; [done|]. split; [done|]. split; [done|].
      split; [done|]. split.
      * intros c ch0 Hc. exists []. cbn. rewrite Hc.
        split; [by rewrite <- Chan_eta|].
        split; [done|]. split; [by rewrite app_nil_r|done].
      * cbn. rewrite Hlog. eexists. split; [reflexivity|].
        by apply Forall_singleton.
    + done.
    + intros tn0 ch0 [= <-] Hch0. assert (ch0 = ch) by congruence. subst ch0.
      split; [|lia]. intros _. cbn. by rewrite Hlog.
Qed.

Lemma fanned_out_lookup (m : Message.t) (s s' : State) (msg : ptr) :
  fanned_out m s s' ->
  messages (world s) !! msg = Some m -> messages (world s') !! msg = Some m.
Proof.
  intros (_ & _ & _ & [k Hk] & _) Hm. rewrite Hk. by apply lookup_app_l_Some.
Qed.

Lemma fanned_out_full (m : Message.t) (s s' : State) (c : ptr) (ch : Chan) :
  fanned_out m s s' -> chans s !! c = Some ch ->
  (cap ch <= length (buf ch))%nat -> chans s' !! c = Some ch.
Proof.
  intros (_ & _ & _ & _ & _ & Hc & _) Hch Hfull.
  destruct (Hc c ch Hch) as (added & Hch' & Hnil & _).
  rewrite (Hnil Hfull) in Hch'. by rewrite <- Chan_eta in Hch'.
Qed.

Lemma fanned_out_log (m : Message.t) (s s' : State) (e : LogEntry) :
  fanned_out m s s' -> e ∈ log (world s) -> e ∈ log (world s').
Proof.
  intros (_ & _ & _ & _ & _ & _ & (new & -> & _)) He.
  apply elem_of_app. by left.
Qed.

Lemma deliver_each_spec (sourceNode : RuntimeNode.t) (msg : ptr) (m : Message.t)
    (flow : RuntimeFlow.t) (targets : list string) :
  forall s : State,
  messages (world s) !! msg = Some m ->
  (forall t tn, t ∈ targets -> RuntimeFlow.Nodes flow !! t = Some tn ->
     exists ch, chans s !! RuntimeNode.InputChan tn = Some ch /\ closed ch = false) ->
  exists s',
    FlowExecutor.deliver_each sourceNode (Some msg) flow targets s = Some s' /\
    fanned_out m s s' /\
    (forall c, (forall t tn, t ∈ targets -> RuntimeFlow.Nodes flow !! t = Some tn ->
                  RuntimeNode.InputChan tn <> c) ->
       chans s' !! c = chans s !! c) /\
    (forall t tn ch, t ∈ targets -> RuntimeFlow.Nodes flow !! t = Some tn ->
       chans s !! RuntimeNode.InputChan tn = Some ch ->
       ((cap ch <= length (buf ch))%nat ->
          chans s' !! RuntimeNode.InputChan tn = Some ch /\
          drop_warning sourceNode t ∈ log (world s')) /\
       ((length (buf ch) < cap ch)%nat ->
          exists ch', chans s' !! RuntimeNode.InputChan tn = Some ch' /\
            (length (buf ch) < length (buf ch'))%nat)).
Proof.
  induction targets as [|t0 rest IH]; intros s Hmsg Hopen.
  - exists s. split; [done|]. split; [apply fanned_out_refl|]. split; [done|].
    intros t tn ch Ht. by apply elem_of_nil in Ht.
  - cbn [FlowExecutor.deliver_each].
    destruct (deliver_spec sourceNode msg m flow t0 s Hmsg)
      as (s1 & Hd & Hfan1 & Hframe1 & Hown1).
    { intros tn Htn. apply (Hopen t0 tn); [apply elem_of_cons; by left|done]. }
    rewrite Hd.
    destruct (IH s1) as (s' & Hrun & Hfan2 & Hframe2 & Hown2).
    { by apply (fanned_out_lookup m s). }
    { intros t tn Ht Htn.
      destruct (Hopen t tn) as (ch & Hch & Hcl); [apply elem_of_cons; by right|done|].
      destruct Hfan1 as (_ & _ & _ & _ & _ & Hc & _).
      destruct (Hc _ ch Hch) as (added & Hch1 & _). eexists. split; [exact Hch1|done]. }
    exists s'. split; [exact Hrun|]. split; [by apply (fanned_out_trans m s s1)|].
    split.
    { intros c Hc. rewrite Hframe2, Hframe1; [done| |].
      - intros tn Htn. apply (Hc t0 tn); [apply elem_of_cons; by left|done].
      - intros t tn Ht Htn. apply (Hc t tn); [apply elem_of_cons; by right|done]. }
    intros t tn ch Ht Htn Hch. split.
    + intros Hfull.
      pose proof (fanned_out_full m s s1 _ ch Hfan1 Hch Hfull) as Hch1.
      split; [by apply (fanned_out_full m s1 s' _ ch)|].
      apply elem_of_cons in Ht as [->|Ht].
      * apply (fanned_out_log m s1 s'); [done|].
        destruct (Hown1 tn ch Htn Hch) as [Hw _].
        destruct (Hw Hfull) as [_ ->]. apply elem_of_app. right.
        apply elem_of_cons. by left.
      * by apply (Hown2 t tn ch Ht Htn Hch1).
    + intros Hroom. apply elem_of_cons in Ht as [->|Ht].
      * destruct (Hown1 tn ch Htn Hch) as [_ Hs].
        destruct (Hs Hroom) as (q & Hch1).
        destruct Hfan2 as (_ & _ & _ & _ & _ & Hc & _).
        destruct (Hc _ _ Hch1) as (added & Hch' & _). cbn in Hch'.
        eexists. split; [exact Hch'|]. cbn. rewrite !length_app. cbn. lia.
      * destruct Hfan1 as (_ & _ & _ & _ & _ & Hc & _).
        destruct (Hc _ ch Hch) as (added & Hch1 & _).
        set (ch1 := {| buf := buf ch ++ added; cap := cap ch; closed := closed ch |}) in *.
        destruct (decide (length (buf ch1) < cap ch1)%nat) as [Hr1|Hf1].
        -- destruct (Hown2 t tn ch1 Ht Htn Hch1) as [_ Hs].
           destruct (Hs Hr1) as (ch' & Hch' & Hlt). exists ch'. split; [done|].
           subst ch1. cbn in Hlt. rewrite length_app in Hlt. lia.
        -- exists ch1. split.
           ++ apply (fanned_out_full m s1 s' _ ch1 Hfan2 Hch1). lia.
           ++ subst ch1. cbn in *. lia.
Qed.

(** C5.  [distributeMessage] on a message [m] that a node's [Execute]
    returned, for a source node whose targets' input channels are open:
    it returns normally (it has no error result, and nothing panics); every
    channel keeps what it held and receives at its tail only new messages
    that carry the payload of [m] (clones), one attempt per recorded target
    id; a target whose queue is full keeps its queue exactly as it was, so the
    clone made for it is never dequeued, and a warning naming source and
    target is logged; a target whose queue has room has a longer queue
    afterwards; the channels that are not the input channel of a recorded
    target are unchanged, as are the flows, the goroutines and the executor's
    map; the log gains no error entry except for a target id that names no
    node. *)
Theorem distributeMessage_drop_on_full (sourceNode : RuntimeNode.t) (msg : ptr)
    (m : Message.t) (flow : RuntimeFlow.t) (s : State) :
  messages (world s) !! msg = Some m ->
  (forall c, target_chan sourceNode flow c ->
     exists ch, chans s !! c = Some ch /\ closed ch = false) ->
  exists s',
    FlowExecutor.distributeMessage sourceNode (Some msg) flow s = Some s' /\
    fanned_out m s s' /\
    (forall c, ~ target_chan sourceNode flow c -> chans s' !! c = chans s !! c) /\
    (forall t tn ch,
       t ∈ RuntimeNode.OutputConnections sourceNode ->
       RuntimeFlow.Nodes flow !! t = Some tn ->
       chans s !! RuntimeNode.InputChan tn = Some ch ->
       ((cap ch <= length (buf ch))%nat ->
          chans s' !! RuntimeNode.InputChan tn = Some ch /\
          drop_warning sourceNode t ∈ log (world s')) /\
       ((length (buf ch) < cap ch)%nat ->
          exists ch', chans s' !! RuntimeNode.InputChan tn = Some ch' /\
            (length (buf ch) < length (buf ch'))%nat)).
Proof.
  intros Hmsg Hopen. unfold FlowExecutor.distributeMessage.
  destruct (deliver_each_spec sourceNode msg m flow
              (RuntimeNode.OutputConnections sourceNode) s Hmsg)
    as (s' & Hrun & Hfan & Hframe & Hown).
  { intros t tn Ht Htn. apply Hopen. by exists t, tn. }
  exists s'. split; [exact Hrun|]. split; [exact Hfan|]. split; [|exact Hown].
  intros c Hc. apply Hframe. intros t tn Ht Htn Heq. apply Hc. by exists t, tn.
Qed.

(** The loops of the input and propagation workers hand every message that
    [Execute] returned to [distributeMessage], in order. *)
Lemma runPropagationNode_recv_forwards (node : RuntimeNode.t) (flow : RuntimeFlow.t)
    (msg : option ptr) (s : State) (out : list (option ptr)) (w1 : World) :
  Execute (RuntimeNode.Block_ node) (FlowExecutor.worker_context node msg)
    (RuntimeNode.Properties node) (world s) = Some (Ok out, w1) ->
  FlowExecutor.runPropagationNode_recv node flow msg s =
  FlowExecutor.distribute_all node out flow (set_world w1 s).
Proof. intros H. unfold FlowExecutor.runPropagationNode_recv. by rewrite H. Qed.

Lemma runInputNode_tick_forwards (node : RuntimeNode.t) (flow : RuntimeFlow.t)
    (s : State) (out : list (option ptr)) (w1 : World) :
  Execute (RuntimeNode.Block_ node) (FlowExecutor.worker_context node None)
    (RuntimeNode.Properties node) (world s) = Some (Ok out, w1) ->
  FlowExecutor.runInputNode_tick node flow s =
  FlowExecutor.distribute_all node out flow (set_world w1 s).
Proof. intros H. unfold FlowExecutor.runInputNode_tick. by rewrite H. Qed.

(** A failing [Execute] of an input node is logged and the worker goes on:
    nothing but the block's own effects and the log entry changes. *)
Lemma runInputNode_tick_error (node : RuntimeNode.t) (flow : RuntimeFlow.t)
    (s : State) (err : string) (w1 : World) :
  Execute (RuntimeNode.Block_ node) (FlowExecutor.worker_context node None)
    (RuntimeNode.Properties node) (world s) = Some (Err err, w1) ->
  FlowExecutor.runInputNode_tick node flow s =
  Some (slog ERROR "Error executing input node"
          [("node_id", VStr (RuntimeNode.ID node)); ("error", VStr err)]
          (set_world w1 s)).
Proof. intros H. unfold FlowExecutor.runInputNode_tick. by rewrite H. Qed.

(** The started [flow1] with a recorder that never runs: after a hundred
    ticks of the inject node the recorder's queue (channel 4) holds a hundred
    clones; the next tick leaves every channel as it is and logs the
    warning. *)
Example flood_drops :
  (length ∘ buf <$> chans (Run.ticked 100) !! 4%nat) = Some 100%nat /\
  chans (Run.ticked 101) = chans (Run.ticked 100) /\
  last (log (world (Run.ticked 101))) =
    Some {| level := WARN;
            text := "Target node input channel full, dropping message";
            fields := [("source_node", VStr "n1"); ("target_node", VStr "n2")] |}.
Proof. split_ands; by vm_compute. Qed.

(** ** Lifecycle *)

(** [FlowExecutor.StartFlow] on a running flow: the named error, and the
    state is left as it was. *)
Lemma StartFlow_already_running (flowID : string) (s : State) (self : ptr)
    (rf : RuntimeFlow.t) :
  flows s !! flowID = Some self ->
  rflows s !! self = Some rf ->
  RuntimeFlow.Running rf = true ->
  FlowExecutor.StartFlow flowID s =
  (Error ("flow '" +:+ flowID +:+ "' is already running"), s).
Proof. intros Hf Hr Hrun. unfold FlowExecutor.StartFlow. by rewrite Hf, Hr, Hrun. Qed.

(** [StartFlow] on a prepared flow that is not running. *)
Lemma StartFlow_stopped (flowID : string) (s : State) (self : ptr)
    (rf : RuntimeFlow.t) :
  flows s !! flowID = Some self ->
  rflows s !! self = Some rf ->
  RuntimeFlow.Running rf = false ->
  (FlowExecutor.StartFlow flowID s).1 = Nil /\
  chans (FlowExecutor.StartFlow flowID s).2 = chans s /\
  (exists rf', rflows (FlowExecutor.StartFlow flowID s).2 !! self = Some rf' /\
     RuntimeFlow.Running rf' = true /\
     RuntimeFlow.StopChan rf' = RuntimeFlow.StopChan rf /\
     RuntimeFlow.Nodes rf' = RuntimeFlow.Nodes rf) /\
  goroutines (FlowExecutor.StartFlow flowID s).2 =
    goroutines s ++ (FlowExecutor.spawn self <$> (map_to_list (RuntimeFlow.Nodes rf)).*2).
Proof.
  intros Hfl Hrf Hrun. unfold FlowExecutor.StartFlow. rewrite Hfl, Hrf, Hrun. cbn.
  split; [done|]. split; [done|]. split; [|done].
  eexists. rewrite list_lookup_insert_eq by (by eapply lookup_lt_Some). done.
Qed.

(** [StartFlow] makes no channel and no message, and leaves the executor's
    map. *)
Lemma StartFlow_frame (flowID : string) (s : State) :
  let s' := (FlowExecutor.StartFlow flowID s).2 in
  chans s' = chans s /\ messages (world s') = messages (world s) /\
  flows s' = flows s.
Proof.
  cbn zeta. unfold FlowExecutor.StartFlow.
  destruct (flows s !! flowID) as [self|]; [|done].
  destruct (rflows s !! self) as [rf|]; [|done].
  by destruct (RuntimeFlow.Running rf).
Qed.

(** [PrepareAndStartFlow] starts a valid flow in every state, also when the
    executor already runs a flow under that id: it puts a new runtime flow in
    the executor's map and adds one goroutine per node to the ones that
    exist. *)
Lemma PrepareAndStartFlow_always_starts (registry : Registry.t) (flow : Flow.t)
    (s : State) :
  FlowExecutor.ValidateFlow registry (Some flow) = None ->
  NoDup (Node.ID <$> Flow.Nodes flow) ->
  exists s' new,
    FlowExecutor.PrepareAndStartFlow registry (Some flow) s = (Nil, s') /\
    flows s' !! Flow.ID flow = Some (length (rflows s)) /\
    goroutines s' = goroutines s ++ new /\
    length new = length (Flow.Nodes flow) /\
    Forall (fun wk => wk_flow wk = length (rflows s)) new.
Proof.
  intros Hv Hnd. destruct (ValidateFlow_None_registered _ _ Hv) as [_ Hreg].
  destruct (PrepareFlow_unfold registry flow s Hv)
    as (nodes & s2 & Hrun & Hrf & Hg & Hfl & Hprep).
  destruct (create_runtime_nodes_ok registry (length (rflows s))
              (Flow.Connections flow) (Flow.Nodes flow) ∅
              (set_chans (chans s ++ [fresh_chan 0]) s) Hreg)
    as (nodes' & s2' & Hrun' & _ & _ & _ & _ & Hout & Hin & _).
  rewrite Hrun in Hrun'. inversion Hrun'; subst nodes' s2'. clear Hrun'.
  assert (Hsize : size nodes = length (Flow.Nodes flow)).
  { transitivity (size (dom nodes)); [symmetry; apply size_dom|].
    assert (dom nodes = list_to_set (Node.ID <$> Flow.Nodes flow)) as ->.
    { apply set_eq. intros id. rewrite elem_of_dom, elem_of_list_to_set. split.
      - intros Hs. destruct (decide (id ∈ Node.ID <$> Flow.Nodes flow)); [done|].
        rewrite (Hout id) in Hs by done. rewrite lookup_empty in Hs.
        by destruct Hs.
      - intros (node & -> & Hn)%list_elem_of_fmap. by apply Hin. }
    rewrite size_list_to_set by done. by rewrite length_fmap. }
  unfold FlowExecutor.PrepareAndStartFlow. rewrite Hprep.
  set (rf := RuntimeFlow.mk _ _ _ _ _ _ _).
  set (s3 := set_flows _ _).
  destruct (StartFlow_stopped (Flow.ID flow) s3 (length (rflows s)) rf)
    as (Hnil & _ & _ & Hgo).
  { subst s3. cbn. by rewrite lookup_insert_eq. }
  { subst s3. cbn. rewrite Hrf. by apply list_lookup_middle. }
  { done. }
  destruct (FlowExecutor.StartFlow (Flow.ID flow) s3) as [r s'] eqn:E.
  cbn [fst snd] in *. subst r.
  eexists _, _. split; [reflexivity|].
  split.
  { destruct (StartFlow_frame (Flow.ID flow) s3) as (_ & _ & Hf3).
    rewrite E in Hf3. cbn in Hf3. rewrite Hf3. subst s3. cbn.
    by rewrite lookup_insert_eq. }
  split; [rewrite Hgo; subst s3; cbn; by rewrite Hg|].
  split.
  - rewrite !length_fmap. subst rf. cbn. by rewrite length_map_to_list.
  - apply Forall_fmap. by apply Forall_true.
Qed.

(** [FlowExecutor.StartFlow] makes no channel and closes or reopens none, and
    leaves the stop channel of every runtime flow as it is. *)
Lemma StartFlow_keeps_signals (flowID : string) (s : State) :
  chans (FlowExecutor.StartFlow flowID s).2 = chans s /\
  (RuntimeFlow.StopChan <$> rflows (FlowExecutor.StartFlow flowID s).2) =
  (RuntimeFlow.StopChan <$> rflows s).
Proof.
  unfold FlowExecutor.StartFlow.
  destruct (flows s !! flowID) as [self|]; [|done].
  destruct (rflows s !! self) as [rf|] eqn:Hrf; [|done].
  destruct (RuntimeFlow.Running rf); [done|]. cbn. split; [done|].
  rewrite list_fmap_insert. cbn. by apply list_insert_id, list_lookup_fmap_Some_2.
Qed.

(** C1.  The run that shows the second start path misbehaving: [flow1] is
    started through [Engine.StartFlow] and is running; a second
    [Engine.StartFlow] returns nil instead of the "already running" error,
    replaces the executor's runtime flow by a new one and adds a second
    worker set beside the first; a [StopFlow] then ends only the second set,
    and the first set stays alive behind a stop channel that is still open.
    The direct path, [FlowExecutor.StartFlow], rejects the same request. *)
Theorem Engine_StartFlow_twice_restarts :
  (Engine.StartFlow Sample.engine "f1" Sample.state0).1 = Nil /\
  FlowExecutor.GetFlowStatus "f1" Run.started = Ok true /\
  (Engine.StartFlow Sample.engine "f1" Run.started).1 = Nil /\
  flows Run.started !! "f1" = Some 0%nat /\
  flows Run.started_twice !! "f1" = Some 1%nat /\
  (RuntimeFlow.Running <$> rflows Run.started_twice) = [true; true] /\
  (wk_flow <$> goroutines Run.started) = [0; 0]%nat /\
  (wk_flow <$> goroutines Run.started_twice) = [0; 0; 1; 1]%nat /\
  (Engine.StopFlow Sample.engine "f1" Run.started_twice).1 = Nil /\
  (wk_flow <$> goroutines Run.started_twice_stopped) = [0; 0]%nat /\
  (RuntimeFlow.StopChan <$> rflows Run.started_twice_stopped) = [0; 7]%nat /\
  FlowExecutor.is_closed 0 Run.started_twice_stopped = false /\
  (FlowExecutor.StartFlow "f1" Run.started).1 = Error "flow 'f1' is already running".
Proof. split_ands; by vm_compute. Qed.

Lemma finish_frame (node : RuntimeNode.t) (s : State) :
  chans (FlowExecutor.finish node s) = chans s /\
  flows (FlowExecutor.finish node s) = flows s /\
  (RuntimeFlow.StopChan <$> rflows (FlowExecutor.finish node s)) =
    (RuntimeFlow.StopChan <$> rflows s) /\
  (RuntimeFlow.Running <$> rflows (FlowExecutor.finish node s)) =
    (RuntimeFlow.Running <$> rflows s).
Proof.
  unfold FlowExecutor.finish. cbn. split; [done|]. split; [done|].
  split; (rewrite (list_fmap_alter _ _ id); [by rewrite list_alter_id|]);
    by apply Forall_true.
Qed.

Lemma run_all_to_exit_frame (registry : Registry.t) (wks : list Worker) :
  forall s s', FlowExecutor.run_all_to_exit registry wks s = Some s' ->
  chans s' = chans s /\ flows s' = flows s /\
  (RuntimeFlow.StopChan <$> rflows s') = (RuntimeFlow.StopChan <$> rflows s) /\
  (RuntimeFlow.Running <$> rflows s') = (RuntimeFlow.Running <$> rflows s).
Proof.
  induction wks as [|wk rest IH]; intros s s' Hrun; cbn in Hrun.
  - by inversion Hrun.
  - destruct (FlowExecutor.run_to_exit registry wk s) as [s1|] eqn:E; [|done].
    assert (H1 : chans s1 = chans s /\ flows s1 = flows s /\
              (RuntimeFlow.StopChan <$> rflows s1) = (RuntimeFlow.StopChan <$> rflows s) /\
              (RuntimeFlow.Running <$> rflows s1) = (RuntimeFlow.Running <$> rflows s)).
    { unfold FlowExecutor.run_to_exit in E.
      destruct (wk_phase wk).
      - unfold FlowExecutor.runNode_enter in E.
        destruct (FlowExecutor.runNode_blockInfo registry (wk_node wk)); [|done].
        inversion E. apply (finish_frame _ (slog _ _ _ s)).
      - inversion E. apply finish_frame.
      - inversion E. apply finish_frame.
      - inversion E. apply finish_frame. }
    destruct H1 as (Hc1 & Hf1 & Hs1 & Hr1).
    destruct (IH s1 s' Hrun) as (Hc & Hf & Hs & Hr).
    split; [congruence|]. split; [congruence|]. split; congruence.
Qed.

(** A successful [StopFlow] leaves the flow's stop channel closed, and the
    [StartFlow] that follows succeeds, keeps that channel as the flow's stop
    channel and leaves it closed. *)
Lemma restart_keeps_fired_signal (registry : Registry.t) (flowID : string)
    (s s1 : State) :
  FlowExecutor.StopFlow registry flowID s = (Nil, s1) ->
  exists self c,
    flows s1 !! flowID = Some self /\
    (RuntimeFlow.StopChan <$> rflows s !! self) = Some c /\
    FlowExecutor.is_closed c s1 = true /\
    (FlowExecutor.StartFlow flowID s1).1 = Nil /\
    (RuntimeFlow.StopChan <$> rflows (FlowExecutor.StartFlow flowID s1).2 !! self)
      = Some c /\
    (RuntimeFlow.Running <$> rflows (FlowExecutor.StartFlow flowID s1).2 !! self)
      = Some true /\
    FlowExecutor.is_closed c (FlowExecutor.StartFlow flowID s1).2 = true.
Proof.
  unfold FlowExecutor.StopFlow.
  destruct (flows s !! flowID) as [self|] eqn:Hfl; [|done].
  destruct (rflows s !! self) as [rf|] eqn:Hrf; [|done].
  destruct (RuntimeFlow.Running rf) eqn:Hrun; [|done]. cbn [negb].
  destruct (FlowExecutor.close_chan (RuntimeFlow.StopChan rf) s) as [sc|] eqn:Hclose;
    [|done].
  destruct (FlowExecutor.wait_for_workers registry self sc) as [sw|] eqn:Hwait;
    [|done].
  intros [= <-].
  (* closing *)
  unfold FlowExecutor.close_chan in Hclose.
  destruct (chans s !! RuntimeFlow.StopChan rf) as [ch|] eqn:Hch; [|done].
  destruct (closed ch) eqn:Hcl; [done|]. inversion Hclose as [Hsc]. clear Hclose.
  (* waiting *)
  unfold FlowExecutor.wait_for_workers in Hwait.
  destruct (FlowExecutor.run_all_to_exit registry _ sc) as [sx|] eqn:Hx; [|done].
  inversion Hwait as [Hsw]. clear Hwait.
  destruct (run_all_to_exit_frame registry _ sc sx Hx) as (Hc & Hf & Hs & Hr).
  assert (Hsx : exists rfx, rflows sx !! self = Some rfx /\
                  RuntimeFlow.StopChan rfx = RuntimeFlow.StopChan rf).
  { assert (Hstop : RuntimeFlow.StopChan <$> rflows sx !! self =
                    RuntimeFlow.StopChan <$> rflows s !! self).
    { rewrite <- !list_lookup_fmap, Hs. by subst sc. }
    rewrite Hrf in Hstop. cbn in Hstop.
    destruct (rflows sx !! self) as [rfx|]; [|done]. exists rfx.
    split; [done|]. by inversion Hstop. }
  destruct Hsx as (rfx & Hrfx & Hsame).
  set (s1 := slog _ _ _ _).
  assert (Hfl1 : flows s1 !! flowID = Some self).
  { subst s1 sw. cbn. rewrite Hf. subst sc. by cbn. }
  assert (Hrf1 : rflows s1 !! self = Some (RuntimeFlow.set_Running false rfx)).
  { subst s1 sw. cbn. by rewrite list_lookup_alter_eq, Hrfx. }
  assert (Hch1 : chans s1 = chans sc) by (subst s1 sw; cbn; by rewrite Hc).
  assert (Hclosed : forall st, chans st = chans sc ->
            FlowExecutor.is_closed (RuntimeFlow.StopChan rf) st = true).
  { intros st Hst. unfold FlowExecutor.is_closed. rewrite Hst. subst sc. cbn.
    rewrite list_lookup_insert_eq by (by eapply lookup_lt_Some). done. }
  destruct (StartFlow_stopped flowID s1 self _ Hfl1 Hrf1 eq_refl)
    as (Hnil & Hch2 & (rf' & Hrf' & Hrun' & Hstop' & _) & _).
  exists self, (RuntimeFlow.StopChan rf).
  split; [done|]. split; [by rewrite Hrf|]. split; [by apply Hclosed|].
  split; [done|]. rewrite Hrf'. cbn.
  split; [by rewrite Hstop', <- Hsame|]. split; [by rewrite Hrun'|].
  apply Hclosed. by rewrite Hch2.
Qed.

(** A goroutine inside a loop whose flow's stop channel is closed can take
    the stop case of its select, and then it is gone. *)
Lemma fired_signal_stops_worker (registry : Registry.t) (s : State) (i : nat)
    (wk : Worker) (flow : RuntimeFlow.t) :
  goroutines s !! i = Some wk ->
  FlowExecutor.in_loop (wk_phase wk) = true ->
  rflows s !! wk_flow wk = Some flow ->
  FlowExecutor.is_closed (RuntimeFlow.StopChan flow) s = true ->
  exists s', FlowExecutor.step registry s s' /\
    goroutines s' = delete i (goroutines s) /\ chans s' = chans s.
Proof.
  intros Hwk Hloop Hflow Hclosed. eexists. split.
  - by eapply FlowExecutor.step_flow_stop.
  - done.
Qed.

(** C8.  The run that shows a restart on a fired signal: [flow1] is started,
    stopped with [StopFlow] and started again with [StartFlow].  The second
    start succeeds and spawns two goroutines for the same runtime flow, whose
    stop channel is the one of the first run and is closed, so their select
    can take the stop case at once; the next [StopFlow] panics on closing it
    again.  A restart through the engine, which prepares the flow anew, gets
    a new, open stop channel. *)
Theorem restart_observes_fired_signal :
  (FlowExecutor.StopFlow Sample.registry "f1" Run.started).1 = Nil /\
  FlowExecutor.GetFlowStatus "f1" Run.stopped = Ok false /\
  goroutines Run.stopped = [] /\
  (FlowExecutor.StartFlow "f1" Run.stopped).1 = Nil /\
  FlowExecutor.GetFlowStatus "f1" Run.restarted = Ok true /\
  flows Run.restarted !! "f1" = flows Run.started !! "f1" /\
  (RuntimeFlow.StopChan <$> rflows Run.started) = [0%nat] /\
  (RuntimeFlow.StopChan <$> rflows Run.restarted) = [0%nat] /\
  length (chans Run.restarted) = length (chans Run.started) /\
  FlowExecutor.is_closed 0 Run.started = false /\
  FlowExecutor.is_closed 0 Run.restarted = true /\
  (wk_flow <$> goroutines Run.restarted) = [0; 0]%nat /\
  (FlowExecutor.StopFlow Sample.registry "f1" Run.restarted).1 =
    Panic "close of closed channel" /\
  (* the prepare-and-start path, for comparison, makes a new signal *)
  (RuntimeFlow.StopChan <$> rflows Run.restarted_by_engine) = [0; 7]%nat /\
  flows Run.restarted_by_engine !! "f1" = Some 1%nat /\
  FlowExecutor.is_closed 7 Run.restarted_by_engine = false /\
  (wk_flow <$> goroutines Run.restarted_by_engine) = [1; 1]%nat.
Proof. split_ands; by vm_compute. Qed.

(** The period of the ticker does not depend on the node. *)
Lemma loop_of_ticker (group : BlockGroup) (period : Z) :
  FlowExecutor.loop_of group = Some (InputLoop period) ->
  period = (1 * time.Second)%Z.
Proof.
  unfold FlowExecutor.loop_of.
  repeat (destruct (String.eqb _ _)); congruence.
Qed.

(** C6.  The run that shows the fixed tick: for every value of the
    [interval] property of an inject node, zero (manual trigger only) and
    five seconds included, the worker of the node enters the input loop with
    a ticker of one second. *)
Theorem input_ticker_ignores_interval (interval : Z) :
  (FlowExecutor.PrepareAndStartFlow Sample.registry
     (Some (Sample.flow_of "f1" [Sample.inject_node "n1" interval] []))
     Sample.state0).1 = Nil /\
  ((fun wk => RuntimeNode.Type_ (wk_node wk)) <$> goroutines (Run.inject_started interval))
    = ["inject"] /\
  ((fun wk => RuntimeNode.Properties (wk_node wk) !! "interval")
     <$> goroutines (Run.inject_started interval)) = [Some (VInt interval)] /\
  Run.enter 0 (Run.inject_started interval) = Some (Some (InputLoop 1000000000)) /\
  (1000000000 = 1000 * time.Millisecond)%Z.
Proof. split_ands; by vm_compute. Qed.

(** The fields of the context a worker builds. *)
Lemma worker_context_fields (node : RuntimeNode.t) (msg : option ptr) :
  BlockExecutionContext.NodeID (FlowExecutor.worker_context node msg) = RuntimeNode.ID node /\
  BlockExecutionContext.Message (FlowExecutor.worker_context node msg) = msg /\
  BlockExecutionContext.Logger (FlowExecutor.worker_context node msg) = Some LoggerAdapter /\
  BlockExecutionContext.FlowID (FlowExecutor.worker_context node msg) = "" /\
  BlockExecutionContext.Context (FlowExecutor.worker_context node msg) = None /\
  BlockExecutionContext.State (FlowExecutor.worker_context node msg) = None /\
  (forall key value w, SetState (FlowExecutor.worker_context node msg) key value w = None).
Proof. done. Qed.

(** The constructor that the workers do not use sets every field. *)
Lemma NewBlockExecutionContext_fields (ctx : option nat) (nodeID flowID : string)
    (msg : option ptr) (logger : option BlockLogger) (w : World) :
  let c := (NewBlockExecutionContext ctx nodeID flowID msg logger w).1 in
  BlockExecutionContext.Context c = ctx /\
  BlockExecutionContext.NodeID c = nodeID /\
  BlockExecutionContext.FlowID c = flowID /\
  BlockExecutionContext.Message c = msg /\
  BlockExecutionContext.Logger c = logger /\
  BlockExecutionContext.State c = Some (length (context_maps w)).
Proof. done. Qed.

(** C7.  The run that shows what [Execute] receives: in the started flow
    "f3" both workers enter the input loop; the worker of the probe node "p1"
    (goroutine 1) calls [Execute] on its tick with a context whose flow id is
    empty and that has neither a cancellation signal nor a state store (and
    no input message, the node being an Input node); the worker of the
    counter node "k1" (goroutine 0), whose block writes to the state store
    as the plugin guide shows, panics on the nil store. *)
Theorem worker_context_lacks_flow_cancel_state :
  (RuntimeFlow.ID <$> rflows Run.probing) = ["f3"] /\
  ((fun wk => RuntimeNode.ID (wk_node wk)) <$> goroutines Run.probing) = ["k1"; "p1"] /\
  Run.enter 0 Run.probing = Some (Some (InputLoop 1000000000)) /\
  Run.enter 1 Run.probing = Some (Some (InputLoop 1000000000)) /\
  ((fun s => last (log (world s))) <$> Run.tick 1 Run.probing) =
    Some (Some {| level := INFO; text := "Starting block execution";
                  fields := [("node_id", VStr "p1"); ("flow_id", VStr "");
                             ("has_context", VBool false);
                             ("has_message", VBool false);
                             ("has_state", VBool false)] |}) /\
  Run.tick 0 Run.probing = None.
Proof. split_ands; by vm_compute. Qed.

(** ** What preparing and starting leave alone *)

(** [s'] has the channels of [s], unchanged, followed by newly made ones
    that are empty and open; it has the messages of [s]; and the flows,
    goroutines and executor map of [s]. *)
Lemma create_runtime_nodes_frame (registry : Registry.t) (self : ptr)
    (conns : list Connection.t) (todo : list Node.t) :
  forall (acc : gmap string RuntimeNode.t) (s : State),
  let s' := (FlowExecutor.create_runtime_nodes registry self conns todo acc s).2 in
  (exists extra, chans s' = chans s ++ extra /\
     Forall (fun ch => buf ch = [] /\ closed ch = false) extra) /\
  messages (world s') = messages (world s) /\
  rflows s' = rflows s /\ goroutines s' = goroutines s /\ flows s' = flows s.
Proof.
  induction todo as [|node rest IH]; intros acc s; cbn zeta.
  - cbn. split; [exists []; by rewrite app_nil_r|done].
  - cbn [FlowExecutor.create_runtime_nodes].
    destruct (Registry.CreateBlock registry (Node.Type_ node)) as [block|e].
    2:{ cbn. split; [exists []; by rewrite app_nil_r|done]. }
    destruct (Registry.GetBlockInfoByType registry (Node.Type_ node)) as [info|e].
    2:{ cbn. split; [exists []; by rewrite app_nil_r|done]. }
    rewrite !make_chan_spec. cbn [fst snd chans set_chans].
    set (rn := RuntimeNode.mk _ _ _ _ _ _ _ _ _ _).
    set (s4 := slog _ _ _ _).
    destruct (IH (<[Node.ID node := rn]> acc) s4)
      as ((extra & Hch & Hex) & Hm & Hr & Hg & Hf).
    destruct (FlowExecutor.create_runtime_nodes registry self conns rest _ s4)
      as [r s'] eqn:E. cbn [snd] in *.
    assert (Hch4 : chans s4 = chans s ++ [fresh_chan 100; fresh_chan 100; fresh_chan 0])
      by (subst s4; cbn; by rewrite <- !app_assoc).
    split.
    { exists ([fresh_chan 100; fresh_chan 100; fresh_chan 0] ++ extra).
      split; [by rewrite Hch, Hch4, <- app_assoc|].
      apply Forall_app. split; [|done]. by repeat constructor. }
    split; [by rewrite Hm|]. split; [by rewrite Hr|]. split; [by rewrite Hg|].
    by rewrite Hf.
Qed.

Lemma PrepareFlow_frame (registry : Registry.t) (flow : option Flow.t) (s : State) :
  let s' := (FlowExecutor.PrepareFlow registry flow s).2 in
  (exists extra, chans s' = chans s ++ extra /\
     Forall (fun ch => buf ch = [] /\ closed ch = false) extra) /\
  messages (world s') = messages (world s) /\
  goroutines s' = goroutines s /\ flows s' = flows s.
Proof.
  cbn zeta. unfold FlowExecutor.PrepareFlow.
  destruct (FlowExecutor.ValidateFlow registry flow) as [e|].
  { cbn. split; [exists []; by rewrite app_nil_r|done]. }
  destruct flow as [flow|].
  2:{ cbn. split; [exists []; by rewrite app_nil_r|done]. }
  rewrite make_chan_spec. set (s1 := set_chans _ s).
  destruct (create_runtime_nodes_frame registry (length (rflows s))
              (Flow.Connections flow) (Flow.Nodes flow) ∅ s1)
    as ((extra & Hch & Hex) & Hm & _ & Hg & Hf).
  destruct (FlowExecutor.create_runtime_nodes _ _ _ _ _ s1) as [[nodes|e] s2];
    cbn [snd] in *; cbn.
  all: split; [|by rewrite ?Hm, ?Hg, ?Hf].
  all: exists ([fresh_chan 0] ++ extra); rewrite Hch; subst s1; cbn;
    rewrite <- app_assoc; split; [done|];
    apply Forall_cons; split; [done|done].
Qed.

Lemma PrepareAndStartFlow_frame (registry : Registry.t) (flow : option Flow.t)
    (s : State) :
  let s' := (FlowExecutor.PrepareAndStartFlow registry flow s).2 in
  (exists extra, chans s' = chans s ++ extra /\
     Forall (fun ch => buf ch = [] /\ closed ch = false) extra) /\
  messages (world s') = messages (world s).
Proof.
  cbn zeta. unfold FlowExecutor.PrepareAndStartFlow.
  destruct (PrepareFlow_frame registry flow s) as (Hch & Hm & _).
  destruct (FlowExecutor.PrepareFlow registry flow s) as [[self|e] s1];
    cbn [snd] in *; [|done].
  destruct flow as [f|]; [|done].
  set (s2 := set_flows _ s1).
  destruct (StartFlow_frame (Flow.ID f) s2) as (Hch2 & Hm2 & _).
  rewrite Hch2, Hm2. done.
Qed.

Lemma Engine_StartFlow_frame (e : Engine.t) (flowID : string) (s : State) :
  let s' := (Engine.StartFlow e flowID s).2 in
  (exists extra, chans s' = chans s ++ extra /\
     Forall (fun ch => buf ch = [] /\ closed ch = false) extra) /\
  messages (world s') = messages (world s).
Proof.
  cbn zeta. unfold Engine.StartFlow.
  destruct (Engine.LoadFlow _ _) as [flow|err].
  2:{ cbn. split; [exists []; by rewrite app_nil_r|done]. }
  destruct (Flow.Validate flow).
  { cbn. split; [exists []; by rewrite app_nil_r|done]. }
  apply PrepareAndStartFlow_frame.
Qed.

(** ** Trigger *)

(** C9 (as stated, refuted).  A message with payload "hello" is handed to
    [TriggerFlow] for [flow1]: the call succeeds, and afterwards no channel
    holds a message with that payload: every queue is empty. *)
Lemma TriggerFlow_drops_payload :
  (Engine.TriggerFlow Sample.engine "f1" (Some 0%nat) Run.with_hello).1 = Nil /\
  (Message.Payload <$> messages (world Run.with_hello) !! 0%nat) = Some (VStr "hello") /\
  ~ trigger_delivers Sample.engine "f1" 0 Run.with_hello.
Proof.
  split; [by vm_compute|]. split; [by vm_compute|].
  intros H.
  assert (Hm : messages (world Run.with_hello) !! 0%nat =
               Some {| Message.ID := "00000000000000000000000000000000";
                       Message.Payload := VStr "hello"; Message.Topic := "";
                       Message.Headers := Some 0%nat;
                       Message.Timestamp := 1700000000000000000;
                       Message.Source := ""; Message.Target := "";
                       Message.Context := Some 0%nat |}) by reflexivity.
  pose proof (H _ Hm) as (c & ch & p & m' & Hc & Hin & _).
  assert (Hempty : Forall (fun ch => buf ch = [])
            (chans (Engine.TriggerFlow Sample.engine "f1" (Some 0%nat) Run.with_hello).2)).
  { vm_compute. repeat constructor. }
  rewrite Forall_lookup in Hempty. rewrite (Hempty c ch Hc) in Hin.
  by apply elem_of_nil in Hin.
Qed.

(** Starting a flow through the engine puts no message into any queue. *)
Lemma Engine_StartFlow_delivers_nothing (e : Engine.t) (flowID : string)
    (s : State) (v : Value) :
  payload_in_graph v (Engine.StartFlow e flowID s).2 -> payload_in_graph v s.
Proof.
  destruct (Engine_StartFlow_frame e flowID s) as ((extra & Hch & Hex) & Hm).
  intros (c & ch & p & m & Hc & Hin & Hp & Hv).
  rewrite Hch in Hc. apply lookup_app_Some in Hc as [Hc|[_ Hc]].
  - exists c, ch, p, m. by rewrite <- Hm.
  - rewrite Forall_lookup in Hex. destruct (Hex _ _ Hc) as [Hb _].
    rewrite Hb in Hin. by apply elem_of_nil in Hin.
Qed.

(** C9 (amended).  [TriggerFlow] does not read its input message: for every
    engine, flow id, input and state it does exactly what [Engine.StartFlow]
    does (load the flow from storage, validate it, prepare and start it) and
    returns that result, so two triggers with different inputs cannot be
    told apart, and no message enters the graph through the trigger: a
    payload that waits in a queue afterwards was waiting there before. *)
Theorem TriggerFlow_is_StartFlow (e : Engine.t) (flowID : string)
    (input input' : option ptr) (s : State) :
  Engine.TriggerFlow e flowID input s = Engine.StartFlow e flowID s /\
  Engine.TriggerFlow e flowID input s = Engine.TriggerFlow e flowID input' s /\
  (Engine.TriggerFlow e flowID input s).1 =
    match Engine.LoadFlow (Engine.storage e) flowID with
    | Err err => Error ("failed to load flow: " +:+ err)
    | Ok flow =>
        match Flow.Validate flow with
        | Some err => Error ("flow validation failed: " +:+ err)
        | None =>
            (FlowExecutor.PrepareAndStartFlow (Engine.registry e) (Some flow) s).1
        end
    end /\
  (forall v, payload_in_graph v (Engine.TriggerFlow e flowID input s).2 ->
             payload_in_graph v s).
Proof.
  split_ands; try done.
  - unfold Engine.TriggerFlow, Engine.StartFlow.
    destruct (Engine.LoadFlow _ _) as [flow|err]; [|done].
    by destruct (Flow.Validate flow).
  - intros v. apply (Engine_StartFlow_delivers_nothing e flowID).
Qed.

(** ** The theorems at concrete inputs *)

(** [Clone] of the message that [NewMessage] made in the empty world. *)
Lemma Clone_fresh_independent_witness :
  exists p' w' m',
    Clone 0 (NewMessage (VInt 5) Sample.world0).2 = Some (p', w') /\
    messages w' !! p' = Some m' /\
    Message.ID m' <> "00000000000000000000000000000000" /\
    Message.Payload m' = VInt 5.
Proof.
  destruct (Clone_fresh_independent (NewMessage (VInt 5) Sample.world0).2 0
              {| Message.ID := "00000000000000000000000000000000";
                 Message.Payload := VInt 5; Message.Topic := "";
                 Message.Headers := Some 0%nat;
                 Message.Timestamp := 1700000000000000000;
                 Message.Source := ""; Message.Target := "";
                 Message.Context := Some 0%nat |})
    as (p' & w' & m' & HC & _ & Hm' & _ & _ & Hid & Hpay & _).
  - reflexivity.
  - split; intros l [= <-]; vm_compute; eauto.
  - exists p', w', m'. split; [exact HC|]. split; [exact Hm'|].
    split; [|exact Hpay]. apply Hid.
    + exists 0%nat, (replicate 16 x00). split; [vm_compute; lia|]. split; reflexivity.
    + intros i Hi. assert (i = 0%nat) as -> by (vm_compute in Hi; lia).
      vm_compute. discriminate.
Defined.

(** [PrepareFlow] of [flow1] in the initial state. *)
Lemma PrepareFlow_one_node_each_witness :
  exists self s' rf,
    FlowExecutor.PrepareFlow Sample.registry (Some Sample.flow1) Sample.state0 = (Ok self, s') /\
    rflows s' !! self = Some rf /\
    RuntimeFlow.Running rf = false /\
    size (RuntimeFlow.Nodes rf) = 2%nat.
Proof.
  destruct (PrepareFlow_one_node_each Sample.registry Sample.flow1 Sample.state0)
    as (self & s' & rf & Hp & _ & Hrf & Hrun & _ & _ & _ & _ & Hsize & _).
  - by vm_compute.
  - by_decision.
  - exists self, s', rf. split; [exact Hp|]. split; [exact Hrf|].
    split; [exact Hrun|exact Hsize].
Defined.

(** The targets of the fan-out sample that name a node. *)
Lemma Fanout_targets (t : string) (tn : RuntimeNode.t) :
  t ∈ RuntimeNode.OutputConnections Fanout.source ->
  RuntimeFlow.Nodes Fanout.flow !! t = Some tn ->
  (t = "a" /\ tn = Fanout.target "a" 0) \/ (t = "b" /\ tn = Fanout.target "b" 1).
Proof.
  intros Ht Htn. cbn in Ht.
  apply elem_of_cons in Ht as [->|Ht]; [left; vm_compute in Htn; by inversion Htn|].
  apply elem_of_cons in Ht as [->|Ht]; [right; vm_compute in Htn; by inversion Htn|].
  apply elem_of_cons in Ht as [->|Ht]; [by vm_compute in Htn|].
  by apply elem_of_nil in Ht.
Qed.

(** Fan-out from the sample source: the full queue of "a" stays as it is
    and the warning is logged, "b" receives its clone, and the channel of
    "c", no target, is untouched. *)
Lemma distributeMessage_drop_on_full_witness :
  exists s',
    FlowExecutor.distributeMessage Fanout.source (Some 0%nat) Fanout.flow Fanout.state
      = Some s' /\
    chans s' !! 0%nat = chans Fanout.state !! 0%nat /\
    drop_warning Fanout.source "a" ∈ log (world s') /\
    (exists ch', chans s' !! 1%nat = Some ch' /\ (0 < length (buf ch'))%nat) /\
    chans s' !! 2%nat = Some (fresh_chan 100).
Proof.
  destruct (distributeMessage_drop_on_full Fanout.source 0
              {| Message.ID := "00000000000000000000000000000000";
                 Message.Payload := VInt 5; Message.Topic := "";
                 Message.Headers := Some 0%nat;
                 Message.Timestamp := 1700000000000000000;
                 Message.Source := ""; Message.Target := "";
                 Message.Context := Some 0%nat |}
              Fanout.flow Fanout.state)
    as (s' & Hrun & _ & Hframe & Hown).
  - reflexivity.
  - intros c (t & tn & Ht & Htn & <-).
    destruct (Fanout_targets t tn Ht Htn) as [[-> ->]|[-> ->]];
      eexists; split; reflexivity.
  - exists s'. split; [exact Hrun|].
    pose proof (Hown "a" (Fanout.target "a" 0)
                  {| buf := replicate 100 (Some 0%nat); cap := 100; closed := false |})
      as Ha.
    destruct Ha as [[Ha Hw] _];
      [apply elem_of_cons; by left|by vm_compute|by vm_compute|vm_compute; lia|].
    split; [exact Ha|]. split; [exact Hw|].
    pose proof (Hown "b" (Fanout.target "b" 1) (fresh_chan 100)) as Hb.
    destruct Hb as [_ Hb];
      [apply elem_of_cons; right; apply elem_of_cons; by left
      |by vm_compute|by vm_compute|].
    destruct Hb as (ch' & Hb & Hlen); [vm_compute; lia|].
    split; [exists ch'; split; [exact Hb|cbn in Hlen; lia]|].
    rewrite Hframe; [by vm_compute|].
    intros (t & tn & Ht & Htn & Hc).
    destruct (Fanout_targets t tn Ht Htn) as [[-> ->]|[-> ->]]; discriminate Hc.
Defined.

(* ================================================================== *)
(** * Further properties *)

(** ** Flow definitions: validation and editing *)

Lemma check_duplicates_Ok (nodes : list Node.t) :
  forall (nodeIDs ids : gmap string bool),
  Flow.check_duplicates nodeIDs nodes = Ok ids ->
  NoDup (Node.ID <$> nodes) /\
  (forall k, k ∈ (Node.ID <$> nodes) -> ~ marked nodeIDs k) /\
  (forall k, marked ids k <-> marked nodeIDs k \/ k ∈ (Node.ID <$> nodes)).
Proof.
  induction nodes as [|node rest IH]; intros nodeIDs ids H; cbn in H.
  - inversion H; subst. split; [constructor|]. split.
    + intros k Hk. by apply elem_of_nil in Hk.
    + intros k. split; [by left|]. intros [Hk|Hk]; [done|by apply elem_of_nil in Hk].
  - destruct (default false (nodeIDs !! Node.ID node)) eqn:Hd; [done|].
    destruct (IH _ _ H) as (Hnd & Hfresh & Hids).
    assert (Hins : forall k, marked (<[Node.ID node := true]> nodeIDs) k <->
                     k = Node.ID node \/ marked nodeIDs k).
    { intros k. unfold marked. destruct (decide (k = Node.ID node)) as [->|Hne].
      - rewrite lookup_insert_eq. cbn. split; [by left|done].
      - rewrite lookup_insert_ne by done. split; [by right|]. by intros [?|?]. }
    rewrite fmap_cons. split.
    + apply NoDup_cons. split; [|done]. intros Hin.
      apply (Hfresh _ Hin). apply Hins. by left.
    + split.
      * intros k Hk Hm. apply elem_of_cons in Hk as [->|Hk].
        -- unfold marked in Hm. by rewrite Hd in Hm.
        -- apply (Hfresh _ Hk). apply Hins. by right.
      * intros k. rewrite Hids, Hins, elem_of_cons. tauto.
Qed.

Lemma check_duplicates_Err (nodes : list Node.t) :
  forall (nodeIDs : gmap string bool) (e : string),
  Flow.check_duplicates nodeIDs nodes = Err e ->
  ~ (NoDup (Node.ID <$> nodes) /\
     forall k, k ∈ (Node.ID <$> nodes) -> ~ marked nodeIDs k).
Proof.
  induction nodes as [|node rest IH]; intros nodeIDs e H; cbn in H; [done|].
  intros [Hnd Hfresh]. rewrite fmap_cons in Hnd, Hfresh.
  apply NoDup_cons in Hnd as [Hnew Hnd].
  destruct (default false (nodeIDs !! Node.ID node)) eqn:Hd.
  - apply (Hfresh (Node.ID node)); [by left|exact Hd].
  - apply (IH _ _ H). split; [done|]. intros k Hk. unfold marked.
    destruct (decide (k = Node.ID node)) as [->|Hne]; [done|].
    rewrite lookup_insert_ne by done. apply Hfresh. by right.
Qed.

Lemma check_connections_None (ids : gmap string bool) (conns : list Connection.t) :
  Flow.check_connections ids conns = None <->
  forall conn, conn ∈ conns ->
    marked ids (Connection.Source conn) /\ marked ids (Connection.Target conn).
Proof.
  unfold marked. induction conns as [|conn rest IH]; cbn.
  - split; [|done]. intros _ conn Hin. by apply elem_of_nil in Hin.
  - destruct (default false (ids !! Connection.Source conn)) eqn:Hs; cbn.
    2:{ split; [done|]. intros H. destruct (H conn) as [H1 _]; [by left|].
        by rewrite Hs in H1. }
    destruct (default false (ids !! Connection.Target conn)) eqn:Ht; cbn.
    2:{ split; [done|]. intros H. destruct (H conn) as [_ H1]; [by left|].
        by rewrite Ht in H1. }
    rewrite IH. split.
    + intros H c Hc. apply elem_of_cons in Hc as [->|Hc]; [by rewrite Hs, Ht|by apply H].
    + intros H c Hc. apply H. by right.
Qed.

Lemma marked_empty (k : string) : ~ marked ∅ k.
Proof. unfold marked. by rewrite lookup_empty. Qed.

(** What [Validate] decides, for use in the proofs below. *)
Lemma Validate_None (f : Flow.t) :
  Flow.Validate f = None <->
  NoDup (node_ids f) /\
  forall conn, conn ∈ Flow.Connections f ->
    Connection.Source conn ∈ node_ids f /\ Connection.Target conn ∈ node_ids f.
Proof.
  unfold Flow.Validate, node_ids.
  destruct (Flow.check_duplicates ∅ (Flow.Nodes f)) as [ids|e] eqn:E.
  - destruct (check_duplicates_Ok _ _ _ E) as (Hnd & _ & Hids).
    rewrite check_connections_None. split.
    + intros H. split; [done|]. intros conn Hc. destruct (H conn Hc) as [Hs Ht].
      apply Hids in Hs, Ht.
      destruct Hs as [Hs|Hs]; [by apply marked_empty in Hs|].
      destruct Ht as [Ht|Ht]; [by apply marked_empty in Ht|]. done.
    + intros [_ H] conn Hc. destruct (H conn Hc) as [Hs Ht].
      split; apply Hids; by right.
  - split; [done|]. intros [Hnd _]. exfalso.
    apply (check_duplicates_Err _ _ _ E). split; [done|].
    intros k _. apply marked_empty.
Qed.

(** X1.  [Flow.Validate] returns nil exactly for the flows whose node ids
    are pairwise different and whose connections all name, at both ends, the
    id of a node of the flow.  It asks nothing else: an empty flow passes,
    and block types and port numbers are not looked at. *)
Theorem Flow_Validate_accepts_iff (f : Flow.t) :
  (Flow.Validate f = None <->
   NoDup (node_ids f) /\
   forall conn, conn ∈ Flow.Connections f ->
     Connection.Source conn ∈ node_ids f /\ Connection.Target conn ∈ node_ids f) /\
  (Flow.Nodes f = [] -> Flow.Connections f = [] -> Flow.Validate f = None) /\
  (forall f', node_ids f' = node_ids f ->
     (forall conn, conn ∈ Flow.Connections f' ->
        exists conn0, conn0 ∈ Flow.Connections f /\
          Connection.Source conn = Connection.Source conn0 /\
          Connection.Target conn = Connection.Target conn0) ->
     Flow.Validate f = None -> Flow.Validate f' = None).
Proof.
  split; [apply Validate_None|]. split.
  - intros Hn Hc. apply Validate_None. unfold node_ids. rewrite Hn, Hc.
    split; [constructor|]. intros conn Hin. by apply elem_of_nil in Hin.
  - intros f' Hids Hconns Hv. apply Validate_None in Hv as [Hnd Hv].
    apply Validate_None. rewrite Hids. split; [done|].
    intros conn Hin. destruct (Hconns conn Hin) as (conn0 & Hin0 & -> & ->).
    by apply Hv.
Qed.

Lemma GetNode_from_None (nodes : list Node.t) (nodeID : string) :
  forall i, Flow.GetNode_from i nodes nodeID = None <-> nodeID ∉ (Node.ID <$> nodes).
Proof.
  induction nodes as [|node rest IH]; intros i; cbn.
  - split; [|done]. intros _ Hin. by apply elem_of_nil in Hin.
  - rewrite not_elem_of_cons. destruct (String.eqb_spec (Node.ID node) nodeID) as [->|Hne].
    + split; [done|]. by intros [? _].
    + rewrite IH. split; [by intros ?|by intros [_ ?]].
Qed.

Lemma GetNode_from_Some (nodes : list Node.t) (nodeID : string) :
  forall i j, Flow.GetNode_from i nodes nodeID = Some j <->
    exists k node, j = (i + k)%nat /\ nodes !! k = Some node /\ Node.ID node = nodeID /\
      forall k' node', (k' < k)%nat -> nodes !! k' = Some node' -> Node.ID node' <> nodeID.
Proof.
  induction nodes as [|node rest IH]; intros i j; cbn.
  - split; [done|]. by intros (k & n & _ & H & _).
  - destruct (String.eqb_spec (Node.ID node) nodeID) as [Heq|Hne].
    + split.
      * intros [= <-]. exists 0%nat, node. split; [lia|]. split; [done|]. split; [done|].
        intros k' node' Hlt. lia.
      * intros (k & n & -> & Hk & Hid & Hfirst). destruct k as [|k]; [f_equal; lia|].
        exfalso. by apply (Hfirst 0%nat node); [lia| |].
    + rewrite IH. split.
      * intros (k & n & -> & Hk & Hid & Hfirst). exists (S k), n.
        split; [lia|]. split; [done|]. split; [done|].
        intros [|k'] node' Hlt Hl; cbn in Hl.
        -- by inversion Hl; subst.
        -- apply (Hfirst k' node'); [lia|done].
      * intros (k & n & -> & Hk & Hid & Hfirst). destruct k as [|k]; cbn in Hk.
        { inversion Hk; subst. done. }
        exists k, n. split; [lia|]. split; [done|]. split; [done|].
        intros k' node' Hlt Hl. apply (Hfirst (S k') node'); [lia|done].
Qed.

Lemma GetNode_None_iff (f : Flow.t) (nodeID : string) :
  Flow.GetNode f nodeID = None <-> nodeID ∉ node_ids f.
Proof. apply GetNode_from_None. Qed.

Lemma GetNode_Some_iff (f : Flow.t) (nodeID : string) (i : nat) :
  Flow.GetNode f nodeID = Some i <->
  exists node, Flow.Nodes f !! i = Some node /\ Node.ID node = nodeID /\
    forall j node', (j < i)%nat -> Flow.Nodes f !! j = Some node' ->
      Node.ID node' <> nodeID.
Proof.
  unfold Flow.GetNode. rewrite GetNode_from_Some. split.
  - intros (k & node & -> & Hk & Hid & Hfirst). by exists node.
  - intros (node & Hk & Hid & Hfirst). by exists i, node.
Qed.

(** X2.  [GetNode] finds nothing exactly when no node of the flow has the
    id, and otherwise returns the position of the first node that has it:
    the node there has the id and no earlier node does.  So with an id that
    occurs twice it resolves to the first node, where the node map of
    [ValidateFlow] resolves to the last. *)
Theorem GetNode_first_match (f : Flow.t) (nodeID : string) :
  (Flow.GetNode f nodeID = None <-> nodeID ∉ node_ids f) /\
  (forall i, Flow.GetNode f nodeID = Some i <->
     exists node, Flow.Nodes f !! i = Some node /\ Node.ID node = nodeID /\
       forall j node', (j < i)%nat -> Flow.Nodes f !! j = Some node' ->
         Node.ID node' <> nodeID) /\
  (forall i first, Flow.GetNode f nodeID = Some i ->
     Flow.Nodes f !! i = Some first ->
     exists last, declared_node f nodeID = Some last /\
       (NoDup (node_ids f) -> last = first)).
Proof.
  split; [apply GetNode_None_iff|]. split; [intros i; apply GetNode_Some_iff|].
  intros i first Hg Hi. apply GetNode_Some_iff in Hg as (node & Hi' & Hid & _).
  assert (node = first) as -> by congruence.
  unfold declared_node.
  assert (Hin : first ∈ filter (fun node => Node.ID node = nodeID) (Flow.Nodes f)).
  { apply list_elem_of_filter. split; [done|]. by eapply list_elem_of_lookup_2. }
  destruct (last (filter (fun node => Node.ID node = nodeID) (Flow.Nodes f)))
    as [l|] eqn:El.
  2:{ apply last_None in El. rewrite El in Hin. by apply elem_of_nil in Hin. }
  exists l. split; [done|]. intros Hnd.
  assert (Hl : l ∈ filter (fun node => Node.ID node = nodeID) (Flow.Nodes f)).
  { apply last_Some in El as [l' ->]. apply elem_of_app. right. by left. }
  apply list_elem_of_filter in Hl as [Hlid Hl].
  apply list_elem_of_lookup in Hl as [j Hj].
  assert (j = i); [|congruence].
  eapply NoDup_lookup; [exact Hnd| |].
  - unfold node_ids. rewrite list_lookup_fmap, Hj. cbn. by rewrite Hlid.
  - unfold node_ids. rewrite list_lookup_fmap, Hi. cbn. by rewrite Hid.
Qed.

Lemma GetNode_is_Some (f : Flow.t) (nodeID : string) :
  is_Some (Flow.GetNode f nodeID) <-> nodeID ∈ node_ids f.
Proof.
  rewrite <- not_eq_None_Some, GetNode_None_iff.
  unfold node_ids. split; [|by intros ? ?].
  intros H. by destruct (decide (nodeID ∈ Node.ID <$> Flow.Nodes f)).
Qed.

Lemma remove_first_spec (nodes : list Node.t) (nodeID : string) :
  forall i,
  Flow.remove_first nodeID nodes =
  match Flow.GetNode_from i nodes nodeID with
  | Some j => delete (j - i)%nat nodes
  | None => nodes
  end.
Proof.
  induction nodes as [|node rest IH]; intros i; cbn; [done|].
  destruct (String.eqb (Node.ID node) nodeID) eqn:E.
  - by rewrite Nat.sub_diag.
  - rewrite (IH (S i)).
    destruct (Flow.GetNode_from (S i) rest nodeID) as [j|] eqn:Ej; [|done].
    apply GetNode_from_Some in Ej as (k & n & -> & _).
    replace (S i + k - i)%nat with (S k) by lia.
    replace (S i + k - S i)%nat with k by lia. done.
Qed.

Lemma filter_loop_spec (predicate : Connection.t -> bool) (conns : list Connection.t) :
  forall filtered,
  Flow.filter_loop predicate conns filtered =
  filtered ++ List.filter predicate conns.
Proof.
  induction conns as [|conn rest IH]; intros filtered; cbn.
  - by rewrite app_nil_r.
  - rewrite IH. destruct (predicate conn); [by rewrite <- app_assoc|done].
Qed.

Lemma avoids_eqb (nodeID : string) (conn : Connection.t) :
  negb (String.eqb (Connection.Source conn) nodeID) &&
  negb (String.eqb (Connection.Target conn) nodeID) = true <-> avoids nodeID conn.
Proof.
  unfold avoids. rewrite andb_true_iff, !negb_true_iff.
  by destruct (String.eqb_spec (Connection.Source conn) nodeID),
    (String.eqb_spec (Connection.Target conn) nodeID); split; intros [? ?].
Qed.

Lemma RemoveNode_unfold (nodeID : string) (f : Flow.t) (w : World) :
  Flow.RemoveNode nodeID f w =
  (true,
   Flow.set_UpdatedAt (time_Now (env w) (ticks w))
     (Flow.set_Connections
        (List.filter
           (fun conn => negb (String.eqb (Connection.Source conn) nodeID) &&
                        negb (String.eqb (Connection.Target conn) nodeID))
           (Flow.Connections f))
        (Flow.set_Nodes
           (match Flow.GetNode f nodeID with
            | Some i => delete i (Flow.Nodes f)
            | None => Flow.Nodes f
            end) f)),
   (Now w).2).
Proof.
  unfold Flow.RemoveNode, Flow.filterConnections, Flow.GetNode. cbn.
  rewrite filter_loop_spec, (remove_first_spec _ _ 0). cbn.
  destruct (Flow.GetNode_from 0 (Flow.Nodes f) nodeID) as [j|]; [|done].
  by rewrite Nat.sub_0_r.
Qed.

(** X3.  [RemoveNode] returns true whether or not a node had the id.  It
    takes out the first node with the id, the one [GetNode] finds, and no
    other node; the connections that remain are those that name the id at
    neither end, in their old order; the update time is the clock reading;
    the other fields of the flow stay. *)
Theorem RemoveNode_effect (nodeID : string) (f : Flow.t) (w : World) :
  (Flow.RemoveNode nodeID f w).1.1 = true /\
  Flow.Nodes (Flow.RemoveNode nodeID f w).1.2 =
    match Flow.GetNode f nodeID with
    | Some i => delete i (Flow.Nodes f)
    | None => Flow.Nodes f
    end /\
  (forall conn, conn ∈ Flow.Connections (Flow.RemoveNode nodeID f w).1.2 <->
     conn ∈ Flow.Connections f /\ avoids nodeID conn) /\
  Flow.Connections (Flow.RemoveNode nodeID f w).1.2 `sublist_of` Flow.Connections f /\
  Flow.UpdatedAt (Flow.RemoveNode nodeID f w).1.2 = (Now w).1 /\
  Flow.ID (Flow.RemoveNode nodeID f w).1.2 = Flow.ID f /\
  Flow.Active (Flow.RemoveNode nodeID f w).1.2 = Flow.Active f.
Proof.
  rewrite RemoveNode_unfold. cbn. split; [done|]. split; [done|].
  split.
  { intros conn. rewrite <- avoids_eqb, !list_elem_of_In. apply filter_In. }
  split; [|done].
  induction (Flow.Connections f) as [|conn rest IH]; cbn; [constructor|].
  destruct (_ && _); [by constructor|by apply sublist_cons].
Qed.

Lemma NoDup_delete_ids (nodes : list Node.t) (i : nat) :
  NoDup (Node.ID <$> nodes) -> NoDup (Node.ID <$> delete i nodes).
Proof.
  intros H. eapply sublist_NoDup; [exact H|]. apply fmap_sublist, sublist_delete.
Qed.

Lemma elem_of_delete_ids (nodes : list Node.t) (i : nat) (node : Node.t) (k : string) :
  nodes !! i = Some node ->
  k ∈ (Node.ID <$> nodes) -> k <> Node.ID node -> k ∈ (Node.ID <$> delete i nodes).
Proof.
  intros Hi Hk Hne. apply list_elem_of_fmap in Hk as (n & -> & Hn).
  apply list_elem_of_fmap. exists n. split; [done|].
  apply list_elem_of_lookup in Hn as [j Hj].
  destruct (decide (j = i)) as [->|Hji]; [congruence|].
  apply list_elem_of_lookup.
  destruct (decide (j < i)%nat).
  - exists j. by rewrite list_lookup_delete_lt.
  - exists (j - 1)%nat. rewrite list_lookup_delete_ge by lia.
    by replace (S (j - 1)) with j by lia.
Qed.

Lemma not_elem_of_delete_ids (nodes : list Node.t) (i : nat) (node : Node.t) :
  NoDup (Node.ID <$> nodes) -> nodes !! i = Some node ->
  Node.ID node ∉ (Node.ID <$> delete i nodes).
Proof.
  intros Hnd Hi Hin.
  rewrite <- (take_drop_middle nodes i node Hi) in Hnd.
  rewrite delete_take_drop in Hin.
  rewrite fmap_app, fmap_cons in Hnd. rewrite fmap_app in Hin.
  apply NoDup_app in Hnd as (_ & Hdisj & Hnd2).
  apply NoDup_cons in Hnd2 as [Hnot _].
  apply elem_of_app in Hin as [Hin|Hin]; [|done].
  apply (Hdisj _ Hin). by left.
Qed.

(** X4.  On a flow that passes [Validate], [RemoveNode] leaves a flow that
    passes [Validate] again and in which [GetNode] no longer finds the id;
    every other id is found exactly when it was found before. *)
Theorem RemoveNode_keeps_valid (nodeID : string) (f : Flow.t) (w : World) :
  Flow.Validate f = None ->
  Flow.Validate (Flow.RemoveNode nodeID f w).1.2 = None /\
  Flow.GetNode (Flow.RemoveNode nodeID f w).1.2 nodeID = None /\
  forall k, k <> nodeID ->
    (is_Some (Flow.GetNode (Flow.RemoveNode nodeID f w).1.2 k) <->
     is_Some (Flow.GetNode f k)).
Proof.
  intros Hv. apply Validate_None in Hv as [Hnd Hconn].
  rewrite RemoveNode_unfold. cbn [fst snd].
  set (f' := Flow.set_UpdatedAt _ _).
  assert (Hids : node_ids f' =
            match Flow.GetNode f nodeID with
            | Some i => Node.ID <$> delete i (Flow.Nodes f)
            | None => node_ids f
            end).
  { subst f'. unfold node_ids. cbn. by destruct (Flow.GetNode f nodeID). }
  assert (Hother : forall k, k <> nodeID -> (k ∈ node_ids f' <-> k ∈ node_ids f)).
  { intros k Hk. rewrite Hids.
    destruct (Flow.GetNode f nodeID) as [i|] eqn:Hg; [|done].
    apply GetNode_Some_iff in Hg as (node & Hi & Hid & _).
    split.
    - intros Hin. apply list_elem_of_fmap in Hin as (n & -> & Hn).
      apply list_elem_of_fmap. exists n. split; [done|].
      eapply elem_of_sublist; [exact Hn|apply sublist_delete].
    - intros Hin. apply (elem_of_delete_ids _ _ node); [done|done|congruence]. }
  assert (Hgone : nodeID ∉ node_ids f').
  { rewrite Hids. destruct (Flow.GetNode f nodeID) as [i|] eqn:Hg.
    - apply GetNode_Some_iff in Hg as (node & Hi & <- & _).
      by apply not_elem_of_delete_ids.
    - by apply GetNode_None_iff. }
  split.
  - apply Validate_None. split.
    + rewrite Hids. destruct (Flow.GetNode f nodeID); [|done].
      by apply NoDup_delete_ids.
    + intros conn Hin. subst f'. cbn in Hin.
      apply list_elem_of_In, filter_In in Hin as [Hin Hav].
      apply list_elem_of_In in Hin. apply avoids_eqb in Hav as [Hs Ht].
      destruct (Hconn conn Hin) as [Hs' Ht'].
      split; by apply Hother.
  - split; [by apply GetNode_None_iff|].
    intros k Hk. rewrite !GetNode_is_Some. by apply Hother.
Qed.

Lemma AddNode_unfold (node : Node.t) (f : Flow.t) (w : World) :
  Flow.Nodes (Flow.AddNode node f w).1 = Flow.Nodes f ++ [node] /\
  Flow.Connections (Flow.AddNode node f w).1 = Flow.Connections f.
Proof. done. Qed.

(** X5.  [AddNode] does not look at the id of the node it appends.  On a
    flow that passes [Validate], the flow with the added node passes again
    exactly when [GetNode] did not find the new node's id before; the node is
    then found at the last position. *)
Theorem AddNode_valid_iff_new_id (node : Node.t) (f : Flow.t) (w : World) :
  Flow.Validate f = None ->
  (Flow.Validate (Flow.AddNode node f w).1 = None <->
   Flow.GetNode f (Node.ID node) = None) /\
  (Flow.GetNode f (Node.ID node) = None ->
   Flow.GetNode (Flow.AddNode node f w).1 (Node.ID node) =
     Some (length (Flow.Nodes f))).
Proof.
  intros Hv. apply Validate_None in Hv as [Hnd Hconn].
  destruct (AddNode_unfold node f w) as [Hn Hc].
  assert (Hids : node_ids (Flow.AddNode node f w).1 = node_ids f ++ [Node.ID node]).
  { unfold node_ids. by rewrite Hn, fmap_app. }
  split.
  - rewrite Validate_None, Hids, Hc, GetNode_None_iff.
    split.
    + intros [Hnd' _]. apply NoDup_app in Hnd' as (_ & Hdisj & _).
      intros Hin. apply (Hdisj _ Hin). by left.
    + intros Hnew. split.
      * apply NoDup_app. split; [done|]. split; [|apply NoDup_singleton].
        intros k Hk Hk'. apply list_elem_of_singleton in Hk'. by subst.
      * intros conn Hin. destruct (Hconn conn Hin) as [Hs Ht].
        split; apply elem_of_app; by left.
  - intros Hnone. apply GetNode_Some_iff.
    exists node. rewrite Hn. split; [by apply list_lookup_middle|].
    split; [done|]. intros j node' Hlt Hj.
    rewrite lookup_app_l in Hj by done.
    apply GetNode_None_iff in Hnone.
    intros Heq. apply Hnone. unfold node_ids. rewrite <- Heq.
    apply list_elem_of_fmap. exists node'. split; [done|].
    by eapply list_elem_of_lookup_2.
Qed.

(** X6.  [AddConnection] does not look at the ends of the connection it
    appends.  On a flow that passes [Validate], the flow with the added
    connection passes again exactly when [GetNode] finds both the source id
    and the target id. *)
Theorem AddConnection_valid_iff_ends_exist (conn : Connection.t) (f : Flow.t)
    (w : World) :
  Flow.Validate f = None ->
  (Flow.Validate (Flow.AddConnection conn f w).1 = None <->
   is_Some (Flow.GetNode f (Connection.Source conn)) /\
   is_Some (Flow.GetNode f (Connection.Target conn))).
Proof.
  intros Hv. apply Validate_None in Hv as [Hnd Hconn].
  rewrite !GetNode_is_Some, Validate_None.
  change (node_ids (Flow.AddConnection conn f w).1) with (node_ids f).
  change (Flow.Connections (Flow.AddConnection conn f w).1)
    with (Flow.Connections f ++ [conn]).
  split.
  - intros [_ H]. apply H, elem_of_app. right. by left.
  - intros Hends. split; [done|]. intros c Hin.
    apply elem_of_app in Hin as [Hin|Hin]; [by apply Hconn|].
    apply list_elem_of_singleton in Hin. by subst.
Qed.

(** ** The registry *)

Lemma well_keyed_NewRegistry : well_keyed Registry.NewRegistry.
Proof. intros k factory H. cbn in H. by rewrite lookup_empty in H. Qed.

Lemma well_keyed_Register (factory : BlockFactory.t) (r : Registry.t) :
  well_keyed r -> well_keyed (Registry.Register factory r).
Proof.
  intros Hr k f H. cbn in H.
  destruct (decide (k = BlockInfo.Type_ (BlockFactory.GetBlockInfo factory))) as [->|Hne].
  - rewrite lookup_insert_eq in H. by inversion H.
  - rewrite lookup_insert_ne in H by done. by apply Hr.
Qed.

(** X7.  After [Register], [CreateBlock] and [GetBlockInfoByType] for the
    type named by the factory's metadata answer with that factory's block and
    metadata, whatever was registered under the type before; for every other
    type they answer as before; and every factory stays filed under the type
    its metadata names. *)
Theorem Register_then_lookup (factory : BlockFactory.t) (r : Registry.t) :
  Registry.CreateBlock (Registry.Register factory r)
    (BlockInfo.Type_ (BlockFactory.GetBlockInfo factory)) =
    Ok (BlockFactory.CreateBlock factory) /\
  Registry.GetBlockInfoByType (Registry.Register factory r)
    (BlockInfo.Type_ (BlockFactory.GetBlockInfo factory)) =
    Ok (BlockFactory.GetBlockInfo factory) /\
  (forall blockType,
     blockType <> BlockInfo.Type_ (BlockFactory.GetBlockInfo factory) ->
     Registry.CreateBlock (Registry.Register factory r) blockType =
       Registry.CreateBlock r blockType /\
     Registry.GetBlockInfoByType (Registry.Register factory r) blockType =
       Registry.GetBlockInfoByType r blockType) /\
  (well_keyed r -> well_keyed (Registry.Register factory r)).
Proof.
  unfold Registry.CreateBlock, Registry.GetBlockInfoByType, Registry.Register.
  cbn [Registry.blocks]. rewrite lookup_insert_eq.
  split; [reflexivity|]. split; [reflexivity|]. split.
  - intros blockType Hne. by rewrite lookup_insert_ne.
  - apply well_keyed_Register.
Qed.

(** X8.  [GetBlockTypes] lists every registered type once, and exactly the
    types for which [CreateBlock] and [GetBlockInfoByType] succeed; it is as
    long as the list [GetBlockInfo] returns.  For any other type both lookups
    fail with the error that names the type. *)
Theorem GetBlockTypes_lists_registered (r : Registry.t) :
  NoDup (Registry.GetBlockTypes r) /\
  length (Registry.GetBlockTypes r) = length (Registry.GetBlockInfo r) /\
  (forall blockType,
     blockType ∈ Registry.GetBlockTypes r <->
     exists block, Registry.CreateBlock r blockType = Ok block) /\
  (forall blockType,
     blockType ∈ Registry.GetBlockTypes r <->
     exists info, Registry.GetBlockInfoByType r blockType = Ok info) /\
  (forall blockType,
     blockType ∉ Registry.GetBlockTypes r ->
     Registry.CreateBlock r blockType =
       Err ("block error [" +:+ blockType +:+ "]: unknown block type") /\
     Registry.GetBlockInfoByType r blockType =
       Err ("block error [" +:+ blockType +:+ "]: unknown block type")).
Proof.
  unfold Registry.GetBlockTypes, Registry.GetBlockInfo.
  assert (Hin : forall blockType,
            blockType ∈ (map_to_list (Registry.blocks r)).*1 <->
            is_Some (Registry.blocks r !! blockType)).
  { intros blockType. rewrite list_elem_of_fmap. split.
    - intros ([k f] & -> & Hkf). apply elem_of_map_to_list in Hkf. by eauto.
    - intros [f Hf]. exists (blockType, f). split; [done|].
      by apply elem_of_map_to_list. }
  split; [apply NoDup_fst_map_to_list|].
  split; [by rewrite !length_fmap|].
  unfold Registry.CreateBlock, Registry.GetBlockInfoByType, Registry.BlockError.
  split; [|split].
  - intros blockType. rewrite Hin.
    destruct (Registry.blocks r !! blockType) as [f|]; split.
    + intros _. by eauto.
    + by eauto.
    + by intros [? ?].
    + by intros [? ?].
  - intros blockType. rewrite Hin.
    destruct (Registry.blocks r !! blockType) as [f|]; split.
    + intros _. by eauto.
    + by eauto.
    + by intros [? ?].
    + by intros [? ?].
  - intros blockType Hout. rewrite Hin in Hout.
    destruct (Registry.blocks r !! blockType) as [f|]; [|done].
    exfalso. apply Hout. by eauto.
Qed.

Lemma GetBlockInfo_elem (r : Registry.t) (info : BlockInfo.t) :
  info ∈ Registry.GetBlockInfo r <->
  exists k factory, Registry.blocks r !! k = Some factory /\
    info = BlockFactory.GetBlockInfo factory.
Proof.
  unfold Registry.GetBlockInfo. rewrite list_elem_of_fmap. split.
  - intros ([k f] & -> & Hkf). apply elem_of_map_to_list in Hkf. by exists k, f.
  - intros (k & f & Hkf & ->). exists (k, f). split; [done|].
    by apply elem_of_map_to_list.
Qed.

(** The search of [runNode] for the metadata of a type, over any part of
    the registry's list. *)
Lemma find_type_spec (r : Registry.t) (ty : string) (infos : list BlockInfo.t) :
  well_keyed r ->
  (forall info, info ∈ infos -> info ∈ Registry.GetBlockInfo r) ->
  match List.find (fun info => String.eqb (BlockInfo.Type_ info) ty) infos with
  | Some info =>
      exists factory, Registry.blocks r !! ty = Some factory /\
        info = BlockFactory.GetBlockInfo factory
  | None => forall info, info ∈ infos -> BlockInfo.Type_ info <> ty
  end.
Proof.
  intros Hwk Hsub.
  destruct (List.find _ infos) as [info|] eqn:Efind.
  - apply find_some in Efind as [Hi Heq]. apply String.eqb_eq in Heq.
    apply list_elem_of_In, Hsub, GetBlockInfo_elem in Hi as (k & f & Hkf & ->).
    rewrite (Hwk _ _ Hkf) in Heq. subst k. by exists f.
  - intros info Hi Hty. apply list_elem_of_In in Hi.
    pose proof (find_none _ _ Efind _ Hi) as Hno. cbn in Hno.
    by rewrite Hty, String.eqb_refl in Hno.
Qed.

Lemma runNode_blockInfo_registered (r : Registry.t) (node : RuntimeNode.t)
    (factory : BlockFactory.t) :
  well_keyed r ->
  Registry.blocks r !! RuntimeNode.Type_ node = Some factory ->
  FlowExecutor.runNode_blockInfo r node = Some (BlockFactory.GetBlockInfo factory).
Proof.
  intros Hwk Hf. unfold FlowExecutor.runNode_blockInfo.
  assert (Hin : BlockFactory.GetBlockInfo factory ∈ Registry.GetBlockInfo r).
  { apply GetBlockInfo_elem. by exists (RuntimeNode.Type_ node), factory. }
  destruct (Registry.GetBlockInfo r) as [|first rest] eqn:El.
  { by apply elem_of_nil in Hin. }
  f_equal.
  pose proof (find_type_spec r (RuntimeNode.Type_ node) rest Hwk) as Hfind.
  destruct (List.find _ rest) as [info|]; cbn.
  - destruct Hfind as (f & Hkf & ->); [|congruence].
    intros info' Hi. rewrite El. by right.
  - apply elem_of_cons in Hin as [Hin|Hin]; [done|].
    exfalso. apply (Hfind (fun info Hi => eq_ind_r (fun l => info ∈ l)
                             (proj2 (elem_of_cons _ _ _) (or_intror Hi)) El)
                      _ Hin).
    by apply Hwk.
Qed.

(** In such a registry the metadata [runNode] picks is the one the loop of
    the source finds when it walks the whole list from its first entry. *)
Lemma runNode_blockInfo_whole_list (r : Registry.t) (node : RuntimeNode.t) :
  well_keyed r ->
  FlowExecutor.runNode_blockInfo r node =
  match Registry.GetBlockInfo r with
  | [] => None
  | first :: rest =>
      Some (default first
              (List.find (fun info => String.eqb (BlockInfo.Type_ info)
                                        (RuntimeNode.Type_ node)) (first :: rest)))
  end.
Proof.
  intros Hwk. unfold FlowExecutor.runNode_blockInfo.
  destruct (Registry.GetBlockInfo r) as [|first rest] eqn:El; [done|].
  f_equal. cbn [List.find].
  destruct (String.eqb_spec (BlockInfo.Type_ first) (RuntimeNode.Type_ node))
    as [Hty|Hty]; [|done].
  pose proof (find_type_spec r (RuntimeNode.Type_ node) rest Hwk) as Hfind.
  destruct (List.find _ rest) as [info|] eqn:Efind; [|done]. cbn.
  destruct Hfind as (f & Hkf & ->).
  { intros info' Hi. rewrite El. by right. }
  (* [first] and [info] both come from the entry filed under the type *)
  assert (Hnd : NoDup (BlockInfo.Type_ <$> Registry.GetBlockInfo r)).
  { unfold Registry.GetBlockInfo. rewrite <- list_fmap_compose.
    erewrite list_fmap_ext; [apply (NoDup_fst_map_to_list (Registry.blocks r))|].
    intros i [k f'] Hi. cbn. apply Hwk.
    apply elem_of_map_to_list. by eapply list_elem_of_lookup_2. }
  rewrite El, fmap_cons in Hnd. apply NoDup_cons in Hnd as [Hnot _].
  exfalso. apply Hnot. apply find_some in Efind as [Hi Heq].
  apply String.eqb_eq in Heq. rewrite Hty, <- Heq.
  apply list_elem_of_fmap. eexists. split; [done|]. by apply list_elem_of_In.
Qed.

(** X9.  In a registry where every factory is filed under the type its
    metadata names, [runNode] picks, for a node of a registered type, the
    metadata registered for that type, so the loop the worker enters is the
    one of the block group registered for the node's type, and entering
    changes nothing but the log.  For a node whose type is not registered it
    takes the first entry of the registry's list instead, another block's
    metadata; on an empty registry it panics.  In every case the result is
    what the source's loop over the whole list gives. *)
Theorem runNode_dispatches_on_registered_group (r : Registry.t)
    (node : RuntimeNode.t) (s : State) :
  well_keyed r ->
  (forall factory,
     Registry.blocks r !! RuntimeNode.Type_ node = Some factory ->
     exists s',
       FlowExecutor.runNode_enter r node s =
         Some (FlowExecutor.loop_of
                 (BlockInfo.BlockGroup_ (BlockFactory.GetBlockInfo factory)), s') /\
       chans s' = chans s /\ rflows s' = rflows s /\ goroutines s' = goroutines s /\
       flows s' = flows s /\ messages (world s') = messages (world s)) /\
  (Registry.blocks r !! RuntimeNode.Type_ node = None ->
   FlowExecutor.runNode_blockInfo r node = head (Registry.GetBlockInfo r) /\
   (Registry.blocks r = ∅ -> FlowExecutor.runNode_enter r node s = None)) /\
  FlowExecutor.runNode_blockInfo r node =
    match Registry.GetBlockInfo r with
    | [] => None
    | first :: rest =>
        Some (default first
                (List.find (fun info => String.eqb (BlockInfo.Type_ info)
                                          (RuntimeNode.Type_ node)) (first :: rest)))
    end.
Proof.
  intros Hwk. split; [|split; [|by apply runNode_blockInfo_whole_list]].
  - intros factory Hf. unfold FlowExecutor.runNode_enter.
    rewrite (runNode_blockInfo_registered r node factory Hwk Hf).
    eexists. split; [reflexivity|]. done.
  - intros Hnone. split.
    + unfold FlowExecutor.runNode_blockInfo.
      destruct (Registry.GetBlockInfo r) as [|first rest] eqn:El; [done|].
      pose proof (find_type_spec r (RuntimeNode.Type_ node) rest Hwk) as Hfind.
      destruct (List.find _ rest) as [info|]; [|done].
      destruct Hfind as (f & Hkf & _); [|congruence].
      intros info' Hi. rewrite El. by right.
    + intros Hempty. unfold FlowExecutor.runNode_enter, FlowExecutor.runNode_blockInfo,
        Registry.GetBlockInfo. by rewrite Hempty, map_to_list_empty.
Qed.

(** The registry of the sample installation is filed as [Register] files. *)
Lemma Sample_registry_well_keyed : well_keyed Sample.registry.
Proof.
  unfold Sample.registry.
  repeat apply well_keyed_Register. apply well_keyed_NewRegistry.
Qed.

(** The worker of a recorder node of the sample registry enters the Action
    loop. *)
Lemma runNode_dispatches_on_registered_group_witness :
  exists s',
    FlowExecutor.runNode_enter Sample.registry (Fanout.target "a" 0) Sample.state0 =
      Some (Some ActionLoop, s').
Proof.
  destruct (runNode_dispatches_on_registered_group Sample.registry
              (Fanout.target "a" 0) Sample.state0 Sample_registry_well_keyed)
    as [Hreg _].
  destruct (Hreg Sample.RecorderBlockFactory) as (s' & Hs' & _).
  - by vm_compute.
  - exists s'. exact Hs'.
Defined.

(** ** Messages and the execution context *)

(** X10.  [SetHeader] on a live message succeeds, also when the message has
    no header map yet; [GetHeader] then returns the value with the found flag
    for that key and answers as before for every other key.  The context
    entries, the identifier and the payload of the message stay, and no
    message is added. *)
Theorem SetHeader_then_GetHeader (w : World) (p : ptr) (m : Message.t)
    (key value : string) :
  messages w !! p = Some m ->
  maps_live w m ->
  exists w',
    SetHeader p key value w = Some w' /\
    GetHeader p key w' = Some (value, true) /\
    (forall k, k <> key -> GetHeader p k w' = GetHeader p k w) /\
    (forall k, GetContext p k w' = GetContext p k w) /\
    (exists m', messages w' !! p = Some m' /\
       Message.ID m' = Message.ID m /\ Message.Payload m' = Message.Payload m) /\
    length (messages w') = length (messages w).
Proof.
  intros Hp [Hlive _]. pose proof (lookup_lt_Some _ _ _ Hp) as Hlt.
  unfold SetHeader. rewrite Hp.
  destruct (Message.Headers m) as [l|] eqn:Hh.
  - destruct (Hlive l eq_refl) as [h Hl].
    eexists. split; [reflexivity|].
    unfold GetHeader, GetContext. cbn. rewrite Hp, Hh, Hl.
    rewrite list_lookup_alter_eq, Hl. cbn.
    split; [by rewrite lookup_insert_eq|].
    split; [intros k Hk; by rewrite lookup_insert_ne|].
    split; [done|]. split; [by exists m|done].
  - eexists. split; [reflexivity|].
    unfold GetHeader, GetContext, new_header_map. cbn. rewrite Hp, Hh.
    rewrite list_lookup_insert_eq by done. cbn.
    rewrite list_lookup_alter_eq, list_lookup_middle by done. cbn.
    split; [by rewrite lookup_insert_eq|].
    split; [intros k Hk; by rewrite lookup_insert_ne, lookup_empty|].
    split; [done|]. split; [by eexists|by rewrite length_insert].
Qed.

(** X11.  [SetContext] on a live message succeeds, also when the message
    has no context map yet; [GetContext] then returns the value with the
    found flag for that key and answers as before for every other key.  The
    headers, the identifier and the payload of the message stay, and no
    message is added. *)
Theorem SetContext_then_GetContext (w : World) (p : ptr) (m : Message.t)
    (key : string) (value : Value) :
  messages w !! p = Some m ->
  maps_live w m ->
  exists w',
    SetContext p key value w = Some w' /\
    GetContext p key w' = Some (value, true) /\
    (forall k, k <> key -> GetContext p k w' = GetContext p k w) /\
    (forall k, GetHeader p k w' = GetHeader p k w) /\
    (exists m', messages w' !! p = Some m' /\
       Message.ID m' = Message.ID m /\ Message.Payload m' = Message.Payload m) /\
    length (messages w') = length (messages w).
Proof.
  intros Hp [_ Hlive]. pose proof (lookup_lt_Some _ _ _ Hp) as Hlt.
  unfold SetContext. rewrite Hp.
  destruct (Message.Context m) as [l|] eqn:Hh.
  - destruct (Hlive l eq_refl) as [h Hl].
    eexists. split; [reflexivity|].
    unfold GetHeader, GetContext. cbn. rewrite Hp, Hh, Hl.
    rewrite list_lookup_alter_eq, Hl. cbn.
    split; [by rewrite lookup_insert_eq|].
    split; [intros k Hk; by rewrite lookup_insert_ne|].
    split; [done|]. split; [by exists m|done].
  - eexists. split; [reflexivity|].
    unfold GetHeader, GetContext, new_context_map. cbn. rewrite Hp, Hh.
    rewrite list_lookup_insert_eq by done. cbn.
    rewrite list_lookup_alter_eq, list_lookup_middle by done. cbn.
    split; [by rewrite lookup_insert_eq|].
    split; [intros k Hk; by rewrite lookup_insert_ne, lookup_empty|].
    split; [done|]. split; [by eexists|by rewrite length_insert].
Qed.

(** X12.  [NewMessage] allocates a message at an address that was not in
    use, with the next identifier [generateID] makes, the given payload,
    empty topic, source and target, and two newly made maps that no earlier
    message can point to: every header and every context key reads as
    absent.  The messages that existed are unchanged and nothing is logged. *)
Theorem NewMessage_fresh_empty (payload : Value) (w : World) :
  messages w !! (NewMessage payload w).1 = None /\
  (exists m,
     messages (NewMessage payload w).2 = messages w ++ [m] /\
     messages (NewMessage payload w).2 !! (NewMessage payload w).1 = Some m /\
     Message.ID m = (generateID w).1 /\
     Message.Payload m = payload /\
     Message.Topic m = "" /\ Message.Source m = "" /\ Message.Target m = "" /\
     maps_live (NewMessage payload w).2 m /\
     (forall l, Message.Headers m = Some l -> header_maps w !! l = None) /\
     (forall l, Message.Context m = Some l -> context_maps w !! l = None)) /\
  (forall k, GetHeader (NewMessage payload w).1 k (NewMessage payload w).2 =
             Some ("", false)) /\
  (forall k, GetContext (NewMessage payload w).1 k (NewMessage payload w).2 =
             Some (VNil, false)) /\
  log (NewMessage payload w).2 = log w.
Proof.
  unfold NewMessage.
  destruct (generateID_frame w) as (_ & Hm & Hh & Hc & Hl).
  destruct (generateID w) as [id w1]. cbn [fst snd] in *.
  unfold new_header_map, Now, new_context_map, new_message, GetHeader, GetContext.
  cbn. rewrite Hm, Hh, Hc, Hl.
  split; [by apply lookup_ge_None_2|].
  split.
  { eexists. split; [reflexivity|]. split; [by apply list_lookup_middle|].
    cbn. repeat (split; [reflexivity|]).
    split; [split; intros l [= <-]; cbn; rewrite list_lookup_middle; by eauto|].
    split; intros l [= <-]; by apply lookup_ge_None_2. }
  rewrite list_lookup_middle by done. cbn.
  rewrite !list_lookup_middle by done. cbn.
  split; [intros k; by rewrite lookup_empty|].
  split; [intros k; by rewrite lookup_empty|done].
Qed.

(** X13.  The context [NewBlockExecutionContext] builds has a state store of
    its own: every key reads as absent at first; [SetState] succeeds, and
    [GetState] then returns the value with the found flag for that key and
    absent for the others; no message and no map that existed before is
    changed by it. *)
Theorem NewBlockExecutionContext_state_round_trip (ctx : option nat)
    (nodeID flowID : string) (msg : option ptr) (logger : option BlockLogger)
    (w : World) (key : string) (value : Value) :
  (forall k,
     GetState (NewBlockExecutionContext ctx nodeID flowID msg logger w).1 k
       (NewBlockExecutionContext ctx nodeID flowID msg logger w).2 = (VNil, false)) /\
  exists w2,
    SetState (NewBlockExecutionContext ctx nodeID flowID msg logger w).1 key value
      (NewBlockExecutionContext ctx nodeID flowID msg logger w).2 = Some w2 /\
    GetState (NewBlockExecutionContext ctx nodeID flowID msg logger w).1 key w2 =
      (value, true) /\
    (forall k, k <> key ->
       GetState (NewBlockExecutionContext ctx nodeID flowID msg logger w).1 k w2 =
         (VNil, false)) /\
    messages w2 = messages w /\
    header_maps w2 = header_maps w /\
    (forall l, (l < length (context_maps w))%nat ->
       context_maps w2 !! l = context_maps w !! l).
Proof.
  unfold NewBlockExecutionContext, new_context_map, Now, SetState, GetState. cbn.
  split.
  { intros k. rewrite list_lookup_middle by done. cbn. by rewrite lookup_empty. }
  eexists. split; [reflexivity|]. cbn.
  rewrite list_lookup_alter_eq, list_lookup_middle by done. cbn.
  split; [by rewrite lookup_insert_eq|].
  split; [intros k Hk; by rewrite lookup_insert_ne, lookup_empty|].
  split; [done|]. split; [done|].
  intros l Hl. rewrite list_lookup_alter_ne by lia. by rewrite lookup_app_l.
Qed.

(** [SetHeader] and [GetHeader] on the message [NewMessage] made in the
    empty world. *)
Lemma SetHeader_then_GetHeader_witness :
  exists w',
    SetHeader 0 "k" "v" (NewMessage (VInt 5) Sample.world0).2 = Some w' /\
    GetHeader 0 "k" w' = Some ("v", true).
Proof.
  destruct (SetHeader_then_GetHeader (NewMessage (VInt 5) Sample.world0).2 0
              {| Message.ID := "00000000000000000000000000000000";
                 Message.Payload := VInt 5; Message.Topic := "";
                 Message.Headers := Some 0%nat;
                 Message.Timestamp := 1700000000000000000;
                 Message.Source := ""; Message.Target := "";
                 Message.Context := Some 0%nat |} "k" "v")
    as (w' & Hset & Hget & _).
  - reflexivity.
  - split; intros l [= <-]; vm_compute; eauto.
  - exists w'. split; [exact Hset|exact Hget].
Defined.

(** [SetContext] and [GetContext] on the message [NewMessage] made in the
    empty world. *)
Lemma SetContext_then_GetContext_witness :
  exists w',
    SetContext 0 "k" (VBool true) (NewMessage (VInt 5) Sample.world0).2 = Some w' /\
    GetContext 0 "k" w' = Some (VBool true, true).
Proof.
  destruct (SetContext_then_GetContext (NewMessage (VInt 5) Sample.world0).2 0
              {| Message.ID := "00000000000000000000000000000000";
                 Message.Payload := VInt 5; Message.Topic := "";
                 Message.Headers := Some 0%nat;
                 Message.Timestamp := 1700000000000000000;
                 Message.Source := ""; Message.Target := "";
                 Message.Context := Some 0%nat |} "k" (VBool true))
    as (w' & Hset & Hget & _).
  - reflexivity.
  - split; intros l [= <-]; vm_compute; eauto.
  - exists w'. split; [exact Hset|exact Hget].
Defined.

(** ** The inject block *)

(** What [NewMessage] builds, store by store. *)
Lemma NewMessage_unfold (payload : Value) (w : World) :
  exists now,
    (NewMessage payload w).1 = length (messages w) /\
    messages (NewMessage payload w).2 =
      messages w ++
        [ {| Message.ID := (generateID w).1; Message.Payload := payload;
             Message.Topic := ""; Message.Headers := Some (length (header_maps w));
             Message.Timestamp := now; Message.Source := ""; Message.Target := "";
             Message.Context := Some (length (context_maps w)) |} ] /\
    header_maps (NewMessage payload w).2 = header_maps w ++ [∅] /\
    context_maps (NewMessage payload w).2 = context_maps w ++ [∅] /\
    log (NewMessage payload w).2 = log w.
Proof.
  unfold NewMessage.
  destruct (generateID_frame w) as (_ & Hm & Hh & Hc & Hl).
  destruct (generateID w) as [id w1]. cbn [fst snd] in *.
  unfold new_header_map, Now, new_context_map, new_message. cbn.
  rewrite Hm, Hh, Hc, Hl. by eexists.
Qed.

Lemma InjectBlock_Execute_Ok (ParseFloat : string -> result Value)
    (ctx : BlockExecutionContext.t) (properties : gmap string Value) (w : World)
    (payloadType : string) (payload : Value) :
  BlockExecutionContext.Logger ctx = Some LoggerAdapter ->
  payloadType = (if String.eqb (as_string (properties !! "payloadType")) ""
                 then "number" else as_string (properties !! "payloadType")) ->
  InjectBlock_payload ParseFloat payloadType (as_string (properties !! "payload"))
    = Ok payload ->
  exists m w',
    InjectBlock_Execute ParseFloat ctx properties w =
      Some (Ok [Some (length (messages w))], w') /\
    messages w' = messages w ++ [m] /\
    Message.Payload m = payload /\
    Message.Topic m = as_string (properties !! "topic") /\
    Message.Source m = BlockExecutionContext.NodeID ctx /\
    Message.ID m = (generateID w).1 /\
    (forall k, GetHeader (length (messages w)) k w' = Some ("", false)) /\
    log w' =
      log w ++ [ {| level := DEBUG; text := "Inject block executed";
                    fields := [("payload", payload);
                               ("payload_type", VStr payloadType);
                               ("topic", VStr (as_string (properties !! "topic")))] |} ].
Proof.
  intros Hlog -> Hpay. unfold InjectBlock_Execute. rewrite Hpay, Hlog.
  destruct (NewMessage_unfold payload w) as (now & Hp & Hm & Hh & Hc & Hl).
  destruct (NewMessage payload w) as [p w1]. cbn [fst snd] in *. subst p.
  eexists _, _. split; [reflexivity|].
  unfold GetHeader, update_message, logf. cbn. rewrite Hm, Hh, Hl.
  rewrite alter_app_r_alt by done. rewrite Nat.sub_diag. cbn.
  split; [reflexivity|]. repeat (split; [reflexivity|]).
  split; [|reflexivity].
  intros k. rewrite list_lookup_middle by done. cbn.
  rewrite list_lookup_middle by done. cbn. by rewrite lookup_empty.
Qed.

(** X14.  With a logger in its context, [InjectBlock.Execute] either fails
    and leaves the world as it was, or returns exactly one message: a newly
    allocated one with the converted payload, the topic property as topic,
    the node id of the context as source and no header, and it logs one debug
    entry.  A payload type other than "number" and "boolean" never fails and
    passes the payload property on as a string (the empty string when the
    property is missing or is no string: [Validate] is not consulted); with
    "boolean" it fails exactly when [ParseBool] rejects the payload. *)
Theorem InjectBlock_Execute_one_message (ParseFloat : string -> result Value)
    (ctx : BlockExecutionContext.t) (properties : gmap string Value) (w : World) :
  BlockExecutionContext.Logger ctx = Some LoggerAdapter ->
  ((exists e, InjectBlock_Execute ParseFloat ctx properties w = Some (Err e, w)) \/
   (exists m w',
      InjectBlock_Execute ParseFloat ctx properties w =
        Some (Ok [Some (length (messages w))], w') /\
      messages w' = messages w ++ [m] /\
      Message.Topic m = as_string (properties !! "topic") /\
      Message.Source m = BlockExecutionContext.NodeID ctx /\
      (forall k, GetHeader (length (messages w)) k w' = Some ("", false)) /\
      exists entry, log w' = log w ++ [entry] /\ level entry = DEBUG)) /\
  (forall payloadType,
     as_string (properties !! "payloadType") = payloadType ->
     payloadType <> "" -> payloadType <> "number" -> payloadType <> "boolean" ->
     exists m w',
       InjectBlock_Execute ParseFloat ctx properties w =
         Some (Ok [Some (length (messages w))], w') /\
       messages w' = messages w ++ [m] /\
       Message.Payload m = VStr (as_string (properties !! "payload"))) /\
  (as_string (properties !! "payloadType") = "boolean" ->
   match strconv.ParseBool (as_string (properties !! "payload")) with
   | Ok b =>
       exists m w',
         InjectBlock_Execute ParseFloat ctx properties w =
           Some (Ok [Some (length (messages w))], w') /\
         messages w' = messages w ++ [m] /\ Message.Payload m = VBool b
   | Err e =>
       InjectBlock_Execute ParseFloat ctx properties w =
         Some (Err ("failed to parse payload as boolean: " +:+ e), w)
   end).
Proof.
  intros Hlog. split; [|split].
  - destruct (InjectBlock_payload ParseFloat
                (if String.eqb (as_string (properties !! "payloadType")) ""
                 then "number" else as_string (properties !! "payloadType"))
                (as_string (properties !! "payload"))) as [payload|e] eqn:Hpay.
    + right.
      destruct (InjectBlock_Execute_Ok ParseFloat ctx properties w _ payload Hlog
                  eq_refl Hpay)
        as (m & w' & Hrun & Hm & _ & Htopic & Hsrc & _ & Hhdr & Hl).
      exists m, w'. split; [exact Hrun|]. split; [exact Hm|].
      split; [exact Htopic|]. split; [exact Hsrc|]. split; [exact Hhdr|].
      eexists. split; [exact Hl|reflexivity].
    + left. exists e. unfold InjectBlock_Execute. by rewrite Hpay.
  - intros payloadType Hty Hne Hnum Hbool.
    destruct (InjectBlock_Execute_Ok ParseFloat ctx properties w payloadType
                (VStr (as_string (properties !! "payload"))) Hlog)
      as (m & w' & Hrun & Hm & Hpay & _).
    + rewrite Hty. by destruct (String.eqb_spec payloadType "").
    + unfold InjectBlock_payload.
      destruct (String.eqb_spec payloadType "number"); [done|].
      by destruct (String.eqb_spec payloadType "boolean").
    + by exists m, w'.
  - intros Hty.
    destruct (strconv.ParseBool (as_string (properties !! "payload")))
      as [b|e] eqn:Hb.
    + destruct (InjectBlock_Execute_Ok ParseFloat ctx properties w "boolean"
                  (VBool b) Hlog)
        as (m & w' & Hrun & Hm & Hpay & _).
      * by rewrite Hty.
      * unfold InjectBlock_payload. cbn. by rewrite Hb.
      * by exists m, w'.
    + unfold InjectBlock_Execute. rewrite Hty. cbn [String.eqb Ascii.eqb Bool.eqb].
      unfold InjectBlock_payload. cbn. by rewrite Hb.
Qed.

(** The inject block of the sample registry, run with the context a worker
    builds and a string payload. *)
Lemma InjectBlock_Execute_one_message_witness :
  exists m w',
    InjectBlock_Execute Sample.ParseFloat (FlowExecutor.worker_context Fanout.source None)
      (<["payloadType" := VStr "string"]> (<["payload" := VStr "hi"]> ∅)) Sample.world0 =
      Some (Ok [Some 0%nat], w') /\
    messages w' = [m] /\ Message.Payload m = VStr "hi".
Proof.
  destruct (InjectBlock_Execute_one_message Sample.ParseFloat
              (FlowExecutor.worker_context Fanout.source None)
              (<["payloadType" := VStr "string"]> (<["payload" := VStr "hi"]> ∅))
              Sample.world0 eq_refl) as (_ & Hstr & _).
  destruct (Hstr "string") as (m & w' & Hrun & Hm & Hpay); try done.
  exists m, w'. split; [exact Hrun|]. split; [exact Hm|exact Hpay].
Defined.

(** ** The engine and its workers *)

(** *** What preparing and starting build *)

Lemma ValidateFlow_None_wired (registry : Registry.t) (flow : Flow.t) :
  FlowExecutor.ValidateFlow registry (Some flow) = None ->
  forall conn, conn ∈ Flow.Connections flow ->
    Connection.Source conn ∈ node_ids flow /\ Connection.Target conn ∈ node_ids flow.
Proof.
  unfold FlowExecutor.ValidateFlow. case_bool_decide as Hlen; [done|].
  destruct (FlowExecutor.check_block_types registry (Flow.Nodes flow)); [done|].
  intros Hw conn Hin.
  pose proof (check_wiring_Some (FlowExecutor.build_nodeMap (Flow.Nodes flow))
                (Flow.Connections flow)) as Hs.
  rewrite Hw in Hs.
  assert (Hok : ~ miswired (FlowExecutor.build_nodeMap (Flow.Nodes flow)) conn).
  { intros Hm. destruct (proj2 Hs) as [? [=]]. by exists conn. }
  assert (Hid : forall id,
            FlowExecutor.build_nodeMap (Flow.Nodes flow) !! id <> None ->
            id ∈ node_ids flow).
  { intros id Hne. rewrite build_nodeMap_lookup in Hne.
    destruct (declared_node flow id) as [node|] eqn:E; [|done].
    apply declared_node_Some in E as [Hn <-].
    apply list_elem_of_fmap. by exists node. }
  split; apply Hid; intros Hnone; apply Hok.
  - by left.
  - right. by left.
Qed.

Lemma output_connections_elem (id t : string) (conns : list Connection.t) :
  t ∈ FlowExecutor.output_connections id conns <->
  exists conn, conn ∈ conns /\ Connection.Source conn = id /\
    Connection.Target conn = t.
Proof.
  induction conns as [|conn rest IH]; cbn.
  - split; [intros H; by apply elem_of_nil in H|].
    intros (c & Hc & _). by apply elem_of_nil in Hc.
  - destruct (String.eqb_spec (Connection.Source conn) id) as [Heq|Hne].
    + rewrite elem_of_cons, IH. split.
      * intros [->|(c & Hc & Hs & Ht)].
        -- exists conn. split; [by left|done].
        -- exists c. split; [by right|done].
      * intros (c & Hc & Hs & Ht). apply elem_of_cons in Hc as [->|Hc]; [by left|].
        right. by exists c.
    + rewrite IH. split.
      * intros (c & Hc & Hs & Ht). exists c. split; [by right|done].
      * intros (c & Hc & Hs & Ht). apply elem_of_cons in Hc as [->|Hc]; [done|].
        by exists c.
Qed.

Lemma made_by_mono (registry : Registry.t) (self : ptr) (conns : list Connection.t)
    (lo hi lo' hi' : nat) (id : string) (rn : RuntimeNode.t) :
  (lo' <= lo)%nat -> (hi <= hi')%nat ->
  made_by registry self conns lo hi id rn -> made_by registry self conns lo' hi' id rn.
Proof. unfold made_by. intros ? ? (? & ? & ? & ? & ? & ? & ?). repeat split; try done; lia. Qed.

(** Every runtime node the loop of [PrepareFlow] leaves in the map was there
    before or was made by it, with channels made on the way. *)
Lemma create_runtime_nodes_made (registry : Registry.t) (self : ptr)
    (conns : list Connection.t) (todo : list Node.t) :
  forall (acc : gmap string RuntimeNode.t) (s : State) nodes s',
  FlowExecutor.create_runtime_nodes registry self conns todo acc s = (Ok nodes, s') ->
  (length (chans s) <= length (chans s'))%nat /\
  forall id rn, nodes !! id = Some rn ->
    acc !! id = Some rn \/
    (made_by registry self conns (length (chans s)) (length (chans s')) id rn /\
     id ∈ (Node.ID <$> todo)).
Proof.
  induction todo as [|node rest IH]; intros acc s nodes s' Hrun.
  - cbn in Hrun. inversion Hrun; subst. split; [done|]. intros id rn H. by left.
  - cbn [FlowExecutor.create_runtime_nodes] in Hrun.
    unfold Registry.CreateBlock, Registry.GetBlockInfoByType in Hrun.
    destruct (Registry.blocks registry !! Node.Type_ node) as [factory|] eqn:Hf;
      [|done].
    rewrite !make_chan_spec in Hrun. cbn [fst snd chans set_chans] in Hrun.
    destruct (IH _ _ _ _ Hrun) as [Hlen Hnodes]. clear IH Hrun.
    cbn [chans slog set_world set_chans] in Hlen, Hnodes.
    rewrite !length_app in Hlen, Hnodes. cbn [length] in Hlen, Hnodes.
    split; [lia|]. intros id rn Hid.
    destruct (Hnodes id rn Hid) as [Hacc|[Hmade Hin]].
    + destruct (decide (id = Node.ID node)) as [->|Hne].
      * rewrite lookup_insert_eq in Hacc. inversion Hacc; subst rn. right.
        split; [|rewrite fmap_cons; by left].
        unfold made_by. cbn. rewrite Hf.
        split; [done|]. split; [done|]. split; [by eauto|]. split; [done|].
        rewrite ?length_app. cbn [length]. lia.
      * rewrite lookup_insert_ne in Hacc by done. by left.
    + right. split; [|rewrite fmap_cons; by right].
      eapply made_by_mono; [| |exact Hmade]; rewrite ?length_app; cbn [length]; lia.
Qed.

(** What [PrepareAndStartFlow] leaves of a flow that [ValidateFlow]
    accepts. *)
Lemma PrepareAndStartFlow_result (registry : Registry.t) (flow : Flow.t) (s : State) :
  FlowExecutor.ValidateFlow registry (Some flow) = None ->
  exists nodes s',
    FlowExecutor.PrepareAndStartFlow registry (Some flow) s = (Nil, s') /\
    (exists extra, chans s' = chans s ++ fresh_chan 0 :: extra /\
       Forall (fun ch => buf ch = [] /\ closed ch = false) extra) /\
    rflows s' =
      rflows s ++
        [RuntimeFlow.mk (Flow.ID flow) (Flow.Name flow) nodes (Flow.Connections flow)
           (length (chans s)) (Z.of_nat (length (map_to_list nodes))) true] /\
    goroutines s' =
      goroutines s ++ (FlowExecutor.spawn (length (rflows s)) <$> (map_to_list nodes).*2) /\
    flows s' = <[Flow.ID flow := length (rflows s)]> (flows s) /\
    messages (world s') = messages (world s) /\
    (forall node, node ∈ Flow.Nodes flow -> is_Some (nodes !! Node.ID node)) /\
    (forall id rn, nodes !! id = Some rn ->
       made_by registry (length (rflows s)) (Flow.Connections flow)
         (S (length (chans s))) (length (chans s')) id rn /\
       id ∈ node_ids flow).
Proof.
  intros Hv. destruct (ValidateFlow_None_registered _ _ Hv) as [_ Hreg].
  destruct (PrepareFlow_unfold registry flow s Hv)
    as (nodes & s2 & Hrun & Hrf & Hg & Hfl & Hprep).
  destruct (create_runtime_nodes_ok registry (length (rflows s))
              (Flow.Connections flow) (Flow.Nodes flow) ∅
              (set_chans (chans s ++ [fresh_chan 0]) s) Hreg)
    as (nodes' & s2' & Hrun' & _ & _ & _ & _ & _ & Hin & _).
  rewrite Hrun in Hrun'. inversion Hrun'; subst nodes' s2'. clear Hrun'.
  pose proof (create_runtime_nodes_frame registry (length (rflows s))
                (Flow.Connections flow) (Flow.Nodes flow) ∅
                (set_chans (chans s ++ [fresh_chan 0]) s)) as Hframe.
  cbn zeta in Hframe. rewrite Hrun in Hframe. cbn [snd] in Hframe.
  destruct Hframe as ((extra & Hch & Hex) & Hm & _).
  cbn [chans set_chans world] in Hch, Hm.
  destruct (create_runtime_nodes_made _ _ _ _ _ _ _ _ Hrun) as [_ Hmade].
  cbn [chans set_chans] in Hmade.
  unfold FlowExecutor.PrepareAndStartFlow. rewrite Hprep.
  unfold FlowExecutor.StartFlow. cbn [flows set_flows set_rflows rflows].
  rewrite lookup_insert_eq, Hrf, list_lookup_middle by done.
  cbn [RuntimeFlow.Running].
  exists nodes. eexists. split; [reflexivity|]. cbn.
  split.
  { exists extra. split; [|done]. by rewrite Hch, <- app_assoc. }
  split.
  { rewrite insert_app_r_alt by done. rewrite Nat.sub_diag. cbn.
    by rewrite !length_fmap. }
  split; [by rewrite ?Hg|]. split; [by rewrite ?Hfl|]. split; [done|].
  split; [exact Hin|].
  intros id rn Hid. destruct (Hmade id rn Hid) as [Hemp|[Hm' Hi]].
  - by rewrite lookup_empty in Hemp.
  - split; [|exact Hi]. rewrite length_app in Hm'. cbn in Hm'.
    eapply made_by_mono; [| |exact Hm']; lia.
Qed.

(** *** How the invariants carry over *)

Lemma shape_kept_lookup (s s' : State) (a : ptr) (rf : RuntimeFlow.t) :
  shape_kept s s' -> rflows s !! a = Some rf ->
  exists rf', rflows s' !! a = Some rf' /\
    RuntimeFlow.Nodes rf' = RuntimeFlow.Nodes rf /\
    RuntimeFlow.StopChan rf' = RuntimeFlow.StopChan rf.
Proof.
  intros [Hlen Hk] Hrf.
  destruct (lookup_lt_is_Some_2 (rflows s') a) as [rf' Hrf'].
  { rewrite Hlen. by eapply lookup_lt_Some. }
  destruct (Hk a rf' Hrf') as (rf0 & Hrf0 & Hn & Hs).
  exists rf'. split; [done|]. by assert (rf0 = rf) as <- by congruence.
Qed.

Lemma wired_transfer (r : Registry.t) (s s' : State) :
  wired r s ->
  (forall id a, flows s' !! id = Some a -> flows s !! id = Some a) ->
  (forall wk, wk ∈ goroutines s' ->
     exists wk0, wk0 ∈ goroutines s /\ wk_flow wk = wk_flow wk0 /\
       wk_node wk = wk_node wk0) ->
  shape_kept s s' -> chans_kept s s' -> wired r s'.
Proof.
  intros Hw Hfl Hgo Hsh [Hclen Hch]. pose proof Hsh as [Hrlen Hrf].
  constructor.
  - intros id a Hid. apply Hfl in Hid. apply (wired_flows _ _ Hw) in Hid.
    apply lookup_lt_is_Some. rewrite Hrlen. by apply lookup_lt_is_Some.
  - intros a rf' Ha. destruct (Hrf a rf' Ha) as (rf & Hrf0 & _ & ->).
    rewrite Hclen. by eapply (wired_stop _ _ Hw).
  - intros a a' rf1 rf2 H1 H2 Heq.
    destruct (Hrf _ _ H1) as (rf1' & H1' & _ & E1).
    destruct (Hrf _ _ H2) as (rf2' & H2' & _ & E2).
    eapply (wired_stop_inj _ _ Hw); [exact H1'|exact H2'|congruence].
  - intros a rf' id rn Ha Hid.
    destruct (Hrf _ _ Ha) as (rf & Ha' & En & Es). rewrite En in Hid.
    destruct (wired_nodes _ _ Hw a rf id rn Ha' Hid)
      as (H1 & H2 & H3 & H4 & H5 & H6 & H7).
    split; [done|]. split; [done|]. split; [done|].
    split; [by rewrite Hclen|]. split; [by rewrite Hclen|]. split.
    + intros a2 rf2 H2'. destruct (Hrf _ _ H2') as (rf2' & H2'' & _ & ->).
      by eapply H6.
    + intros t Ht. rewrite En. by apply H7.
  - intros wk Hwk. destruct (Hgo wk Hwk) as (wk0 & Hwk0 & -> & ->).
    destruct (wired_workers _ _ Hw wk0 Hwk0) as (rf & Ha & Hn).
    destruct (shape_kept_lookup s s' _ rf Hsh Ha) as (rf' & Ha' & En & _).
    exists rf'. split; [done|]. by rewrite En.
  - intros c ch' Hc. destruct (Hch c ch' Hc) as (ch & Hc0 & Hb & Hs & Hcl).
    destruct (wired_chans _ _ Hw c ch Hc0) as (Hb0 & Hs0 & Hcl0).
    split; [by apply Hb|]. split; [by apply Hs|].
    intros Hclosed.
    assert (exists a rf, rflows s !! a = Some rf /\ RuntimeFlow.StopChan rf = c)
      as (a & rf & Ha & Hstop).
    { destruct (Hcl Hclosed) as [Hwas|Hnow]; [by apply Hcl0|done]. }
    destruct (shape_kept_lookup s s' _ rf Hsh Ha) as (rf' & Ha' & _ & Es).
    exists a, rf'. split; [done|congruence].
Qed.

Lemma shape_kept_refl (s s' : State) : rflows s' = rflows s -> shape_kept s s'.
Proof. intros E. split; [by rewrite E|]. intros a rf' H. exists rf'. by rewrite <- E. Qed.

Lemma only_buffers_changed_refl (s s' : State) :
  chans s' = chans s -> rflows s' = rflows s -> goroutines s' = goroutines s ->
  flows s' = flows s -> only_buffers_changed s s'.
Proof.
  intros Hc Hr Hg Hf. split; [done|]. split; [done|]. split; [done|].
  split; [by rewrite Hc|]. intros c ch H. exists ch. by rewrite Hc.
Qed.

Lemma only_buffers_changed_trans (s1 s2 s3 : State) :
  only_buffers_changed s1 s2 -> only_buffers_changed s2 s3 ->
  only_buffers_changed s1 s3.
Proof.
  intros (Hr1 & Hg1 & Hf1 & Hl1 & Hc1) (Hr2 & Hg2 & Hf2 & Hl2 & Hc2).
  split; [congruence|]. split; [congruence|]. split; [congruence|].
  split; [congruence|]. intros c ch H.
  destruct (Hc1 c ch H) as (ch2 & H2 & Ecap & Ecl & Hb & Hs).
  destruct (Hc2 c ch2 H2) as (ch3 & H3 & Ecap' & Ecl' & Hb' & Hs').
  exists ch3. split; [done|]. split; [congruence|]. split; [congruence|].
  split; [|by auto]. intros Hle. apply Hb'. by apply Hb.
Qed.

Lemma only_buffers_changed_closed (s s' : State) (c : ptr) :
  only_buffers_changed s s' ->
  FlowExecutor.is_closed c s' = FlowExecutor.is_closed c s.
Proof.
  intros (_ & _ & _ & Hlen & Hch). unfold FlowExecutor.is_closed.
  destruct (chans s !! c) as [ch|] eqn:E.
  - destruct (Hch c ch E) as (ch' & -> & _ & -> & _). done.
  - apply lookup_ge_None in E. rewrite <- Hlen in E.
    apply lookup_ge_None in E. by rewrite E.
Qed.

Lemma only_buffers_changed_kept (s s' : State) :
  only_buffers_changed s s' -> chans_kept s s'.
Proof.
  intros (_ & _ & _ & Hlen & Hch). split; [done|]. intros c ch' Hc.
  destruct (lookup_lt_is_Some_2 (chans s) c) as [ch Hc0].
  { rewrite <- Hlen. by eapply lookup_lt_Some. }
  destruct (Hch c ch Hc0) as (ch2 & Hc2 & Ecap & Ecl & Hb & Hs).
  assert (ch2 = ch') as -> by congruence.
  exists ch. split; [done|]. split; [done|]. split; [done|].
  intros Hclosed. left. congruence.
Qed.

Lemma wired_only_buffers_changed (r : Registry.t) (s s' : State) :
  only_buffers_changed s s' -> wired r s -> wired r s'.
Proof.
  intros Hob Hw. pose proof Hob as (Hr & Hg & Hf & _).
  apply (wired_transfer r s s' Hw).
  - intros id a. by rewrite Hf.
  - intros wk Hwk. exists wk. by rewrite <- Hg.
  - by apply shape_kept_refl.
  - by apply only_buffers_changed_kept.
Qed.

Lemma workers_of_length (a : ptr) (s : State) :
  length (workers_of a s) =
  length (filter (fun x => x = a) (wk_flow <$> goroutines s)).
Proof.
  unfold workers_of. induction (goroutines s) as [|wk l IH]; [done|].
  rewrite fmap_cons, !filter_cons.
  destruct (decide (wk_flow wk = a)); cbn; by rewrite IH.
Qed.

Lemma accounted_transfer (s s' : State) :
  accounted s -> rflows s' = rflows s ->
  wk_flow <$> goroutines s' = wk_flow <$> goroutines s ->
  (forall c, FlowExecutor.is_closed c s' = FlowExecutor.is_closed c s) ->
  accounted s'.
Proof.
  intros Ha Hr Hg Hc. constructor.
  - intros a rf H. rewrite Hr in H. rewrite workers_of_length, Hg, <- workers_of_length.
    by apply (acc_count _ Ha).
  - intros a rf H Hrun. rewrite Hr in H. rewrite Hc. by eapply (acc_running _ Ha).
  - intros a rf H Hrun. rewrite Hr in H. by eapply (acc_idle _ Ha).
Qed.

Lemma accounted_only_buffers_changed (s s' : State) :
  only_buffers_changed s s' -> accounted s -> accounted s'.
Proof.
  intros Hob Ha. pose proof Hob as (Hr & Hg & _).
  apply (accounted_transfer s s' Ha Hr); [by rewrite Hg|].
  intros c. by apply only_buffers_changed_closed.
Qed.

(** *** The steps that move messages *)

Lemma recv_only_buffers_changed (c : ptr) (s s1 : State) (msg : option ptr) :
  FlowExecutor.recv c s = Some (msg, s1) -> only_buffers_changed s s1.
Proof.
  unfold FlowExecutor.recv. destruct (chans s !! c) as [ch|] eqn:Hc; [|done].
  destruct (buf ch) as [|m rest] eqn:Hb; [done|]. intros [= <- <-].
  unfold only_buffers_changed. cbn.
  split; [done|]. split; [done|]. split; [done|]. split; [by rewrite length_insert|].
  intros c' ch' Hc'. destruct (decide (c' = c)) as [->|Hne].
  - assert (ch' = ch) as -> by congruence.
    rewrite list_lookup_insert_eq by (by eapply lookup_lt_Some).
    eexists. split; [reflexivity|]. cbn. split; [done|]. split; [done|].
    rewrite Hb. cbn. split; [lia|]. intros H. by apply Forall_cons in H as [_ ?].
  - rewrite list_lookup_insert_ne by done. exists ch'. done.
Qed.

Lemma deliver_only_buffers_changed (sourceNode : RuntimeNode.t) (msg : option ptr)
    (flow : RuntimeFlow.t) (t : string) (s s' : State) :
  FlowExecutor.deliver sourceNode msg flow t s = Some s' ->
  only_buffers_changed s s'.
Proof.
  unfold FlowExecutor.deliver.
  destruct (RuntimeFlow.Nodes flow !! t) as [tn|].
  2:{ intros [= <-]. by apply only_buffers_changed_refl. }
  destruct msg as [m|]; [|done].
  destruct (Clone m (world s)) as [[cl w1]|]; [|done]. cbn [chans set_world].
  destruct (chans s !! RuntimeNode.InputChan tn) as [ch|] eqn:Hc; [|done].
  destruct (closed ch) eqn:Hcl; [done|].
  destruct (length (buf ch) <? cap ch)%nat eqn:Hroom.
  2:{ intros [= <-]. by apply only_buffers_changed_refl. }
  intros [= <-]. unfold only_buffers_changed. cbn.
  split; [done|]. split; [done|]. split; [done|]. split; [by rewrite length_insert|].
  intros c' ch' Hc'. destruct (decide (c' = RuntimeNode.InputChan tn)) as [->|Hne].
  - assert (ch' = ch) as -> by congruence.
    rewrite list_lookup_insert_eq by (by eapply lookup_lt_Some).
    eexists. split; [reflexivity|]. cbn. split; [done|]. split; [done|].
    apply Nat.ltb_lt in Hroom. rewrite length_app. cbn. split; [lia|].
    intros H. apply Forall_app. split; [done|]. by repeat constructor.
  - rewrite list_lookup_insert_ne by done. exists ch'. done.
Qed.

Lemma deliver_each_only_buffers_changed (sourceNode : RuntimeNode.t)
    (msg : option ptr) (flow : RuntimeFlow.t) (targets : list string) :
  forall s s', FlowExecutor.deliver_each sourceNode msg flow targets s = Some s' ->
  only_buffers_changed s s'.
Proof.
  induction targets as [|t rest IH]; intros s s' H; cbn in H.
  - inversion H; subst. by apply only_buffers_changed_refl.
  - destruct (FlowExecutor.deliver sourceNode msg flow t s) as [s1|] eqn:E; [|done].
    eapply only_buffers_changed_trans; [by eapply deliver_only_buffers_changed|].
    by apply IH.
Qed.

Lemma distribute_all_only_buffers_changed (node : RuntimeNode.t)
    (flow : RuntimeFlow.t) (msgs : list (option ptr)) :
  forall s s', FlowExecutor.distribute_all node msgs flow s = Some s' ->
  only_buffers_changed s s'.
Proof.
  induction msgs as [|msg rest IH]; intros s s' H; cbn in H.
  - inversion H; subst. by apply only_buffers_changed_refl.
  - destruct (FlowExecutor.distributeMessage node msg flow s) as [s1|] eqn:E; [|done].
    eapply only_buffers_changed_trans;
      [by eapply deliver_each_only_buffers_changed|]. by apply IH.
Qed.

Lemma runInputNode_tick_only_buffers_changed (node : RuntimeNode.t)
    (flow : RuntimeFlow.t) (s s' : State) :
  FlowExecutor.runInputNode_tick node flow s = Some s' -> only_buffers_changed s s'.
Proof.
  unfold FlowExecutor.runInputNode_tick.
  destruct (Execute _ _ _ _) as [[[msgs|err] w1]|]; [| |done].
  - intros H. eapply only_buffers_changed_trans;
      [|by eapply distribute_all_only_buffers_changed].
    by apply only_buffers_changed_refl.
  - intros [= <-]. by apply only_buffers_changed_refl.
Qed.

Lemma runPropagationNode_recv_only_buffers_changed (node : RuntimeNode.t)
    (flow : RuntimeFlow.t) (msg : option ptr) (s s' : State) :
  FlowExecutor.runPropagationNode_recv node flow msg s = Some s' ->
  only_buffers_changed s s'.
Proof.
  unfold FlowExecutor.runPropagationNode_recv.
  destruct (Execute _ _ _ _) as [[[msgs|err] w1]|]; [| |done].
  - intros H. eapply only_buffers_changed_trans;
      [|by eapply distribute_all_only_buffers_changed].
    by apply only_buffers_changed_refl.
  - intros [= <-]. by apply only_buffers_changed_refl.
Qed.

Lemma runActionNode_recv_only_buffers_changed (node : RuntimeNode.t)
    (flow : RuntimeFlow.t) (msg : option ptr) (s s' : State) :
  FlowExecutor.runActionNode_recv node flow msg s = Some s' ->
  only_buffers_changed s s' /\ chans s' = chans s.
Proof.
  unfold FlowExecutor.runActionNode_recv.
  destruct (Execute _ _ _ _) as [[[msgs|err] w1]|]; [| |done].
  - intros [= <-]. split; [by apply only_buffers_changed_refl|done].
  - intros [= <-]. split; [by apply only_buffers_changed_refl|done].
Qed.

(** *** Workers that enter and leave *)

Lemma chans_kept_refl (s s' : State) : chans s' = chans s -> chans_kept s s'.
Proof.
  intros E. split; [by rewrite E|]. intros c ch' H. rewrite E in H.
  exists ch'. split; [done|]. split; [done|]. split; [done|]. by left.
Qed.

Lemma shape_kept_alter (g : RuntimeFlow.t -> RuntimeFlow.t) (a : ptr) (s s' : State) :
  (forall rf, RuntimeFlow.Nodes (g rf) = RuntimeFlow.Nodes rf /\
              RuntimeFlow.StopChan (g rf) = RuntimeFlow.StopChan rf) ->
  rflows s' = alter g a (rflows s) -> shape_kept s s'.
Proof.
  intros Hg E. split; [by rewrite E, length_alter|]. intros x rf' H.
  rewrite E, list_lookup_alter in H. destruct (decide (a = x)) as [->|Hne].
  - destruct (rflows s !! x) as [rf|]; [|done]. cbn in H. inversion H; subst.
    exists rf. split; [done|]. apply Hg.
  - by exists rf'.
Qed.

Lemma wired_worker_flow (r : Registry.t) (s : State) (wk : Worker) :
  wired r s -> wk ∈ goroutines s ->
  exists rf, rflows s !! wk_flow wk = Some rf /\
    RuntimeNode.WaitGroup (wk_node wk) = wk_flow wk /\
    is_Some (Registry.blocks r !! RuntimeNode.Type_ (wk_node wk)).
Proof.
  intros Hw Hwk. destruct (wired_workers _ _ Hw wk Hwk) as (rf & Ha & Hn).
  destruct (wired_nodes _ _ Hw _ _ _ _ Ha Hn) as (_ & Hwg & Hty & _).
  by exists rf.
Qed.

Lemma workers_of_delete (a : ptr) (gs : list Worker) (i : nat) (wk : Worker) :
  gs !! i = Some wk ->
  (length (filter (fun w => wk_flow w = a) (delete i gs)) +
   (if decide (wk_flow wk = a) then 1 else 0))%nat =
  length (filter (fun w => wk_flow w = a) gs).
Proof.
  intros Hi. rewrite <- (take_drop_middle gs i wk Hi) at 2.
  rewrite delete_take_drop, !filter_app, filter_cons, !length_app.
  destruct (decide (wk_flow wk = a)); cbn; lia.
Qed.

(** A worker that returns: [finish] and the end of the goroutine. *)
Lemma exit_consistent (r : Registry.t) (s s1 : State) (i : nat) (wk : Worker) :
  wired r s -> accounted s ->
  goroutines s !! i = Some wk ->
  chans s1 = chans s -> rflows s1 = rflows s -> flows s1 = flows s ->
  wired r (set_goroutines (delete i (goroutines s)) (FlowExecutor.finish (wk_node wk) s1)) /\
  accounted (set_goroutines (delete i (goroutines s)) (FlowExecutor.finish (wk_node wk) s1)).
Proof.
  intros Hw Ha Hi Hc Hr Hf.
  assert (Hin : wk ∈ goroutines s) by (by eapply list_elem_of_lookup_2).
  destruct (wired_worker_flow r s wk Hw Hin) as (rf0 & Ha0 & Hwg & _).
  set (s' := set_goroutines _ _).
  assert (Hr' : rflows s' =
                alter (RuntimeFlow.add_WaitGroup (-1)) (wk_flow wk) (rflows s)).
  { subst s'. unfold FlowExecutor.finish. cbn. by rewrite Hwg, Hr. }
  assert (Hc' : chans s' = chans s) by (subst s'; by cbn).
  assert (Hf' : flows s' = flows s) by (subst s'; by cbn).
  assert (Hg' : goroutines s' = delete i (goroutines s)) by (subst s'; by cbn).
  assert (Hcl : forall c, FlowExecutor.is_closed c s' = FlowExecutor.is_closed c s).
  { intros c. unfold FlowExecutor.is_closed. by rewrite Hc'. }
  clearbody s'. split.
  - apply (wired_transfer r s s' Hw).
    + intros id a. by rewrite Hf'.
    + intros w Hwin. rewrite Hg' in Hwin. exists w.
      split; [by eapply list_elem_of_delete_inv|done].
    + eapply shape_kept_alter; [|exact Hr']. by intros rf.
    + by apply chans_kept_refl.
  - assert (Hcount : forall a,
              (length (workers_of a s') + (if decide (wk_flow wk = a) then 1 else 0))%nat
              = length (workers_of a s)).
    { intros a. unfold workers_of. rewrite Hg'.
      by apply workers_of_delete. }
    constructor.
    + intros a rf' H. rewrite Hr', list_lookup_alter in H.
      specialize (Hcount a). destruct (decide (wk_flow wk = a)) as [<-|Hne].
      * rewrite Ha0 in H. cbn in H. inversion H; subst. cbn.
        rewrite (acc_count _ Ha _ _ Ha0). lia.
      * rewrite (acc_count _ Ha _ _ H). lia.
    + intros a rf' H Hrun. rewrite Hcl. rewrite Hr', list_lookup_alter in H.
      destruct (decide (wk_flow wk = a)) as [<-|Hne].
      * rewrite Ha0 in H. cbn in H. inversion H; subst. cbn in *.
        by apply (acc_running _ Ha _ _ Ha0).
      * by apply (acc_running _ Ha _ _ H).
    + intros a rf' H Hrun. rewrite Hr', list_lookup_alter in H.
      specialize (Hcount a). destruct (decide (wk_flow wk = a)) as [<-|Hne].
      * rewrite Ha0 in H. cbn in H. inversion H; subst. cbn in *.
        pose proof (acc_idle _ Ha _ _ Ha0 Hrun) as H0.
        rewrite (acc_count _ Ha _ _ Ha0) in H0. lia.
      * by apply (acc_idle _ Ha _ _ H).
Qed.

(** A worker that enters one of the loops. *)
Lemma enter_consistent (r : Registry.t) (s s1 : State) (i : nat) (wk : Worker)
    (ph : Phase) :
  wired r s -> accounted s ->
  goroutines s !! i = Some wk ->
  chans s1 = chans s -> rflows s1 = rflows s -> flows s1 = flows s ->
  goroutines s1 = goroutines s ->
  wired r (set_goroutines (<[i := FlowExecutor.set_phase ph wk]> (goroutines s1)) s1) /\
  accounted (set_goroutines (<[i := FlowExecutor.set_phase ph wk]> (goroutines s1)) s1).
Proof.
  intros Hw Ha Hi Hc Hr Hf Hg. set (s' := set_goroutines _ _).
  assert (Hg' : goroutines s' = <[i := FlowExecutor.set_phase ph wk]> (goroutines s))
    by (subst s'; cbn; by rewrite Hg).
  assert (Hr' : rflows s' = rflows s) by (subst s'; by cbn).
  assert (Hc' : chans s' = chans s) by (subst s'; by cbn).
  assert (Hf' : flows s' = flows s) by (subst s'; by cbn).
  clearbody s'. split.
  - apply (wired_transfer r s s' Hw).
    + intros id a. by rewrite Hf'.
    + intros w Hwin. rewrite Hg' in Hwin.
      apply list_elem_of_lookup in Hwin as [j Hj].
      apply list_lookup_insert_Some in Hj as [(-> & <- & _)|[_ Hj]].
      * exists wk. split; [by eapply list_elem_of_lookup_2|done].
      * exists w. split; [by eapply list_elem_of_lookup_2|done].
    + by apply shape_kept_refl.
    + by apply chans_kept_refl.
  - apply (accounted_transfer s s' Ha Hr').
    + rewrite Hg', list_fmap_insert. cbn. apply list_insert_id.
      by rewrite list_lookup_fmap, Hi.
    + intros c. unfold FlowExecutor.is_closed. by rewrite Hc'.
Qed.

Lemma runNode_enter_frame (r : Registry.t) (node : RuntimeNode.t) (s s1 : State)
    (ph : option Phase) :
  FlowExecutor.runNode_enter r node s = Some (ph, s1) ->
  chans s1 = chans s /\ rflows s1 = rflows s /\ flows s1 = flows s /\
  goroutines s1 = goroutines s.
Proof.
  unfold FlowExecutor.runNode_enter.
  destruct (FlowExecutor.runNode_blockInfo r node); [|done]. by intros [= _ <-].
Qed.

(** Every step of a worker keeps the invariants. *)
Lemma step_consistent (r : Registry.t) (s s' : State) :
  FlowExecutor.step r s s' -> wired r s -> accounted s -> wired r s' /\ accounted s'.
Proof.
  intros Hstep Hw Ha. destruct Hstep.
  - destruct (runNode_enter_frame _ _ _ _ _ H1) as (Hc & Hr & Hf & Hg).
    by eapply enter_consistent.
  - destruct (runNode_enter_frame _ _ _ _ _ H1) as (Hc & Hr & Hf & Hg).
    by eapply exit_consistent.
  - by eapply exit_consistent.
  - by eapply exit_consistent.
  - apply runInputNode_tick_only_buffers_changed in H2.
    split; [by eapply wired_only_buffers_changed|by eapply accounted_only_buffers_changed].
  - apply recv_only_buffers_changed in H2.
    apply runPropagationNode_recv_only_buffers_changed in H3.
    pose proof (only_buffers_changed_trans _ _ _ H2 H3) as Hob.
    split; [by eapply wired_only_buffers_changed|by eapply accounted_only_buffers_changed].
  - apply recv_only_buffers_changed in H2.
    apply runActionNode_recv_only_buffers_changed in H3 as [H3 _].
    pose proof (only_buffers_changed_trans _ _ _ H2 H3) as Hob.
    split; [by eapply wired_only_buffers_changed|by eapply accounted_only_buffers_changed].
Qed.

(** *** Starting a flow *)

Lemma start_wired (registry : Registry.t) (flow : Flow.t) (s : State) :
  FlowExecutor.ValidateFlow registry (Some flow) = None ->
  wired registry s ->
  wired registry (FlowExecutor.PrepareAndStartFlow registry (Some flow) s).2.
Proof.
  intros Hv Hw.
  destruct (PrepareAndStartFlow_result registry flow s Hv)
    as (nodes & s' & Hrun & (extra & Hch & Hex) & Hrf & Hgo & Hfl & _ & Hdom & Hmade).
  rewrite Hrun. cbn [snd]. clear Hrun.
  set (rfnew := RuntimeFlow.mk _ _ _ _ _ _ _) in Hrf.
  assert (Hlen : (length (chans s) < length (chans s'))%nat).
  { rewrite Hch, length_app. cbn. lia. }
  assert (Hlook : forall a rf, rflows s' !! a = Some rf ->
            ((a < length (rflows s))%nat /\ rflows s !! a = Some rf) \/
            (a = length (rflows s) /\ rf = rfnew)).
  { intros a rf H. rewrite Hrf in H. apply lookup_snoc_Some in H.
    destruct H as [[? ?]|[? ?]]; [by left|by right]. }
  assert (Hstop : forall a rf, rflows s' !! a = Some rf ->
            (RuntimeFlow.StopChan rf <= length (chans s))%nat /\
            (a < length (rflows s) -> RuntimeFlow.StopChan rf < length (chans s))%nat /\
            (a = length (rflows s) -> RuntimeFlow.StopChan rf = length (chans s))).
  { intros a rf H. destruct (Hlook a rf H) as [[Hlt Hold]|[-> ->]].
    - pose proof (wired_stop _ _ Hw a rf Hold). split; [lia|]. split; [done|lia].
    - cbn. split; [done|]. split; [lia|done]. }
  constructor.
  - intros id a Hid. rewrite Hfl in Hid. rewrite Hrf.
    apply lookup_insert_Some in Hid as [[_ <-]|[_ Hid]].
    + rewrite list_lookup_middle by done. by eauto.
    + destruct (wired_flows _ _ Hw id a Hid) as [rf Ha]. exists rf.
      by apply lookup_app_l_Some.
  - intros a rf H. destruct (Hstop a rf H) as (Hle & _). lia.
  - intros a a' rf rf' H H' Heq.
    destruct (Hstop a rf H) as (_ & Hlt & Heq1).
    destruct (Hstop a' rf' H') as (_ & Hlt' & Heq2).
    destruct (Hlook a rf H) as [[Ha Hold]|[-> ->]],
      (Hlook a' rf' H') as [[Ha' Hold']|[-> ->]].
    + by eapply (wired_stop_inj _ _ Hw).
    + specialize (Hlt Ha). specialize (Heq2 eq_refl). lia.
    + specialize (Hlt' Ha'). specialize (Heq1 eq_refl). lia.
    + done.
  - intros a rf id rn H Hid. destruct (Hlook a rf H) as [[Ha Hold]|[-> ->]].
    + destruct (wired_nodes _ _ Hw a rf id rn Hold Hid)
        as (H1 & H2 & H3 & H4 & H5 & H6 & H7).
      split; [done|]. split; [done|]. split; [done|].
      split; [lia|]. split; [lia|]. split; [|done].
      intros a' rf' H'. destruct (Hlook a' rf' H') as [[Ha' Hold']|[-> ->]].
      * by eapply H6.
      * cbn. lia.
    + cbn in Hid. destruct (Hmade id rn Hid)
        as ((H1 & H2 & H3 & H4 & H5 & _ & H6) & Hin).
      split; [done|]. split; [done|]. split; [done|].
      split; [lia|]. split; [lia|]. split.
      * intros a' rf' H'. destruct (Hstop a' rf' H') as (Hle & _). lia.
      * intros t Ht. cbn. rewrite H4 in Ht.
        apply output_connections_elem in Ht as (conn & Hconn & _ & <-).
        destruct (ValidateFlow_None_wired registry flow Hv conn Hconn) as [_ Ht].
        apply list_elem_of_fmap in Ht as (node & -> & Hnode). by apply Hdom.
  - intros wk Hwk. rewrite Hgo in Hwk. apply elem_of_app in Hwk as [Hwk|Hwk].
    + destruct (wired_workers _ _ Hw wk Hwk) as (rf & Ha & Hn).
      exists rf. split; [|done]. rewrite Hrf. by apply lookup_app_l_Some.
    + apply list_elem_of_fmap in Hwk as (rn & -> & Hrn).
      apply list_elem_of_fmap in Hrn as ([id rn'] & -> & Hkv).
      apply elem_of_map_to_list in Hkv. cbn.
      exists rfnew. split; [rewrite Hrf; by apply list_lookup_middle|].
      destruct (Hmade id rn' Hkv) as ((-> & _) & _). done.
  - intros c ch Hc. rewrite Hch in Hc. apply lookup_app_Some in Hc as [Hc|[_ Hc]].
    + destruct (wired_chans _ _ Hw c ch Hc) as (Hb & Hs & Hcl).
      split; [done|]. split; [done|]. intros Hclosed.
      destruct (Hcl Hclosed) as (a & rf & Ha & Hst). exists a, rf.
      split; [|done]. rewrite Hrf. by apply lookup_app_l_Some.
    + assert (Hfresh : buf ch = [] /\ closed ch = false).
      { apply list_elem_of_lookup_2 in Hc. apply elem_of_cons in Hc as [->|Hc]; [done|].
        by apply (proj1 (Forall_forall _ _) Hex). }
      destruct Hfresh as [-> ->]. cbn. split; [lia|]. split; [constructor|done].
Qed.

Lemma filter_spawn (self a : ptr) (l : list RuntimeNode.t) :
  filter (fun wk => wk_flow wk = a) (FlowExecutor.spawn self <$> l) =
  if decide (a = self) then FlowExecutor.spawn self <$> l else [].
Proof.
  induction l as [|rn l IH]; [by destruct (decide _)|].
  rewrite fmap_cons, filter_cons, IH. cbn.
  destruct (decide (self = a)) as [<-|Hne].
  - by destruct (decide _).
  - destruct (decide (a = self)); [congruence|done].
Qed.

Lemma start_accounted (registry : Registry.t) (flow : Flow.t) (s : State) :
  FlowExecutor.ValidateFlow registry (Some flow) = None ->
  wired registry s -> accounted s ->
  accounted (FlowExecutor.PrepareAndStartFlow registry (Some flow) s).2.
Proof.
  intros Hv Hw Ha.
  destruct (PrepareAndStartFlow_result registry flow s Hv)
    as (nodes & s' & Hrun & (extra & Hch & Hex) & Hrf & Hgo & Hfl & _ & Hdom & Hmade).
  rewrite Hrun. cbn [snd]. clear Hrun.
  set (rfnew := RuntimeFlow.mk _ _ _ _ _ _ _) in Hrf.
  set (new := FlowExecutor.spawn (length (rflows s)) <$> (map_to_list nodes).*2) in Hgo.
  assert (Hlook : forall a rf, rflows s' !! a = Some rf ->
            ((a < length (rflows s))%nat /\ rflows s !! a = Some rf) \/
            (a = length (rflows s) /\ rf = rfnew)).
  { intros a rf H. rewrite Hrf in H. apply lookup_snoc_Some in H.
    destruct H as [[? ?]|[? ?]]; [by left|by right]. }
  assert (Hnew : forall a,
            filter (fun wk => wk_flow wk = a) new =
            if decide (a = length (rflows s)) then new else []).
  { intros a. subst new. apply filter_spawn. }
  assert (Hold : filter (fun wk => wk_flow wk = length (rflows s)) (goroutines s) = []).
  { destruct (filter _ (goroutines s)) as [|wk l] eqn:E; [done|]. exfalso.
    assert (Hin : wk ∈ filter (fun wk => wk_flow wk = length (rflows s)) (goroutines s))
      by (rewrite E; by left).
    apply list_elem_of_filter in Hin as [Heq Hin].
    destruct (wired_workers _ _ Hw wk Hin) as (rf & Hrf' & _).
    apply lookup_lt_Some in Hrf'. lia. }
  assert (Hcount : forall a,
            length (workers_of a s') =
            (length (workers_of a s) +
             if decide (a = length (rflows s)) then length (map_to_list nodes) else 0)%nat).
  { intros a. unfold workers_of. rewrite Hgo, filter_app, length_app, Hnew.
    destruct (decide (a = length (rflows s))); [|done].
    subst new. by rewrite !length_fmap. }
  constructor.
  - intros a rf H. rewrite Hcount. destruct (Hlook a rf H) as [[Hlt Hrf0]|[-> ->]].
    + rewrite decide_False by lia. rewrite (acc_count _ Ha _ _ Hrf0). lia.
    + rewrite decide_True by done. unfold workers_of. rewrite Hold. cbn. lia.
  - intros a rf H Hrunning. unfold FlowExecutor.is_closed. rewrite Hch.
    destruct (Hlook a rf H) as [[Hlt Hrf0]|[-> ->]].
    + pose proof (wired_stop _ _ Hw _ _ Hrf0) as Hst.
      rewrite lookup_app_l by done.
      by apply (acc_running _ Ha _ _ Hrf0).
    + cbn. by rewrite list_lookup_middle.
  - intros a rf H Hrunning. destruct (Hlook a rf H) as [[Hlt Hrf0]|[-> ->]].
    + by apply (acc_idle _ Ha _ _ Hrf0).
    + done.
Qed.

(** *** Stopping a flow *)

Lemma add_WaitGroup_0 (rf : RuntimeFlow.t) : RuntimeFlow.add_WaitGroup 0 rf = rf.
Proof. destruct rf. unfold RuntimeFlow.add_WaitGroup. cbn. f_equal. lia. Qed.

Lemma runNode_blockInfo_is_Some (r : Registry.t) (node : RuntimeNode.t) (ty : string) :
  is_Some (Registry.blocks r !! ty) ->
  is_Some (FlowExecutor.runNode_blockInfo r node).
Proof.
  intros [f Hf]. unfold FlowExecutor.runNode_blockInfo.
  assert (Hin : BlockFactory.GetBlockInfo f ∈ Registry.GetBlockInfo r).
  { apply GetBlockInfo_elem. by exists ty, f. }
  destruct (Registry.GetBlockInfo r); [by apply elem_of_nil in Hin|by eauto].
Qed.

(** The workers of one flow run to their end: each takes one off the
    flow's counter and changes nothing else but the log. *)
Lemma run_all_to_exit_result (r : Registry.t) (self : ptr) (wks : list Worker) :
  forall s,
  Forall (fun wk => RuntimeNode.WaitGroup (wk_node wk) = self /\
                    is_Some (FlowExecutor.runNode_blockInfo r (wk_node wk))) wks ->
  exists s',
    FlowExecutor.run_all_to_exit r wks s = Some s' /\
    chans s' = chans s /\ flows s' = flows s /\ goroutines s' = goroutines s /\
    messages (world s') = messages (world s) /\
    rflows s' =
      alter (RuntimeFlow.add_WaitGroup (- Z.of_nat (length wks))) self (rflows s).
Proof.
  induction wks as [|wk rest IH]; intros s Hall.
  - exists s. cbn. split; [done|]. repeat (split; [done|]).
    symmetry. apply list_alter_id, add_WaitGroup_0.
  - apply Forall_cons in Hall as [[Hwg [info Hinfo]] Hall].
    assert (Hone : exists s1,
              FlowExecutor.run_to_exit r wk s = Some s1 /\
              chans s1 = chans s /\ flows s1 = flows s /\
              goroutines s1 = goroutines s /\
              messages (world s1) = messages (world s) /\
              rflows s1 = alter (RuntimeFlow.add_WaitGroup (-1)) self (rflows s)).
    { unfold FlowExecutor.run_to_exit, FlowExecutor.runNode_enter.
      rewrite Hinfo, <- Hwg. destruct (wk_phase wk); eexists; by split. }
    destruct Hone as (s1 & Hrun1 & Hc1 & Hf1 & Hg1 & Hm1 & Hr1).
    destruct (IH s1 Hall) as (s' & Hrun & Hc & Hf & Hg & Hm & Hr).
    exists s'. cbn [FlowExecutor.run_all_to_exit]. rewrite Hrun1.
    split; [done|]. split; [congruence|]. split; [congruence|].
    split; [congruence|]. split; [congruence|].
    rewrite Hr, Hr1, list_alter_alter_eq. apply list_alter_ext; [|done].
    intros rf _. unfold RuntimeFlow.add_WaitGroup. cbn. f_equal. lia.
Qed.

(** What [StopFlow] does in a state where the invariants hold: it never
    panics; on a flow that is not running it fails and changes nothing; on a
    running flow it closes the flow's stop channel, ends the flow's workers
    and clears the running mark. *)
Lemma StopFlow_result (r : Registry.t) (flowID : string) (s : State) :
  wired r s -> accounted s ->
  (FlowExecutor.StopFlow r flowID s =
     (Error ("flow '" +:+ flowID +:+ "' is not running"), s) /\
   FlowExecutor.GetFlowStatus flowID s <> Ok true /\
   (forall err, FlowExecutor.GetFlowStatus flowID s = Err err ->
      flows s !! flowID = None /\ err = "flow '" +:+ flowID +:+ "' not found")) \/
  (exists self rf ch s',
     flows s !! flowID = Some self /\ rflows s !! self = Some rf /\
     RuntimeFlow.Running rf = true /\
     chans s !! RuntimeFlow.StopChan rf = Some ch /\
     FlowExecutor.StopFlow r flowID s = (Nil, s') /\
     chans s' = <[RuntimeFlow.StopChan rf :=
                   {| buf := buf ch; cap := cap ch; closed := true |}]> (chans s) /\
     rflows s' =
       alter (RuntimeFlow.set_Running false ∘
              RuntimeFlow.add_WaitGroup (- Z.of_nat (length (workers_of self s))))
         self (rflows s) /\
     goroutines s' = filter (fun wk => wk_flow wk <> self) (goroutines s) /\
     flows s' = flows s /\
     messages (world s') = messages (world s)).
Proof.
  intros Hw Ha. unfold FlowExecutor.StopFlow, FlowExecutor.GetFlowStatus.
  destruct (flows s !! flowID) as [self|] eqn:Hfl.
  2:{ left. split; [done|]. split; [done|]. by intros err [= <-]. }
  destruct (wired_flows _ _ Hw _ _ Hfl) as [rf Hrf]. rewrite Hrf.
  destruct (RuntimeFlow.Running rf) eqn:Hrun; cbn [negb].
  2:{ left. split; [done|]. split; done. }
  right.
  pose proof (wired_stop _ _ Hw _ _ Hrf) as Hlt.
  destruct (lookup_lt_is_Some_2 _ _ Hlt) as [ch Hch].
  pose proof (acc_running _ Ha _ _ Hrf Hrun) as Hopen.
  unfold FlowExecutor.is_closed in Hopen. rewrite Hch in Hopen.
  unfold FlowExecutor.close_chan. rewrite Hch, Hopen.
  set (s1 := set_chans _ s).
  unfold FlowExecutor.wait_for_workers.
  change (goroutines s1) with (goroutines s).
  destruct (run_all_to_exit_result r self
              (filter (fun wk => wk_flow wk = self) (goroutines s)) s1)
    as (s2 & Hrun2 & Hc2 & Hf2 & Hg2 & Hm2 & Hr2).
  { apply Forall_forall. intros wk Hwk. apply list_elem_of_filter in Hwk as [<- Hwk].
    destruct (wired_worker_flow r s wk Hw Hwk) as (_ & _ & Hwg & Hty).
    split; [done|]. by eapply runNode_blockInfo_is_Some. }
  rewrite Hrun2. exists self, rf, ch. eexists.
  split; [done|]. split; [done|]. split; [done|]. split; [done|].
  split; [reflexivity|]. cbn.
  split; [by rewrite Hc2|]. split; [|by rewrite Hf2, Hm2].
  rewrite Hr2. by rewrite list_alter_alter_eq.
Qed.

Lemma filter_filter_workers (a self : ptr) (gs : list Worker) :
  filter (fun wk => wk_flow wk = a) (filter (fun wk => wk_flow wk <> self) gs) =
  if decide (a = self) then [] else filter (fun wk => wk_flow wk = a) gs.
Proof.
  induction gs as [|wk l IH]; [by destruct (decide _)|].
  rewrite !filter_cons.
  destruct (decide (wk_flow wk <> self)) as [Hne|Heq].
  - rewrite filter_cons, IH.
    destruct (decide (wk_flow wk = a)) as [<-|?]; [|done].
    destruct (decide (wk_flow wk = self)); [congruence|done].
  - rewrite IH. apply dec_stable in Heq.
    destruct (decide (a = self)) as [->|Hne]; [done|].
    destruct (decide (wk_flow wk = a)); [congruence|done].
Qed.

Lemma stop_consistent (r : Registry.t) (flowID : string) (s : State) :
  wired r s -> accounted s ->
  wired r (FlowExecutor.StopFlow r flowID s).2 /\
  accounted (FlowExecutor.StopFlow r flowID s).2.
Proof.
  intros Hw Ha.
  destruct (StopFlow_result r flowID s Hw Ha)
    as [[-> _]|(self & rf & ch & s' & Hfl & Hrf & Hrun & Hch & -> & Hc & Hr & Hg & Hf & _)];
    [done|].
  cbn [snd].
  assert (Hsh : shape_kept s s').
  { eapply shape_kept_alter; [|exact Hr]. by intros rf0. }
  split.
  - apply (wired_transfer r s s' Hw).
    + intros id a. by rewrite Hf.
    + intros wk Hwk. rewrite Hg in Hwk. apply list_elem_of_filter in Hwk as [_ Hwk].
      by exists wk.
    + done.
    + split; [by rewrite Hc, length_insert|]. intros c ch' H. rewrite Hc in H.
      apply list_lookup_insert_Some in H as [(<- & <- & _)|[Hne H]].
      * exists ch. split; [done|]. cbn. split; [done|]. split; [done|].
        intros _. right. by exists self, rf.
      * exists ch'. split; [done|]. split; [done|]. split; [done|]. by left.
  - assert (Hcount : forall a,
              length (workers_of a s') =
              if decide (a = self) then 0%nat else length (workers_of a s)).
    { intros a. unfold workers_of. rewrite Hg, filter_filter_workers.
      by destruct (decide (a = self)). }
    constructor.
    + intros a rf' H. rewrite Hcount. rewrite Hr, list_lookup_alter in H.
      destruct (decide (self = a)) as [<-|Hne].
      * rewrite Hrf in H. cbn in H. inversion H; subst. cbn.
        rewrite decide_True by done. rewrite (acc_count _ Ha _ _ Hrf). lia.
      * rewrite decide_False by done. by apply (acc_count _ Ha).
    + intros a rf' H Hrunning. rewrite Hr, list_lookup_alter in H.
      destruct (decide (self = a)) as [<-|Hne].
      * rewrite Hrf in H. cbn in H. inversion H; subst. done.
      * unfold FlowExecutor.is_closed. rewrite Hc.
        rewrite list_lookup_insert_ne.
        -- by apply (acc_running _ Ha _ _ H).
        -- intros Heq. apply Hne. by eapply (wired_stop_inj _ _ Hw).
    + intros a rf' H Hrunning. rewrite Hr, list_lookup_alter in H.
      destruct (decide (self = a)) as [<-|Hne].
      * rewrite Hrf in H. cbn in H. inversion H; subst. cbn.
        rewrite (acc_count _ Ha _ _ Hrf). lia.
      * by apply (acc_idle _ Ha _ _ H).
Qed.

(** *** The engine's operations *)

Lemma Engine_StartFlow_cases (e : Engine.t) (flowID : string) (s : State) :
  (exists err, Engine.StartFlow e flowID s = (Error err, s)) \/
  (exists flow,
     Engine.LoadFlow (Engine.storage e) flowID = Ok flow /\
     Flow.Validate flow = None /\
     FlowExecutor.ValidateFlow (Engine.registry e) (Some flow) = None /\
     Engine.StartFlow e flowID s =
       FlowExecutor.PrepareAndStartFlow (Engine.registry e) (Some flow) s).
Proof.
  unfold Engine.StartFlow.
  destruct (Engine.LoadFlow (Engine.storage e) flowID) as [flow|err];
    [|left; by eexists].
  destruct (Flow.Validate flow) as [err|] eqn:Hval; [left; by eexists|].
  destruct (FlowExecutor.ValidateFlow (Engine.registry e) (Some flow)) as [err|] eqn:Hv.
  - left. unfold FlowExecutor.PrepareAndStartFlow, FlowExecutor.PrepareFlow.
    rewrite Hv. by eexists.
  - right. by exists flow.
Qed.

Lemma Engine_StartFlow_consistent (e : Engine.t) (flowID : string) (s : State) :
  wired (Engine.registry e) s -> accounted s ->
  wired (Engine.registry e) (Engine.StartFlow e flowID s).2 /\
  accounted (Engine.StartFlow e flowID s).2.
Proof.
  intros Hw Ha.
  destruct (Engine_StartFlow_cases e flowID s) as [[err ->]|(flow & _ & _ & Hv & ->)];
    [done|].
  split; [by apply start_wired|by apply start_accounted].
Qed.

Lemma slog_consistent (r : Registry.t) (lv : Level) (msg : string)
    (fs : list (string * Value)) (s : State) :
  wired r s -> accounted s -> wired r (slog lv msg fs s) /\ accounted (slog lv msg fs s).
Proof.
  intros Hw Ha.
  assert (Hob : only_buffers_changed s (slog lv msg fs s))
    by (by apply only_buffers_changed_refl).
  split; [by eapply wired_only_buffers_changed|by eapply accounted_only_buffers_changed].
Qed.

Lemma start_active_consistent (e : Engine.t) (loaded : list Flow.t) :
  forall s, wired (Engine.registry e) s -> accounted s ->
  wired (Engine.registry e) (Engine.start_active e loaded s).2 /\
  accounted (Engine.start_active e loaded s).2.
Proof.
  induction loaded as [|flow rest IH]; intros s Hw Ha; cbn; [done|].
  destruct (Flow.Active flow); [|by apply IH].
  destruct (Engine_StartFlow_consistent e (Flow.ID flow) s Hw Ha) as [Hw1 Ha1].
  destruct (Engine.StartFlow e (Flow.ID flow) s) as [[|err|p] s1]; cbn [snd] in *.
  - by apply IH.
  - destruct (slog_consistent (Engine.registry e) ERROR "Failed to start flow"
                [("flow_id", VStr (Flow.ID flow)); ("error", VStr err)] s1 Hw1 Ha1).
    by apply IH.
  - done.
Qed.

(** The invariants hold in every state an installation passes through. *)
Lemma reachable_consistent (e : Engine.t) (s : State) :
  reachable e s -> wired (Engine.registry e) s /\ accounted s.
Proof.
  induction 1 as [w|flowID s _ [Hw Ha]|flowID s _ [Hw Ha]|all s _ [Hw Ha]
                 |s _ [Hw Ha]|s s' _ [Hw Ha] Hstep].
  - split; constructor; cbn; try done.
    all: try (intros; by apply elem_of_nil in H).
    all: intros *; by rewrite ?lookup_empty, ?lookup_nil.
  - by apply Engine_StartFlow_consistent.
  - by apply stop_consistent.
  - destruct all as [loaded|err]; cbn; [by apply start_active_consistent|done].
  - by apply slog_consistent.
  - by eapply step_consistent.
Qed.

(** *** What holds in every state of an installation *)

(** X15.  In every state an installation passes through, every channel
    holds at most as many messages as its capacity and holds no nil message;
    so the message a worker takes from a channel is never nil. *)
Theorem reachable_queues_bounded (e : Engine.t) (s : State) (c : ptr) (ch : Chan) :
  reachable e s ->
  chans s !! c = Some ch ->
  (length (buf ch) <= cap ch)%nat /\
  Forall is_Some (buf ch) /\
  forall msg s1, FlowExecutor.recv c s = Some (msg, s1) -> is_Some msg.
Proof.
  intros Hreach Hc. destruct (reachable_consistent e s Hreach) as [Hw _].
  destruct (wired_chans _ _ Hw c ch Hc) as (Hb & Hs & _).
  split; [exact Hb|]. split; [exact Hs|].
  intros msg s1 Hrecv. unfold FlowExecutor.recv in Hrecv. rewrite Hc in Hrecv.
  destruct (buf ch) as [|m rest]; [done|]. inversion Hrecv; subst.
  by apply Forall_cons in Hs as [? _].
Qed.

(** X16.  In every state an installation passes through, the wait-group
    counter of every runtime flow is the number of its live workers, so it is
    never negative; and a runtime flow that is not marked running has no
    worker left. *)
Theorem reachable_WaitGroup_counts_workers (e : Engine.t) (s : State) (a : ptr)
    (rf : RuntimeFlow.t) :
  reachable e s ->
  rflows s !! a = Some rf ->
  RuntimeFlow.WaitGroup rf = Z.of_nat (length (workers_of a s)) /\
  (0 <= RuntimeFlow.WaitGroup rf)%Z /\
  (RuntimeFlow.Running rf = false -> workers_of a s = []).
Proof.
  intros Hreach Hrf. destruct (reachable_consistent e s Hreach) as [_ Ha].
  pose proof (acc_count _ Ha a rf Hrf) as Hcount.
  split; [exact Hcount|]. split; [lia|].
  intros Hidle. pose proof (acc_idle _ Ha a rf Hrf Hidle) as H0.
  rewrite Hcount in H0. apply nil_length_inv. lia.
Qed.

Lemma is_closed_node_chan (r : Registry.t) (s : State) (a : ptr) (rf : RuntimeFlow.t)
    (id : string) (rn : RuntimeNode.t) :
  wired r s -> rflows s !! a = Some rf -> RuntimeFlow.Nodes rf !! id = Some rn ->
  (exists ch, chans s !! RuntimeNode.InputChan rn = Some ch /\ closed ch = false) /\
  (exists ch, chans s !! RuntimeNode.StopChan rn = Some ch /\ closed ch = false).
Proof.
  intros Hw Hrf Hid.
  destruct (wired_nodes _ _ Hw a rf id rn Hrf Hid) as (_ & _ & _ & Hi & Hs & Hdisj & _).
  split.
  - destruct (lookup_lt_is_Some_2 _ _ Hi) as [ch Hch]. exists ch. split; [done|].
    destruct (closed ch) eqn:Hcl; [|done]. exfalso.
    destruct (wired_chans _ _ Hw _ ch Hch) as (_ & _ & Hstop).
    destruct (Hstop Hcl) as (a' & rf' & Ha' & Heq).
    by destruct (Hdisj a' rf' Ha') as [? _].
  - destruct (lookup_lt_is_Some_2 _ _ Hs) as [ch Hch]. exists ch. split; [done|].
    destruct (closed ch) eqn:Hcl; [|done]. exfalso.
    destruct (wired_chans _ _ Hw _ ch Hch) as (_ & _ & Hstop).
    destruct (Hstop Hcl) as (a' & rf' & Ha' & Heq).
    by destruct (Hdisj a' rf' Ha') as [_ ?].
Qed.

(** X17.  In every state an installation passes through, every live worker
    runs a node of a runtime flow that exists, and every target its node
    forwards to is a node of that flow whose input channel exists and is
    open.  So delivering a live message to any of its targets never panics
    and never finds the target missing. *)
Theorem reachable_fanout_targets_live (e : Engine.t) (s : State) (wk : Worker) :
  reachable e s ->
  wk ∈ goroutines s ->
  exists flow,
    rflows s !! wk_flow wk = Some flow /\
    RuntimeFlow.Nodes flow !! RuntimeNode.ID (wk_node wk) = Some (wk_node wk) /\
    forall t, t ∈ RuntimeNode.OutputConnections (wk_node wk) ->
      (exists tn ch,
         RuntimeFlow.Nodes flow !! t = Some tn /\
         chans s !! RuntimeNode.InputChan tn = Some ch /\ closed ch = false) /\
      (forall m msg, messages (world s) !! m = Some msg ->
         exists s',
           FlowExecutor.deliver (wk_node wk) (Some m) flow t s = Some s' /\
           forall entry, entry ∈ log (world s') -> entry ∉ log (world s) ->
             text entry <> "Target node not found").
Proof.
  intros Hreach Hwk. destruct (reachable_consistent e s Hreach) as [Hw _].
  destruct (wired_workers _ _ Hw wk Hwk) as (flow & Hflow & Hnode).
  exists flow. split; [exact Hflow|]. split; [exact Hnode|].
  intros t Ht.
  destruct (wired_nodes _ _ Hw _ _ _ _ Hflow Hnode) as (_ & _ & _ & _ & _ & _ & Htargets).
  destruct (Htargets t Ht) as [tn Htn].
  destruct (is_closed_node_chan _ _ _ _ _ _ Hw Hflow Htn) as [(ch & Hch & Hopen) _].
  split; [by exists tn, ch|].
  intros m msg Hm. unfold FlowExecutor.deliver. rewrite Htn.
  destruct (Clone_unfold (world s) m msg Hm) as (w' & m' & HC & _).
  pose proof (Clone_log (world s) w' m _ HC) as Hlog.
  rewrite HC. cbn [chans set_world]. rewrite Hch, Hopen.
  destruct (length (buf ch) <? cap ch)%nat; eexists; (split; [reflexivity|]);
    cbn; rewrite Hlog; intros entry Hin Hnot;
    apply elem_of_app in Hin as [Hin|Hin]; try done;
    apply list_elem_of_singleton in Hin; by subst entry.
Qed.

(** X18.  In every state an installation passes through, the input channel
    and the stop channel of every runtime node exist and are open: the engine
    closes only the stop channels of runtime flows, and only of flows that
    are no longer marked running.  So no worker ever leaves its loop through
    the stop channel of its node. *)
Theorem reachable_node_channels_stay_open (e : Engine.t) (s : State) (a : ptr)
    (rf : RuntimeFlow.t) (id : string) (rn : RuntimeNode.t) :
  reachable e s ->
  rflows s !! a = Some rf ->
  RuntimeFlow.Nodes rf !! id = Some rn ->
  FlowExecutor.is_closed (RuntimeNode.InputChan rn) s = false /\
  FlowExecutor.is_closed (RuntimeNode.StopChan rn) s = false /\
  (forall c ch, chans s !! c = Some ch -> closed ch = true ->
     exists a' rf', rflows s !! a' = Some rf' /\ RuntimeFlow.StopChan rf' = c /\
       RuntimeFlow.Running rf' = false).
Proof.
  intros Hreach Hrf Hid. destruct (reachable_consistent e s Hreach) as [Hw Ha].
  destruct (is_closed_node_chan _ _ _ _ _ _ Hw Hrf Hid)
    as [(ch1 & Hch1 & Hopen1) (ch2 & Hch2 & Hopen2)].
  unfold FlowExecutor.is_closed. rewrite Hch1, Hch2.
  split; [exact Hopen1|]. split; [exact Hopen2|].
  intros c ch Hc Hclosed.
  destruct (wired_chans _ _ Hw c ch Hc) as (_ & _ & Hstop).
  destruct (Hstop Hclosed) as (a' & rf' & Ha' & Heq).
  exists a', rf'. split; [done|]. split; [done|].
  destruct (RuntimeFlow.Running rf') eqn:Hrun; [|done].
  pose proof (acc_running _ Ha a' rf' Ha' Hrun) as Hopen.
  unfold FlowExecutor.is_closed in Hopen. rewrite Heq, Hc in Hopen. congruence.
Qed.

(** *** The engine's operations, seen from outside *)


Lemma size_runtime_nodes (flow : Flow.t) (nodes : gmap string RuntimeNode.t) :
  NoDup (node_ids flow) ->
  (forall node, node ∈ Flow.Nodes flow -> is_Some (nodes !! Node.ID node)) ->
  (forall id rn, nodes !! id = Some rn -> id ∈ node_ids flow) ->
  length (map_to_list nodes) = length (Flow.Nodes flow).
Proof.
  intros Hnd Hin Hout. rewrite length_map_to_list.
  transitivity (size (dom nodes)); [symmetry; apply size_dom|].
  assert (dom nodes = list_to_set (node_ids flow)) as ->.
  { apply set_eq. intros id. rewrite elem_of_dom, elem_of_list_to_set. split.
    - intros [rn Hrn]. by eapply Hout.
    - intros (node & -> & Hn)%list_elem_of_fmap. by apply Hin. }
  rewrite size_list_to_set by done. unfold node_ids. by rewrite length_fmap.
Qed.

Lemma Engine_StartFlow_no_panic (e : Engine.t) (flowID : string) (s : State) (p : string) :
  (Engine.StartFlow e flowID s).1 <> Panic p.
Proof.
  destruct (Engine_StartFlow_cases e flowID s)
    as [[err ->]|(flow & _ & _ & Hv & ->)]; [done|].
  destruct (PrepareAndStartFlow_result (Engine.registry e) flow s Hv)
    as (nodes & s' & -> & _). done.
Qed.

Lemma Engine_StartFlow_running (e : Engine.t) (flowID : string) (s : State)
    (stored : Flow.t) :
  Engine.LoadFlow (Engine.storage e) flowID = Ok stored ->
  Flow.Validate stored = None ->
  FlowExecutor.ValidateFlow (Engine.registry e) (Some stored) = None ->
  (Engine.StartFlow e flowID s).1 = Nil /\
  FlowExecutor.GetFlowStatus (Flow.ID stored) (Engine.StartFlow e flowID s).2 = Ok true.
Proof.
  intros Hload Hval Hv. unfold Engine.StartFlow. rewrite Hload, Hval.
  destruct (PrepareAndStartFlow_result (Engine.registry e) stored s Hv)
    as (nodes & s' & -> & _ & Hrf & _ & Hfl & _).
  split; [done|]. cbn [snd]. unfold FlowExecutor.GetFlowStatus.
  by rewrite Hfl, lookup_insert_eq, Hrf, list_lookup_middle.
Qed.

(** X20.  [Engine.StartFlow] returns nil exactly when the storage has the
    flow, [Flow.Validate] accepts it and [ValidateFlow] accepts it; it never
    panics, and when it fails it leaves the state as it was.  When it
    succeeds, the flow is running under the id the stored flow carries (not
    under the id that was asked for, should the two differ), one worker per
    node has been added, and no message was made. *)
Theorem Engine_StartFlow_succeeds_iff (e : Engine.t) (flowID : string) (s : State) :
  ((Engine.StartFlow e flowID s).1 = Nil <->
   exists flow,
     Engine.LoadFlow (Engine.storage e) flowID = Ok flow /\
     Flow.Validate flow = None /\
     FlowExecutor.ValidateFlow (Engine.registry e) (Some flow) = None) /\
  ((Engine.StartFlow e flowID s).1 <> Nil ->
   exists err, Engine.StartFlow e flowID s = (Error err, s)) /\
  (forall flow,
     Engine.LoadFlow (Engine.storage e) flowID = Ok flow ->
     (Engine.StartFlow e flowID s).1 = Nil ->
     FlowExecutor.GetFlowStatus (Flow.ID flow) (Engine.StartFlow e flowID s).2 = Ok true /\
     length (goroutines (Engine.StartFlow e flowID s).2) =
       (length (goroutines s) + length (Flow.Nodes flow))%nat /\
     messages (world (Engine.StartFlow e flowID s).2) = messages (world s)).
Proof.
  destruct (Engine_StartFlow_cases e flowID s)
    as [[err Herr]|(flow & Hload & Hval & Hv & Hstart)].
  - rewrite Herr. cbn [fst snd]. split; [|split].
    + split; [done|]. intros (flow & Hload & Hval & Hv). exfalso.
      unfold Engine.StartFlow in Herr. rewrite Hload, Hval in Herr.
      destruct (PrepareAndStartFlow_result (Engine.registry e) flow s Hv)
        as (nodes & s' & Hrun & _).
      rewrite Hrun in Herr. discriminate Herr.
    + intros _. by exists err.
    + by intros flow _ ?.
  - destruct (PrepareAndStartFlow_result (Engine.registry e) flow s Hv)
      as (nodes & s' & Hrun & _ & Hrf & Hgo & Hfl & Hm & Hdom & Hmade).
    rewrite Hstart, Hrun. cbn [fst snd]. split; [|split].
    + split; [|done]. intros _. by exists flow.
    + by intros ?.
    + intros flow' Hload' _. assert (flow' = flow) as -> by congruence.
      split; [|split; [|exact Hm]].
      * unfold FlowExecutor.GetFlowStatus.
        rewrite Hfl, lookup_insert_eq, Hrf, list_lookup_middle by done. done.
      * rewrite Hgo, length_app, !length_fmap. f_equal.
        apply Validate_None in Hval as [Hnd _].
        apply size_runtime_nodes; [done|done|]. intros id rn Hid.
        by destruct (Hmade id rn Hid).
Qed.

Lemma running_persists_StartFlow (e : Engine.t) (flowID id : string) (s : State) :
  FlowExecutor.GetFlowStatus id s = Ok true ->
  FlowExecutor.GetFlowStatus id (Engine.StartFlow e flowID s).2 = Ok true.
Proof.
  intros Hrunning.
  destruct (Engine_StartFlow_cases e flowID s)
    as [[err ->]|(flow & _ & _ & Hv & ->)]; [done|].
  destruct (PrepareAndStartFlow_result (Engine.registry e) flow s Hv)
    as (nodes & s' & Hrun & _ & Hrf & _ & Hfl & _).
  rewrite Hrun. cbn [snd]. unfold FlowExecutor.GetFlowStatus in *.
  rewrite Hfl, Hrf. destruct (decide (Flow.ID flow = id)) as [<-|Hne].
  - by rewrite lookup_insert_eq, list_lookup_middle.
  - rewrite lookup_insert_ne by done.
    destruct (flows s !! id) as [a|]; [|done].
    destruct (rflows s !! a) as [rf|] eqn:Ha; [|done].
    by rewrite (lookup_app_l_Some _ _ _ _ Ha).
Qed.

Lemma start_active_Nil (e : Engine.t) (loaded : list Flow.t) :
  forall s, (Engine.start_active e loaded s).1 = Nil.
Proof.
  induction loaded as [|flow rest IH]; intros s; cbn; [done|].
  destruct (Flow.Active flow); [|by apply IH].
  destruct (Engine_StartFlow_cases e (Flow.ID flow) s)
    as [[err ->]|(stored & _ & _ & Hv & ->)]; [by apply IH|].
  destruct (PrepareAndStartFlow_result (Engine.registry e) stored s Hv)
    as (nodes & s' & -> & _). by apply IH.
Qed.

Lemma running_persists_start_active (e : Engine.t) (id : string)
    (loaded : list Flow.t) :
  forall s, FlowExecutor.GetFlowStatus id s = Ok true ->
  FlowExecutor.GetFlowStatus id (Engine.start_active e loaded s).2 = Ok true.
Proof.
  induction loaded as [|flow rest IH]; intros s Hrunning; cbn; [done|].
  destruct (Flow.Active flow); [|by apply IH].
  pose proof (running_persists_StartFlow e (Flow.ID flow) id s Hrunning) as H1.
  destruct (Engine.StartFlow e (Flow.ID flow) s) as [[|err|p] s1]; cbn [snd] in *.
  - by apply IH.
  - by apply IH.
  - done.
Qed.

(** X21.  [LoadAndStartFlows] fails only when the flows cannot be loaded,
    and then changes nothing.  Otherwise it returns nil, whatever happens to
    the single flows: a flow that cannot be started does not keep the later
    ones from starting.  Flows that are not active are not touched; every
    active flow of the list that the storage has and both validations accept
    is running afterwards. *)
Theorem LoadAndStartFlows_starts_active (e : Engine.t) (s : State) :
  (forall err,
     Engine.LoadAndStartFlows e (Err err) s =
       (Error ("failed to load flows: " +:+ err), s)) /\
  (forall loaded,
     (Engine.LoadAndStartFlows e (Ok loaded) s).1 = Nil /\
     (Forall (fun flow => Flow.Active flow = false) loaded ->
      (Engine.LoadAndStartFlows e (Ok loaded) s).2 = s) /\
     (forall flow stored,
        flow ∈ loaded -> Flow.Active flow = true ->
        Engine.LoadFlow (Engine.storage e) (Flow.ID flow) = Ok stored ->
        Flow.Validate stored = None ->
        FlowExecutor.ValidateFlow (Engine.registry e) (Some stored) = None ->
        FlowExecutor.GetFlowStatus (Flow.ID stored)
          (Engine.LoadAndStartFlows e (Ok loaded) s).2 = Ok true)).
Proof.
  split; [done|]. intros loaded. cbn [Engine.LoadAndStartFlows].
  split; [apply start_active_Nil|]. split.
  - revert s. induction loaded as [|flow rest IH]; intros s Hall; cbn; [done|].
    apply Forall_cons in Hall as [-> Hall]. by apply IH.
  - revert s. induction loaded as [|flow rest IH];
      intros s flow0 stored Hin Hact Hload Hval Hv.
    { by apply elem_of_nil in Hin. }
    apply elem_of_cons in Hin as [->|Hin].
    + cbn. rewrite Hact.
      destruct (Engine_StartFlow_running e (Flow.ID flow) s stored Hload Hval Hv)
        as [Hnil Hrunning].
      destruct (Engine.StartFlow e (Flow.ID flow) s) as [o s1]. cbn [fst snd] in *.
      subst o. by apply running_persists_start_active.
    + cbn. destruct (Flow.Active flow); [|by eapply IH].
      pose proof (Engine_StartFlow_no_panic e (Flow.ID flow) s) as Hnp.
      destruct (Engine.StartFlow e (Flow.ID flow) s) as [[|err|p] s1].
      * by eapply IH.
      * by eapply IH.
      * by destruct (Hnp p).
Qed.

(** ** The further theorems at concrete inputs *)

(** Removing the recorder from [flow1]. *)
Lemma RemoveNode_keeps_valid_witness :
  Flow.Validate Sample.flow1 = None /\
  Flow.Validate (Flow.RemoveNode "n2" Sample.flow1 Sample.world0).1.2 = None /\
  Flow.GetNode (Flow.RemoveNode "n2" Sample.flow1 Sample.world0).1.2 "n2" = None.
Proof.
  assert (Hv : Flow.Validate Sample.flow1 = None) by (by vm_compute).
  split; [exact Hv|].
  destruct (RemoveNode_keeps_valid "n2" Sample.flow1 Sample.world0 Hv)
    as (Hvalid & Hgone & _).
  split; [exact Hvalid|exact Hgone].
Defined.

(** Adding a second recorder to [flow1]. *)
Lemma AddNode_valid_iff_new_id_witness :
  Flow.Validate Sample.flow1 = None /\
  Flow.Validate (Flow.AddNode (Sample.recorder_node "n3") Sample.flow1 Sample.world0).1
    = None /\
  Flow.GetNode (Flow.AddNode (Sample.recorder_node "n3") Sample.flow1 Sample.world0).1
    "n3" = Some 2%nat.
Proof.
  assert (Hv : Flow.Validate Sample.flow1 = None) by (by vm_compute).
  split; [exact Hv|].
  destruct (AddNode_valid_iff_new_id (Sample.recorder_node "n3") Sample.flow1
              Sample.world0 Hv) as [Hiff Hfound].
  split; [apply Hiff; by vm_compute|apply Hfound; by vm_compute].
Defined.

(** Adding a second wire to [flow1]. *)
Lemma AddConnection_valid_iff_ends_exist_witness :
  Flow.Validate Sample.flow1 = None /\
  Flow.Validate
    (Flow.AddConnection (Sample.wire "c2" "n1" 0 "n2" 0) Sample.flow1 Sample.world0).1
    = None.
Proof.
  assert (Hv : Flow.Validate Sample.flow1 = None) by (by vm_compute).
  split; [exact Hv|].
  apply (AddConnection_valid_iff_ends_exist (Sample.wire "c2" "n1" 0 "n2" 0)
           Sample.flow1 Sample.world0 Hv).
  split; vm_compute; eauto.
Defined.

(** The state after [flow1] was started through the engine is one an
    installation passes through. *)
Lemma Run_started_reachable : reachable Sample.engine Run.started.
Proof.
  exact (reach_StartFlow Sample.engine "f1" _
           (reach_new Sample.engine Sample.world0)).
Qed.

(** The input channel of the recorder of the started [flow1]. *)
Lemma reachable_queues_bounded_witness :
  reachable Sample.engine Run.started /\
  chans Run.started !! 4%nat = Some (fresh_chan 100) /\
  (length (buf (fresh_chan 100)) <= cap (fresh_chan 100))%nat.
Proof.
  assert (Hc : chans Run.started !! 4%nat = Some (fresh_chan 100)) by (by vm_compute).
  split; [exact Run_started_reachable|]. split; [exact Hc|].
  by destruct (reachable_queues_bounded Sample.engine Run.started 4 (fresh_chan 100)
                 Run_started_reachable Hc) as [Hb _].
Defined.

(** The runtime flow of the started [flow1] counts its two workers. *)
Lemma reachable_WaitGroup_counts_workers_witness :
  exists rf,
    rflows Run.started !! 0%nat = Some rf /\
    RuntimeFlow.WaitGroup rf = Z.of_nat (length (workers_of 0 Run.started)).
Proof.
  assert (Hrf : is_Some (rflows Run.started !! 0%nat)) by by_decision.
  destruct Hrf as [rf Hrf]. exists rf. split; [exact Hrf|].
  by destruct (reachable_WaitGroup_counts_workers Sample.engine Run.started 0 rf
                 Run_started_reachable Hrf) as [Hcount _].
Defined.

(** The first worker of the started [flow1] runs a node of a runtime flow
    that exists. *)
Lemma reachable_fanout_targets_live_witness :
  exists wk flow,
    goroutines Run.started !! 0%nat = Some wk /\
    rflows Run.started !! wk_flow wk = Some flow.
Proof.
  assert (Hwk : is_Some (goroutines Run.started !! 0%nat)) by by_decision.
  destruct Hwk as [wk Hwk].
  destruct (reachable_fanout_targets_live Sample.engine Run.started wk
              Run_started_reachable (list_elem_of_lookup_2 _ _ _ Hwk))
    as (flow & Hflow & _).
  exists wk, flow. split; [exact Hwk|exact Hflow].
Defined.

(** The channels of the inject node of the started [flow1] are open. *)
Lemma reachable_node_channels_stay_open_witness :
  exists rf rn,
    rflows Run.started !! 0%nat = Some rf /\
    RuntimeFlow.Nodes rf !! "n1" = Some rn /\
    FlowExecutor.is_closed (RuntimeNode.InputChan rn) Run.started = false /\
    FlowExecutor.is_closed (RuntimeNode.StopChan rn) Run.started = false.
Proof.
  assert (Hrf : is_Some (rflows Run.started !! 0%nat)) by by_decision.
  destruct Hrf as [rf Hrf].
  assert (Hrn : is_Some (RuntimeFlow.Nodes rf !! "n1")).
  { assert (H : is_Some (rflows Run.started !! 0%nat ≫= fun rf => RuntimeFlow.Nodes rf !! "n1"))
      by by_decision.
    by rewrite Hrf in H. }
  destruct Hrn as [rn Hrn].
  destruct (reachable_node_channels_stay_open Sample.engine Run.started 0 rf "n1" rn
              Run_started_reachable Hrf Hrn) as (Hin & Hstop & _).
  exists rf, rn. split; [exact Hrf|]. split; [exact Hrn|]. split; [exact Hin|exact Hstop].
Defined.


(** ** Further properties of workers, preparation and identifiers *)

(** X22.  One turn of an Action worker: it takes the oldest message of its
    input channel and runs its block on it.  Whatever the block returns,
    messages or an error, no other channel changes: nothing is forwarded.  An
    error is logged with the node id, and the worker, the runtime flows and
    the executor's map stay as they were. *)
Theorem Action_worker_forwards_nothing (node : RuntimeNode.t) (flow : RuntimeFlow.t)
    (msg : option ptr) (s s1 s2 : State) :
  FlowExecutor.recv (RuntimeNode.InputChan node) s = Some (msg, s1) ->
  FlowExecutor.runActionNode_recv node flow msg s1 = Some s2 ->
  (exists ch,
     chans s !! RuntimeNode.InputChan node = Some ch /\
     head (buf ch) = Some msg /\
     chans s2 !! RuntimeNode.InputChan node =
       Some {| buf := tail (buf ch); cap := cap ch; closed := closed ch |}) /\
  (forall c, c <> RuntimeNode.InputChan node -> chans s2 !! c = chans s !! c) /\
  rflows s2 = rflows s /\ goroutines s2 = goroutines s /\ flows s2 = flows s /\
  (forall err w1,
     Execute (RuntimeNode.Block_ node) (FlowExecutor.worker_context node msg)
       (RuntimeNode.Properties node) (world s) = Some (Err err, w1) ->
     log (world s2) =
       log w1 ++ [ {| level := ERROR; text := "Error executing action node";
                      fields := [("node_id", VStr (RuntimeNode.ID node));
                                 ("error", VStr err)] |} ]).
Proof.
  intros Hrecv Hrun. unfold FlowExecutor.recv in Hrecv.
  destruct (chans s !! RuntimeNode.InputChan node) as [ch|] eqn:Hch; [|done].
  destruct (buf ch) as [|m rest] eqn:Hbuf; [done|].
  inversion Hrecv; subst msg s1. clear Hrecv.
  unfold FlowExecutor.runActionNode_recv in Hrun. cbn [world set_chans] in Hrun.
  assert (Hlt : (RuntimeNode.InputChan node < length (chans s))%nat)
    by (by eapply lookup_lt_Some).
  split.
  { exists ch. split; [done|]. rewrite Hbuf. split; [done|].
    destruct (Execute _ _ _ _) as [[[msgs|err] w1]|]; [| |done];
      inversion Hrun; subst s2; cbn; by rewrite list_lookup_insert_eq. }
  split.
  { intros c Hc.
    destruct (Execute _ _ _ _) as [[[msgs|err] w1]|]; [| |done];
      inversion Hrun; subst s2; cbn; by rewrite list_lookup_insert_ne. }
  destruct (Execute _ _ _ _) as [[[msgs|err] w1]|]; [| |done];
    inversion Hrun; subst s2; cbn.
  - repeat (split; [done|]). by intros err w1' [=].
  - repeat (split; [done|]). by intros err' w1' [= <- <-].
Qed.

(** X23.  [PrepareFlow] fails only through [ValidateFlow]: with the error
    of the validation behind the prefix, and without having made a channel or
    a runtime flow.  Whenever the validation passes it succeeds and returns a
    new runtime flow; the errors for a block that cannot be created are never
    returned. *)
Theorem PrepareFlow_fails_only_on_validation (registry : Registry.t)
    (flow : option Flow.t) (s : State) :
  (forall e, FlowExecutor.ValidateFlow registry flow = Some e ->
     FlowExecutor.PrepareFlow registry flow s =
       (Err ("flow validation failed: " +:+ e), s)) /\
  (FlowExecutor.ValidateFlow registry flow = None ->
   exists s' rf,
     FlowExecutor.PrepareFlow registry flow s = (Ok (length (rflows s)), s') /\
     rflows s' = rflows s ++ [rf] /\
     RuntimeFlow.Running rf = false /\ RuntimeFlow.WaitGroup rf = 0%Z /\
     RuntimeFlow.StopChan rf = length (chans s) /\
     chans s' !! length (chans s) = Some (fresh_chan 0) /\
     goroutines s' = goroutines s /\ flows s' = flows s) /\
  (forall e s', FlowExecutor.PrepareFlow registry flow s = (Err e, s') ->
     s' = s /\ FlowExecutor.ValidateFlow registry flow <> None).
Proof.
  assert (Hok : FlowExecutor.ValidateFlow registry flow = None ->
            exists s' rf,
              FlowExecutor.PrepareFlow registry flow s = (Ok (length (rflows s)), s') /\
              rflows s' = rflows s ++ [rf] /\
              RuntimeFlow.Running rf = false /\ RuntimeFlow.WaitGroup rf = 0%Z /\
              RuntimeFlow.StopChan rf = length (chans s) /\
              chans s' !! length (chans s) = Some (fresh_chan 0) /\
              goroutines s' = goroutines s /\ flows s' = flows s).
  { intros Hv. destruct flow as [flow|]; [|done].
    destruct (PrepareFlow_unfold registry flow s Hv)
      as (nodes & s2 & Hrun & Hrf & Hg & Hfl & Hprep).
    pose proof (create_runtime_nodes_frame registry (length (rflows s))
                  (Flow.Connections flow) (Flow.Nodes flow) ∅
                  (set_chans (chans s ++ [fresh_chan 0]) s)) as Hframe.
    cbn zeta in Hframe. rewrite Hrun in Hframe. cbn [snd] in Hframe.
    destruct Hframe as ((extra & Hch & _) & _).
    eexists _, _. split; [exact Hprep|]. cbn. rewrite Hrf, Hg, Hfl.
    repeat (split; [reflexivity|]). split; [|done].
    rewrite Hch. cbn. rewrite <- app_assoc. by apply list_lookup_middle. }
  split; [|split; [exact Hok|]].
  - intros e Hv. unfold FlowExecutor.PrepareFlow. by rewrite Hv.
  - intros e s' Hprep.
    destruct (FlowExecutor.ValidateFlow registry flow) as [ve|] eqn:Hv.
    + unfold FlowExecutor.PrepareFlow in Hprep. rewrite Hv in Hprep.
      inversion Hprep. done.
    + destruct (Hok eq_refl) as (s'' & rf & Hp & _). congruence.
Qed.

Lemma hex_EncodeToString_length (bs : list byte) :
  String.length (hex.EncodeToString bs) = (2 * length bs)%nat.
Proof. induction bs as [|b bs IH]; cbn; [done|]. rewrite IH. lia. Qed.

(** X24.  When the random source delivers, [generateID] returns the
    lower-case hexadecimal form of the bytes it drew, two characters per
    byte, from which the bytes can be read back; it reads the source once and
    does not read the clock.  So two identifiers are equal exactly when the
    drawn bytes are, and an identifier made by the fallback, which reads the
    clock instead, never equals one drawn from the source. *)
Theorem generateID_distinct_draws (w1 w2 : World) (bs1 bs2 : list byte) :
  rand_Read (env w1) (draws w1) = RandBytes bs1 ->
  rand_Read (env w2) (draws w2) = RandBytes bs2 ->
  ((generateID w1).1 = (generateID w2).1 <-> bs1 = bs2) /\
  String.length (generateID w1).1 = (2 * length bs1)%nat /\
  hex.DecodeString (generateID w1).1 = Some bs1 /\
  draws (generateID w1).2 = S (draws w1) /\
  ticks (generateID w1).2 = ticks w1 /\
  (forall w3, rand_Read (env w3) (draws w3) = RandErr ->
     (generateID w3).1 <> (generateID w1).1 /\
     ticks (generateID w3).2 = S (ticks w3)).
Proof.
  intros H1 H2. rewrite !generateID_id, H1, H2.
  split.
  { split; [apply hex_EncodeToString_inj|by intros ->]. }
  split; [apply hex_EncodeToString_length|].
  split; [apply hex_DecodeString_EncodeToString|].
  split; [unfold generateID, Read; by rewrite H1|].
  split; [unfold generateID, Read; by rewrite H1|].
  intros w3 H3. rewrite generateID_id, H3. split.
  - intros Heq. symmetry in Heq. by eapply hex_EncodeToString_not_fallback.
  - unfold generateID, Read. by rewrite H3.
Qed.

(** One turn of the recorder "a" with one message waiting. *)
Lemma Action_worker_forwards_nothing_witness :
  exists s2,
    FlowExecutor.recv 0 Turn.state = Some (Some 0%nat, Turn.received) /\
    FlowExecutor.runActionNode_recv (Fanout.target "a" 0) Fanout.flow (Some 0%nat)
      Turn.received = Some s2 /\
    goroutines s2 = goroutines Turn.state /\
    chans s2 !! 0%nat = Some {| buf := []; cap := 100; closed := false |}.
Proof.
  assert (Hrecv : FlowExecutor.recv 0 Turn.state = Some (Some 0%nat, Turn.received))
    by reflexivity.
  assert (Hrun : is_Some (FlowExecutor.runActionNode_recv (Fanout.target "a" 0)
                            Fanout.flow (Some 0%nat) Turn.received)) by by_decision.
  destruct Hrun as [s2 Hrun].
  destruct (Action_worker_forwards_nothing (Fanout.target "a" 0) Fanout.flow
              (Some 0%nat) Turn.state Turn.received s2 Hrecv Hrun)
    as ((ch & Hch & _ & Hown) & _ & _ & Hgo & _).
  exists s2. split; [exact Hrecv|]. split; [exact Hrun|]. split; [exact Hgo|].
  cbn in Hch. inversion Hch; subst ch. exact Hown.
Defined.

(** The first two identifiers of the sample world's random source. *)
Lemma generateID_distinct_draws_witness :
  (generateID Sample.world0).1 <> (generateID (generateID Sample.world0).2).1 /\
  String.length (generateID Sample.world0).1 = 32%nat.
Proof.
  destruct (generateID_distinct_draws Sample.world0 (generateID Sample.world0).2
              (replicate 16 x00) (replicate 16 x01)) as (Hiff & Hlen & _).
  - reflexivity.
  - reflexivity.
  - split; [|exact Hlen]. intros Heq. apply Hiff in Heq. discriminate Heq.
Defined.

(** ** The constructors and the two validations *)

Lemma two_node_flow_unfold (name type1 name1 type2 name2 connID : string) (w : World) :
  exists id id1 id2 now now',
    two_node_flow name type1 name1 type2 name2 connID w =
    Flow.mk id name ""
      [Node.mk id1 type1 name1 ∅ 1 1 [[]]; Node.mk id2 type2 name2 ∅ 1 1 [[]]]
      [Connection.mk connID id1 0 id2 0 ""] ∅ now now' "1.0.0" false.
Proof.
  unfold two_node_flow, NewFlow, NewNode.
  destruct (Now w) as [now w']. destruct (generateID w') as [id w0].
  destruct (generateID w0) as [id1 w1]. destruct (generateID w1) as [id2 w2].
  unfold Flow.AddNode, Flow.AddConnection.
  destruct (Now w2) as [t1 w3]. destruct (Now w3) as [t2 w4].
  destruct (Now w4) as [t3 w5]. cbn. by eexists _, _, _, _, _.
Qed.

(** X25.  The defaults of the constructors fit the validations.  A flow as
    [NewFlow] returns it passes [Flow.Validate] but not [ValidateFlow], which
    wants a node.  With two nodes made by [NewNode] and added by [AddNode],
    wired by [AddConnection] from output 0 of the first to input 0 of the
    second, the flow passes both validations whenever both block types are
    registered and the two generated node ids differ; it is not active. *)
Theorem constructed_flow_is_valid (registry : Registry.t)
    (name type1 name1 type2 name2 connID : string) (w : World) :
  is_Some (Registry.blocks registry !! type1) ->
  is_Some (Registry.blocks registry !! type2) ->
  NoDup (node_ids (two_node_flow name type1 name1 type2 name2 connID w)) ->
  Flow.Validate (two_node_flow name type1 name1 type2 name2 connID w) = None /\
  FlowExecutor.ValidateFlow registry
    (Some (two_node_flow name type1 name1 type2 name2 connID w)) = None /\
  Flow.Active (two_node_flow name type1 name1 type2 name2 connID w) = false /\
  Flow.Validate (NewFlow name w).1 = None /\
  FlowExecutor.ValidateFlow registry (Some (NewFlow name w).1) =
    Some "flow must contain at least one block".
Proof.
  intros [f1 Hf1] [f2 Hf2] Hnd.
  destruct (two_node_flow_unfold name type1 name1 type2 name2 connID w)
    as (id & id1 & id2 & now & now' & Heq).
  rewrite Heq in Hnd |- *. clear Heq.
  unfold node_ids in Hnd. cbn in Hnd.
  apply NoDup_cons in Hnd as [Hne _]. apply not_elem_of_cons in Hne as [Hne _].
  split.
  { apply Validate_None. unfold node_ids. cbn. split.
    - apply NoDup_cons. split; [|apply NoDup_singleton].
      intros Hin. by apply list_elem_of_singleton in Hin.
    - intros conn Hin. apply list_elem_of_singleton in Hin. subst conn. cbn.
      split; [by left|right; by left]. }
  split.
  { unfold FlowExecutor.ValidateFlow, FlowExecutor.build_nodeMap. cbn.
    unfold Registry.GetBlockInfoByType. rewrite Hf1, Hf2.
    rewrite lookup_insert_ne by done. rewrite !lookup_insert_eq. done. }
  split; [done|].
  unfold NewFlow. destruct (Now w) as [t w']. destruct (generateID w') as [i w0].
  done.
Qed.

(** A flow of an inject node and a recorder, built in the sample world. *)
Lemma constructed_flow_is_valid_witness :
  Flow.Validate (two_node_flow "demo" "inject" "in" "recorder" "out" "c1" Sample.world0)
    = None /\
  FlowExecutor.ValidateFlow Sample.registry
    (Some (two_node_flow "demo" "inject" "in" "recorder" "out" "c1" Sample.world0))
    = None.
Proof.
  destruct (constructed_flow_is_valid Sample.registry "demo" "inject" "in" "recorder"
              "out" "c1" Sample.world0) as (Hv & Hvf & _).
  - by_decision.
  - by_decision.
  - by_decision.
  - split; [exact Hv|exact Hvf].
Defined.

(** ** When a worker's turn can panic *)

Lemma Clone_grows (w w' : World) (p p' : ptr) :
  Clone p w = Some (p', w') -> messages w `prefix_of` messages w'.
Proof.
  intros HC. destruct (messages w !! p) as [m|] eqn:Hm.
  - destruct (Clone_unfold w p m Hm) as (w2 & m' & HC' & Hms & _).
    rewrite HC in HC'. inversion HC'; subst. rewrite Hms. by apply prefix_app_r.
  - unfold Clone in HC. by rewrite Hm in HC.
Qed.

Lemma deliver_live (r : Registry.t) (s : State) (a : ptr) (flow : RuntimeFlow.t)
    (node : RuntimeNode.t) (t : string) (m : ptr) :
  wired r s -> rflows s !! a = Some flow ->
  is_Some (RuntimeFlow.Nodes flow !! t) ->
  is_Some (messages (world s) !! m) ->
  exists s',
    FlowExecutor.deliver node (Some m) flow t s = Some s' /\
    only_buffers_changed s s' /\
    messages (world s) `prefix_of` messages (world s').
Proof.
  intros Hw Hflow [tn Htn] [msg Hm].
  destruct (is_closed_node_chan _ _ _ _ _ _ Hw Hflow Htn) as [(ch & Hch & Hopen) _].
  destruct (Clone_unfold (world s) m msg Hm) as (w' & m' & HC & _).
  pose proof (Clone_grows _ _ _ _ HC) as Hgrow.
  destruct (FlowExecutor.deliver node (Some m) flow t s) as [s'|] eqn:Hd.
  - exists s'. split; [done|]. split; [by eapply deliver_only_buffers_changed|].
    unfold FlowExecutor.deliver in Hd. rewrite Htn, HC in Hd.
    cbn [chans set_world] in Hd. rewrite Hch, Hopen in Hd.
    by destruct (length (buf ch) <? cap ch)%nat; inversion Hd; subst s'.
  - exfalso. unfold FlowExecutor.deliver in Hd. rewrite Htn, HC in Hd.
    cbn [chans set_world] in Hd. rewrite Hch, Hopen in Hd.
    by destruct (length (buf ch) <? cap ch)%nat.
Qed.

Lemma deliver_each_live (r : Registry.t) (a : ptr) (flow : RuntimeFlow.t)
    (node : RuntimeNode.t) (m : ptr) (targets : list string) :
  forall s,
  wired r s -> rflows s !! a = Some flow ->
  (forall t, t ∈ targets -> is_Some (RuntimeFlow.Nodes flow !! t)) ->
  is_Some (messages (world s) !! m) ->
  exists s',
    FlowExecutor.deliver_each node (Some m) flow targets s = Some s' /\
    only_buffers_changed s s' /\
    messages (world s) `prefix_of` messages (world s').
Proof.
  induction targets as [|t rest IH]; intros s Hw Hflow Htargets Hm.
  - exists s. split; [done|]. split; [by apply only_buffers_changed_refl|done].
  - destruct (deliver_live r s a flow node t m Hw Hflow) as (s1 & Hd & Hob & Hgrow);
      [apply Htargets; by left|done|].
    destruct Hm as [msg Hm].
    destruct (IH s1) as (s' & Hrest & Hob' & Hgrow').
    + by eapply wired_only_buffers_changed.
    + destruct Hob as (-> & _). done.
    + intros t' Ht'. apply Htargets. by right.
    + exists msg. by eapply prefix_lookup_Some.
    + exists s'. cbn. rewrite Hd. split; [done|].
      split; [by eapply only_buffers_changed_trans|by etrans].
Qed.

Lemma all_live_prefix (w w' : World) (msgs : list (option ptr)) :
  messages w `prefix_of` messages w' -> all_live w msgs -> all_live w' msgs.
Proof.
  intros Hgrow Hlive. eapply Forall_impl; [exact Hlive|].
  intros m (p & -> & [msg Hp]).
  exists p. split; [done|]. exists msg. by eapply prefix_lookup_Some.
Qed.

Lemma distribute_all_live (r : Registry.t) (a : ptr) (flow : RuntimeFlow.t)
    (node : RuntimeNode.t) (msgs : list (option ptr)) :
  forall s,
  wired r s -> rflows s !! a = Some flow ->
  (forall t, t ∈ RuntimeNode.OutputConnections node ->
     is_Some (RuntimeFlow.Nodes flow !! t)) ->
  all_live (world s) msgs ->
  exists s',
    FlowExecutor.distribute_all node msgs flow s = Some s' /\
    only_buffers_changed s s'.
Proof.
  induction msgs as [|m rest IH]; intros s Hw Hflow Htargets Hlive.
  - exists s. split; [done|]. by apply only_buffers_changed_refl.
  - apply Forall_cons in Hlive as [(p & -> & Hp) Hlive].
    destruct (deliver_each_live r a flow node p (RuntimeNode.OutputConnections node)
                s Hw Hflow Htargets Hp) as (s1 & Hd & Hob & Hgrow).
    destruct (IH s1) as (s' & Hrest & Hob').
    + by eapply wired_only_buffers_changed.
    + destruct Hob as (-> & _). done.
    + done.
    + by eapply all_live_prefix.
    + exists s'. cbn. unfold FlowExecutor.distributeMessage. rewrite Hd.
      split; [done|]. by eapply only_buffers_changed_trans.
Qed.

Lemma distribute_all_nil (node : RuntimeNode.t) (flow : RuntimeFlow.t)
    (msgs : list (option ptr)) :
  RuntimeNode.OutputConnections node <> [] ->
  (forall t, t ∈ RuntimeNode.OutputConnections node ->
     is_Some (RuntimeFlow.Nodes flow !! t)) ->
  None ∈ msgs ->
  forall s, FlowExecutor.distribute_all node msgs flow s = None.
Proof.
  intros Hout Htargets.
  destruct (RuntimeNode.OutputConnections node) as [|t rest] eqn:Eout; [done|].
  destruct (Htargets t) as [tn Htn]; [by left|].
  induction msgs as [|m msgs IH]; intros Hin s.
  - by apply elem_of_nil in Hin.
  - cbn. unfold FlowExecutor.distributeMessage. rewrite Eout.
    apply elem_of_cons in Hin as [<-|Hin].
    + cbn. unfold FlowExecutor.deliver. by rewrite Htn.
    + destruct (FlowExecutor.deliver_each _ _ _ _ _) as [s1|]; [by apply IH|done].
Qed.

(** The fan-out of what a block returned, in a wired state. *)
Lemma fanout_after_Execute (r : Registry.t) (s : State) (a : ptr)
    (flow : RuntimeFlow.t) (node : RuntimeNode.t) (w1 : World)
    (msgs : list (option ptr)) :
  wired r s -> rflows s !! a = Some flow ->
  (forall t, t ∈ RuntimeNode.OutputConnections node ->
     is_Some (RuntimeFlow.Nodes flow !! t)) ->
  all_live w1 msgs ->
  exists s',
    FlowExecutor.distribute_all node msgs flow (set_world w1 s) = Some s' /\
    only_buffers_changed s s'.
Proof.
  intros Hw Hflow Htargets Hlive.
  assert (Hob : only_buffers_changed s (set_world w1 s))
    by (by apply only_buffers_changed_refl).
  destruct (distribute_all_live r a flow node msgs (set_world w1 s)) as (s' & Hrun & Hob');
    [exact (wired_only_buffers_changed _ _ _ Hob Hw)|exact Hflow|exact Htargets
    |exact Hlive|].
  exists s'. split; [done|]. exact (only_buffers_changed_trans _ _ _ Hob Hob').
Qed.

(** X26.  In every state an installation passes through, the turn of a live
    worker panics only through its block.  When the block's [Execute] returns
    an error, or messages that are all non-nil pointers to messages, the tick
    of an Input worker and the receive of a Propagation worker complete; the
    receive of an Action worker completes whatever the block returns.  The
    turn changes only the world and what the channels hold, and the state
    after it is again one an installation passes through.  When the block
    returns a nil message and the node has an outgoing connection, the
    fan-out panics on the nil pointer. *)
Theorem worker_turn_panics_only_through_block (e : Engine.t) (s : State)
    (i : nat) (wk : Worker) :
  reachable e s ->
  goroutines s !! i = Some wk ->
  exists flow,
    rflows s !! wk_flow wk = Some flow /\
    (forall result w1,
       Execute (RuntimeNode.Block_ (wk_node wk))
         (FlowExecutor.worker_context (wk_node wk) None)
         (RuntimeNode.Properties (wk_node wk)) (world s) = Some (result, w1) ->
       ((forall msgs, result = Ok msgs -> all_live w1 msgs) ->
        exists s2,
          FlowExecutor.runInputNode_tick (wk_node wk) flow s = Some s2 /\
          only_buffers_changed s s2 /\
          (forall period, wk_phase wk = InputLoop period -> reachable e s2)) /\
       (forall msgs, result = Ok msgs -> None ∈ msgs ->
          RuntimeNode.OutputConnections (wk_node wk) <> [] ->
          FlowExecutor.runInputNode_tick (wk_node wk) flow s = None)) /\
    (forall msg s1 result w1,
       FlowExecutor.recv (RuntimeNode.InputChan (wk_node wk)) s = Some (msg, s1) ->
       Execute (RuntimeNode.Block_ (wk_node wk))
         (FlowExecutor.worker_context (wk_node wk) msg)
         (RuntimeNode.Properties (wk_node wk)) (world s1) = Some (result, w1) ->
       ((forall msgs, result = Ok msgs -> all_live w1 msgs) ->
        exists s2,
          FlowExecutor.runPropagationNode_recv (wk_node wk) flow msg s1 = Some s2 /\
          only_buffers_changed s s2 /\
          (wk_phase wk = PropagationLoop -> reachable e s2)) /\
       (forall msgs, result = Ok msgs -> None ∈ msgs ->
          RuntimeNode.OutputConnections (wk_node wk) <> [] ->
          FlowExecutor.runPropagationNode_recv (wk_node wk) flow msg s1 = None) /\
       (exists s2,
          FlowExecutor.runActionNode_recv (wk_node wk) flow msg s1 = Some s2 /\
          only_buffers_changed s s2 /\
          (wk_phase wk = ActionLoop -> reachable e s2))).
Proof.
  intros Hreach Hwk. destruct (reachable_consistent e s Hreach) as [Hw _].
  destruct (wired_workers _ _ Hw wk (list_elem_of_lookup_2 _ _ _ Hwk))
    as (flow & Hflow & Hnode).
  destruct (wired_nodes _ _ Hw _ _ _ _ Hflow Hnode) as (_ & _ & _ & _ & _ & _ & Htargets).
  exists flow. split; [exact Hflow|]. split.
  - intros result w1 Hexec. split.
    + intros Hlive.
      assert (Hrun : exists s2,
                FlowExecutor.runInputNode_tick (wk_node wk) flow s = Some s2 /\
                only_buffers_changed s s2).
      { unfold FlowExecutor.runInputNode_tick. rewrite Hexec.
        destruct result as [msgs|err].
        - by eapply fanout_after_Execute; [exact Hw|exact Hflow|exact Htargets|apply Hlive].
        - eexists. split; [reflexivity|]. by apply only_buffers_changed_refl. }
      destruct Hrun as (s2 & Hrun & Hob). exists s2. split; [done|]. split; [done|].
      intros period Hphase. eapply reach_step; [exact Hreach|].
      by eapply FlowExecutor.step_tick.
    + intros msgs -> Hnil Hout. unfold FlowExecutor.runInputNode_tick. rewrite Hexec.
      by apply distribute_all_nil.
  - intros msg s1 result w1 Hrecv Hexec.
    pose proof (recv_only_buffers_changed _ _ _ _ Hrecv) as Hob1.
    pose proof (wired_only_buffers_changed _ _ _ Hob1 Hw) as Hw1.
    assert (Hflow1 : rflows s1 !! wk_flow wk = Some flow).
    { destruct Hob1 as (-> & _). done. }
    split; [|split].
    + intros Hlive.
      assert (Hrun : exists s2,
                FlowExecutor.runPropagationNode_recv (wk_node wk) flow msg s1 = Some s2 /\
                only_buffers_changed s1 s2).
      { unfold FlowExecutor.runPropagationNode_recv. rewrite Hexec.
        destruct result as [msgs|err].
        - by eapply fanout_after_Execute; [exact Hw1|exact Hflow1|exact Htargets|apply Hlive].
        - eexists. split; [reflexivity|]. by apply only_buffers_changed_refl. }
      destruct Hrun as (s2 & Hrun & Hob). exists s2. split; [done|].
      split; [by eapply only_buffers_changed_trans|].
      intros Hphase. eapply reach_step; [exact Hreach|].
      by eapply FlowExecutor.step_propagate.
    + intros msgs -> Hnil Hout. unfold FlowExecutor.runPropagationNode_recv.
      rewrite Hexec. by apply distribute_all_nil.
    + assert (Hrun : exists s2,
                FlowExecutor.runActionNode_recv (wk_node wk) flow msg s1 = Some s2).
      { unfold FlowExecutor.runActionNode_recv. rewrite Hexec.
        destruct result; by eexists. }
      destruct Hrun as (s2 & Hrun). exists s2. split; [done|].
      destruct (runActionNode_recv_only_buffers_changed _ _ _ _ _ Hrun) as [Hob _].
      split; [by eapply only_buffers_changed_trans|].
      intros Hphase. eapply reach_step; [exact Hreach|].
      by eapply FlowExecutor.step_act.
Qed.

(** The inject worker of the started [flow1] belongs to a runtime flow. *)
Lemma worker_turn_panics_only_through_block_witness :
  exists wk flow,
    goroutines Run.started !! 0%nat = Some wk /\
    rflows Run.started !! wk_flow wk = Some flow.
Proof.
  assert (Hwk : is_Some (goroutines Run.started !! 0%nat)) by by_decision.
  destruct Hwk as [wk Hwk].
  destruct (worker_turn_panics_only_through_block Sample.engine Run.started 0 wk
              Run_started_reachable Hwk) as (flow & Hflow & _).
  exists wk, flow. split; [exact Hwk|exact Hflow].
Defined.
